(** * Foundry artifact registry: a shallow embedding of the Go service core

    The development follows the layout of the Go sources:
    - [Sha256]      : crypto/sha256 and encoding/hex, used by hashingWriter;
    - [Disk]        : the data directory (os.Stat/Open/MkdirAll/Rename/Remove/
                      ReadDir) and DiskBlobStorage (storage/disk.go);
    - [Meta]        : the SQLite catalog behind SQLiteStore (metadata/sqlite.go);
    - [Handlers]    : Handler.UploadArtifact, DownloadArtifact, DeleteArtifact,
                      GarbageCollect (api/handlers/handlers.go);
    - [UploadGate]  : Handler.lockArtifactUpload and artifactLock. *)

From Stdlib Require Import ZArith Ascii String Strings.Byte Lia Sorting.Sorted.
From stdpp Require Import base gmap sets list strings pretty.

Open Scope Z_scope.

(** ** crypto/sha256 and encoding/hex *)
Module Sha256.

Definition mask32 : Z := 4294967295.
Definition add32 (x y : Z) : Z := Z.land (x + y) mask32.
Definition rotr (x : Z) (n : Z) : Z :=
  Z.land (Z.lor (Z.shiftr x n) (Z.shiftl x (32 - n))) mask32.

Definition Ch (e f g : Z) : Z := Z.lxor (Z.land e f) (Z.land (Z.lxor e mask32) g).
Definition Maj (a b c : Z) : Z :=
  Z.lxor (Z.land a b) (Z.lxor (Z.land a c) (Z.land b c)).
Definition bsig0 (a : Z) : Z := Z.lxor (rotr a 2) (Z.lxor (rotr a 13) (rotr a 22)).
Definition bsig1 (e : Z) : Z := Z.lxor (rotr e 6) (Z.lxor (rotr e 11) (rotr e 25)).
Definition ssig0 (w : Z) : Z := Z.lxor (rotr w 7) (Z.lxor (rotr w 18) (Z.shiftr w 3)).
Definition ssig1 (w : Z) : Z := Z.lxor (rotr w 17) (Z.lxor (rotr w 19) (Z.shiftr w 10)).

(** Round constants (first 32 bits of the fractional parts of the cube roots
    of the first 64 primes), written in decimal. *)
Definition K256 : list Z :=
  [ 1116352408; 1899447441; 3049323471; 3921009573; 961987163; 1508970993;
    2453635748; 2870763221; 3624381080; 310598401; 607225278; 1426881987;
    1925078388; 2162078206; 2614888103; 3248222580; 3835390401; 4022224774;
    264347078; 604807628; 770255983; 1249150122; 1555081692; 1996064986;
    2554220882; 2821834349; 2952996808; 3210313671; 3336571891; 3584528711;
    113926993; 338241895; 666307205; 773529912; 1294757372; 1396182291;
    1695183700; 1986661051; 2177026350; 2456956037; 2730485921; 2820302411;
    3259730800; 3345764771; 3516065817; 3600352804; 4094571909; 275423344;
    430227734; 506948616; 659060556; 883997877; 958139571; 1322822218;
    1537002063; 1747873779; 1955562222; 2024104815; 2227730452; 2361852424;
    2428436474; 2756734187; 3204031479; 3329325298 ].

(** Initial hash value (square roots of the first 8 primes), in decimal. *)
Definition H0 : list Z :=
  [ 1779033703; 3144134277; 1013904242; 2773480762;
    1359893119; 2600822924; 528734635; 1541459225 ].

(** Big-endian encoding of a non-negative [x] on [n] bytes. *)
Fixpoint be_bytes (n : nat) (x : Z) : list Z :=
  match n with
  | O => []
  | S n' => be_bytes n' (Z.shiftr x 8) ++ [Z.land x 255]
  end.

Definition pad (msg : list Z) : list Z :=
  let len := Z.of_nat (length msg) in
  msg ++ [128] ++ repeat 0 (Z.to_nat ((55 - len) mod 64)) ++ be_bytes 8 (8 * len).

Definition word_of (b0 b1 b2 b3 : Z) : Z :=
  Z.lor (Z.shiftl b0 24) (Z.lor (Z.shiftl b1 16) (Z.lor (Z.shiftl b2 8) b3)).

Fixpoint words (fuel : nat) (bs : list Z) : list Z :=
  match fuel, bs with
  | S f, b0 :: b1 :: b2 :: b3 :: rest => word_of b0 b1 b2 b3 :: words f rest
  | _, _ => []
  end.

(** The message schedule: [w] holds W[0..t-1] in reverse order. *)
Fixpoint schedule (fuel : nat) (w : list Z) : list Z :=
  match fuel with
  | O => w
  | S f =>
      let wt := add32 (add32 (ssig1 (nth 1 w 0)) (nth 6 w 0))
                      (add32 (ssig0 (nth 14 w 0)) (nth 15 w 0)) in
      schedule f (wt :: w)
  end.

Definition round (st : list Z) (kw : Z * Z) : list Z :=
  match st with
  | [a; b; c; d; e; f; g; h] =>
      let t1 := add32 (add32 (add32 h (bsig1 e)) (add32 (Ch e f g) (fst kw))) (snd kw) in
      let t2 := add32 (bsig0 a) (Maj a b c) in
      [add32 t1 t2; a; b; c; add32 d t1; e; f; g]
  | _ => st
  end.

Definition compress (hv : list Z) (block : list Z) : list Z :=
  let w := rev (schedule 48 (rev (words 16 block))) in
  let st := fold_left round (combine K256 w) hv in
  zip_with add32 hv st.

Fixpoint blocks (fuel : nat) (bs : list Z) : list (list Z) :=
  match fuel with
  | O => []
  | S f => match bs with [] => [] | _ => take 64 bs :: blocks f (drop 64 bs) end
  end.

(** The SHA-256 digest of a byte string, as 32 bytes. *)
Definition sha256 (msg : list Z) : list Z :=
  let p := pad msg in
  let hv := fold_left compress (blocks (length p) p) H0 in
  flat_map (be_bytes 4) hv.

Definition hex_digit (n : Z) : ascii :=
  ascii_of_nat (Z.to_nat (if n <? 10 then 48 + n else 87 + n)).

(** hex.EncodeToString: two lowercase hex digits per byte. *)
Fixpoint hex_encode (bs : list Z) : string :=
  match bs with
  | [] => EmptyString
  | b :: rest => String (hex_digit (Z.shiftr b 4)) (String (hex_digit (Z.land b 15)) (hex_encode rest))
  end.

End Sha256.

(** Byte contents of files and request bodies. *)
Abbreviation bytes := (list byte).

Definition byte_val (b : byte) : Z := Z.of_N (Byte.to_N b).

(** hashingWriter.Hash() after the whole body went through Write:
    hex.EncodeToString(sha256 of the bytes written). *)
Definition digest (c : bytes) : string := Sha256.hex_encode (Sha256.sha256 (map byte_val c)).

(** Go's string slicing [s[:2]] on byte strings. *)
Definition BlobDir (hash : string) : string :=
  if (String.length hash <? 2)%nat then hash else String.substring 0 2 hash.

(** ** The data directory and DiskBlobStorage *)
Module Disk.

(** Paths are relative to the data directory, one string per component. *)
Abbreviation path := (list string).

Inductive node := NFile (c : bytes) | NDir.

(** The operating-system errors the code distinguishes: [ENOENT] is the one
    [os.IsNotExist] / [errors.Is(err, os.ErrNotExist)] recognise. *)
Inductive oserr := ENOENT | ENOTDIR | EISDIR | ENOTEMPTY | EPERM.

Inductive res (A : Type) := Ok (a : A) | Err (e : oserr).
Arguments Ok {A} a.
Arguments Err {A} e.

(** The directory tree under the data directory (which itself exists), and
    the entries whose removal the operating system refuses (permissions or
    an immutable attribute). *)
Record fs := mkFs { nodes : gmap path node; undeletable : gset path }.

(** File-system operations thread the tree and may fail. *)
Definition M (A : Type) : Type := fs -> res A * fs.
Definition ret {A} (a : A) : M A := fun s => (Ok a, s).
Definition fail {A} (e : oserr) : M A := fun s => (Err e, s).
Definition bind {A B} (m : M A) (k : A -> M B) : M B :=
  fun s => match m s with (Ok a, s') => k a s' | (Err e, s') => (Err e, s') end.
Notation "'let*' x ':=' m 'in' k" := (bind m (fun x => k))
  (at level 200, x name, m at level 100, right associativity).
Definition get : M fs := fun s => (Ok s, s).
Definition set_nodes (n : gmap path node) : M unit :=
  fun s => (Ok tt, mkFs n (undeletable s)).

(** Path resolution: every proper ancestor must be a directory. *)
Fixpoint walk (m : gmap path node) (pre : path) (p : path) : option oserr :=
  match p with
  | [] | [_] => None
  | d :: rest =>
      match m !! (pre ++ [d]) with
      | Some NDir => walk m (pre ++ [d]) rest
      | Some (NFile _) => Some ENOTDIR
      | None => Some ENOENT
      end
  end.

Definition resolve (m : gmap path node) (p : path) : res node :=
  match walk m [] p with
  | Some e => Err e
  | None => match m !! p with Some n => Ok n | None => Err ENOENT end
  end.

(** os.Stat and os.Open (opening a directory succeeds in Go). *)
Definition stat (p : path) : M node := fun s => (resolve (nodes s) p, s).
Definition open (p : path) : M node := stat p.

(** os.MkdirAll: create each missing component; a non-directory in the way
    is ENOTDIR. *)
Fixpoint mkdir_all_from (pre : path) (p : path) (m : gmap path node) : res (gmap path node) :=
  match p with
  | [] => Ok m
  | d :: rest =>
      match m !! (pre ++ [d]) with
      | Some NDir => mkdir_all_from (pre ++ [d]) rest m
      | Some (NFile _) => Err ENOTDIR
      | None => mkdir_all_from (pre ++ [d]) rest (<[pre ++ [d] := NDir]> m)
      end
  end.

Definition mkdir_all (p : path) : M unit :=
  fun s => match mkdir_all_from [] p (nodes s) with
           | Ok m => (Ok tt, mkFs m (undeletable s))
           | Err e => (Err e, s)
           end.

(** os.CreateTemp(dir, "upload-*"): a fresh "upload-<n>" entry in [dir]
    (Go draws the suffix at random and retries on collision). *)
Definition temp_name (i : nat) : string := String.append "upload-" (pretty i).

Fixpoint fresh_from (m : gmap path node) (dir : path) (i fuel : nat) : option path :=
  match fuel with
  | O => None
  | S f => match m !! (dir ++ [temp_name i]) with
           | None => Some (dir ++ [temp_name i])
           | Some _ => fresh_from m dir (S i) f
           end
  end.

Definition create_temp (dir : path) : M path :=
  fun s => match resolve (nodes s) dir with
           | Ok NDir =>
               match fresh_from (nodes s) dir 0 (S (size (nodes s))) with
               | Some p => (Ok p, mkFs (<[p := NFile []]> (nodes s)) (undeletable s))
               | None => (Err EPERM, s)
               end
           | Ok (NFile _) => (Err ENOTDIR, s)
           | Err e => (Err e, s)
           end.

(** Writing the whole body into an open regular file. *)
Definition write_all (p : path) (c : bytes) : M unit :=
  fun s => (Ok tt, mkFs (<[p := NFile c]> (nodes s)) (undeletable s)).

(** Does [k] lie strictly under directory [d]? *)
Fixpoint strip_prefix (pre k : path) : option path :=
  match pre, k with
  | [], _ => Some k
  | a :: pre', b :: k' => if String.eqb a b then strip_prefix pre' k' else None
  | _ :: _, [] => None
  end.

Definition has_children (m : gmap path node) (d : path) : bool :=
  existsb (fun kv => match strip_prefix d kv.1 with Some (_ :: _) => true | _ => false end)
          (map_to_list m).

(** os.Remove: unlink a file or an empty directory. *)
Definition remove (p : path) : M unit :=
  fun s => match resolve (nodes s) p with
           | Err e => (Err e, s)
           | Ok n =>
               if bool_decide (p ∈ undeletable s) then (Err EPERM, s)
               else match n with
                    | NDir => if has_children (nodes s) p then (Err ENOTEMPTY, s)
                              else (Ok tt, mkFs (delete p (nodes s)) (undeletable s))
                    | NFile _ => (Ok tt, mkFs (delete p (nodes s)) (undeletable s))
                    end
           end.

(** os.Rename of a regular file onto a path that is absent or a file. *)
Definition rename (src dst : path) : M unit :=
  fun s => match resolve (nodes s) src with
           | Err e => (Err e, s)
           | Ok NDir => (Err EISDIR, s)
           | Ok (NFile c) =>
               match walk (nodes s) [] dst with
               | Some e => (Err e, s)
               | None =>
                   match nodes s !! dst with
                   | Some NDir => (Err EISDIR, s)
                   | _ => (Ok tt, mkFs (<[dst := NFile c]> (delete src (nodes s))) (undeletable s))
                   end
               end
           end.

(** os.ReadDir: the entries directly under [d] (Go sorts them by name; no
    property below depends on the order). *)
Definition children (m : gmap path node) (d : path) : list (string * node) :=
  omap (fun kv => match strip_prefix d kv.1 with
                  | Some [name] => Some (name, kv.2)
                  | _ => None
                  end) (map_to_list m).

Definition read_dir (s : fs) (d : path) : res (list (string * node)) :=
  match resolve (nodes s) d with
  | Ok NDir => Ok (children (nodes s) d)
  | Ok (NFile _) => Err ENOTDIR
  | Err e => Err e
  end.

(** A deferred [os.Remove] whose error is ignored. *)
Definition ignore (m : M unit) : M unit := fun s => (Ok tt, snd (m s)).

End Disk.

(** ** storage.DiskBlobStorage *)
Module Storage.
Import Disk.

(** Errors surfaced by the storage and metadata adapters: the sentinels of
    package services, or a wrapped operating-system error. *)
Inductive serr := ErrNotFound | ErrConflict | ErrOS (e : oserr).

(** filepath.Join drops empty elements. *)
Definition join (parts : list string) : path :=
  List.filter (fun x => negb (String.eqb x "")) parts.

Definition BlobPath (hash : string) : path := join ["blobs"; BlobDir hash; hash].

(** The deferred cleanup of Store: when the body fails, the temp file is
    removed (errors ignored) and the error is returned. *)
Definition cleanup_on_err {A} (tmp : path) (m : M A) : M A :=
  fun s => match m s with
           | (Ok a, s') => (Ok a, s')
           | (Err e, s') => (Err e, snd (remove tmp s'))
           end.

(** DiskBlobStorage.Store on a request body [r]. *)
Definition Store (r : bytes) : M (string * Z) :=
  let tmpDir := join ["tmp"] in
  let* _ := mkdir_all tmpDir in
  let* tmpPath := create_temp tmpDir in
  cleanup_on_err tmpPath (
    (* streamToFile: io.Copy through hashingWriter into the temp file *)
    let* _ := write_all tmpPath r in
    let h := digest r in
    let size := Z.of_nat (length r) in
    let dir := join ["blobs"; BlobDir h] in
    let* _ := mkdir_all dir in
    let finalPath := dir ++ join [h] in
    fun s =>
      match resolve (nodes s) finalPath with
      | Ok _ => (* blob already exists, remove the temp *)
          let* _ := ignore (remove tmpPath) in ret (h, size)
      | Err ENOENT =>
          (fun s1 =>
             match rename tmpPath finalPath s1 with
             | (Ok _, s2) => (Ok (h, size), s2)
             | (Err e, s2) =>
                 (* a concurrent upload may have won the race *)
                 match resolve (nodes s2) finalPath with
                 | Ok _ => (let* _ := ignore (remove tmpPath) in ret (h, size)) s2
                 | Err _ => (Err e, s2)
                 end
             end)
      | Err e => fail e
      end s).

(** The outcome of Open, Delete and ListBlobs with the services' errors. *)
Inductive sres (A : Type) := SOk (a : A) | SErr (e : serr).
Arguments SOk {A} a.
Arguments SErr {A} e.

(** DiskBlobStorage.Open: absence becomes ErrNotFound. *)
Definition Open (s : fs) (hash : string) : sres node :=
  match resolve (nodes s) (BlobPath hash) with
  | Ok n => SOk n
  | Err ENOENT => SErr ErrNotFound
  | Err e => SErr (ErrOS e)
  end.

(** DiskBlobStorage.Exists *)
Definition Exists (s : fs) (hash : string) : bool :=
  match resolve (nodes s) (BlobPath hash) with Ok _ => true | Err _ => false end.

(** DiskBlobStorage.Delete: absence is not an error. *)
Definition Delete (hash : string) : M unit :=
  fun s => match remove (BlobPath hash) s with
           | (Err ENOENT, s') => (Ok tt, s')
           | r => r
           end.

Fixpoint all_hex (v : string) : bool :=
  match v with
  | EmptyString => true
  | String ch rest =>
      let n := nat_of_ascii ch in
      (((48 <=? n) && (n <=? 57)) || ((97 <=? n) && (n <=? 102)))%nat && all_hex rest
  end.

Definition isHexHash (v : string) : bool := (String.length v =? 64)%nat && all_hex v.

Definition is_dir (n : node) : bool := match n with NDir => true | NFile _ => false end.

(** The inner loop of ListBlobs over the entries of one prefix directory. *)
Definition blob_entries (prefix : string) (entries : list (string * node)) : list string :=
  map fst (List.filter (fun e => negb (is_dir e.2) && String.prefix prefix e.1 && isHexHash e.1) entries).

(** The outer loop of ListBlobs over the entries of blobs/. *)
Fixpoint scan (s : fs) (prefixes : list (string * node)) (hashes : list string) : sres (list string) :=
  match prefixes with
  | [] => SOk hashes
  | (name, n) :: rest =>
      if negb (is_dir n) || negb (String.length name =? 2)%nat then scan s rest hashes
      else match read_dir s (join ["blobs"; name]) with
           | Err e => SErr (ErrOS e)
           | Ok entries => scan s rest (hashes ++ blob_entries name entries)
           end
  end.

(** DiskBlobStorage.ListBlobs *)
Definition ListBlobs (s : fs) : sres (list string) :=
  match read_dir s (join ["blobs"]) with
  | Err ENOENT => SOk []
  | Err e => SErr (ErrOS e)
  | Ok prefixes => scan s prefixes []
  end.

End Storage.

(** ** metadata.SQLiteStore over the packages and artifacts tables *)
Module Meta.
Import Storage.

Record package := mkPackage { pkg_id : Z; pkg_name : string }.

Record artifact := mkArtifact {
  art_id : Z; art_package_id : Z; art_version : string;
  art_hash : string; art_size : Z; art_uploaded_at : Z }.

(** The two tables in rowid order, with their AUTOINCREMENT counters. *)
Record db := mkDb {
  packages : list package; artifacts : list artifact; pkg_seq : Z; art_seq : Z }.

(** The schema's constraints: UNIQUE(name) and UNIQUE(package_id, version). *)
Definition wf_db (d : db) : Prop :=
  NoDup (map pkg_name (packages d)) /\
  NoDup (map (fun a => (art_package_id a, art_version a)) (artifacts d)).

(** ORDER BY name under the BINARY collation: bytewise comparison. *)
Fixpoint insert_by_name (p : package) (l : list package) : list package :=
  match l with
  | [] => [p]
  | q :: l' => if String.leb (pkg_name p) (pkg_name q) then p :: q :: l'
               else q :: insert_by_name p l'
  end.

Definition sort_by_name (l : list package) : list package :=
  fold_right insert_by_name [] l.

(** SQLite's LIKE without ESCAPE: '%' matches any sequence, '_' one
    character, other characters compare with ASCII case folding. *)
Definition fold_case (c : ascii) : nat :=
  let n := nat_of_ascii c in if ((65 <=? n) && (n <=? 90))%nat then (n + 32)%nat else n.

Fixpoint like (pat s : string) : bool :=
  match pat with
  | EmptyString => match s with EmptyString => true | _ => false end
  | String c pat' =>
      if Ascii.eqb c "%"%char then
        (fix any (t : string) : bool :=
           like pat' t || match t with EmptyString => false | String _ t' => any t' end) s
      else match s with
           | EmptyString => false
           | String d s' =>
               (Ascii.eqb c "_"%char || Nat.eqb (fold_case c) (fold_case d)) && like pat' s'
           end
  end.

(** SQLiteStore.CreatePackage: INSERT OR IGNORE, then SELECT id. The
    AUTOINCREMENT counter (sqlite_sequence) draws the next id before the
    UNIQUE(name) check, so an ignored insert still advances it. *)
Definition CreatePackage (name : string) (d : db) : sres Z * db :=
  let d' := if existsb (fun p => String.eqb (pkg_name p) name) (packages d)
            then mkDb (packages d) (artifacts d) (pkg_seq d + 1) (art_seq d)
            else mkDb (packages d ++ [mkPackage (pkg_seq d + 1) name]) (artifacts d)
                      (pkg_seq d + 1) (art_seq d) in
  match find (fun p => String.eqb (pkg_name p) name) (packages d') with
  | Some p => (SOk (pkg_id p), d')
  | None => (SErr ErrNotFound, d')
  end.

(** SQLiteStore.ListPackages: SELECT id, name FROM packages ORDER BY name. *)
Definition ListPackages (d : db) : list package := sort_by_name (packages d).

(** SQLiteStore.SearchPackages: ... WHERE name LIKE '%q%' ORDER BY name. *)
Definition SearchPackages (query : string) (d : db) : list package :=
  sort_by_name (List.filter (fun p => like (String.append "%" (String.append query "%")) (pkg_name p))
                       (packages d)).

(** SQLiteStore.CreateArtifact, with the UNIQUE(package_id, version) check. *)
Definition CreateArtifact (packageID : Z) (version hash : string) (size now : Z) (d : db)
  : sres artifact * db :=
  if existsb (fun a => (art_package_id a =? packageID) && String.eqb (art_version a) version)
             (artifacts d)
  then (SErr ErrConflict, d)
  else let a := mkArtifact (art_seq d + 1) packageID version hash size now in
       (SOk a, mkDb (packages d) (artifacts d ++ [a]) (pkg_seq d) (art_seq d + 1)).

(** SQLiteStore.GetArtifact: the first row of artifacts JOIN packages with
    p.name = packageName and a.version = version; None is sql.ErrNoRows. *)
Definition GetArtifact (packageName version : string) (d : db) : option artifact :=
  find (fun a => String.eqb (art_version a) version &&
                 existsb (fun p => (pkg_id p =? art_package_id a) && String.eqb (pkg_name p) packageName)
                         (packages d))
       (artifacts d).

(** SQLiteStore.DeleteArtifact: DELETE ... WHERE package_id = (SELECT id FROM
    packages WHERE name = ?) AND version = ?; zero rows is ErrNotFound. *)
Definition matches_row (sid : option Z) (version : string) (a : artifact) : bool :=
  match sid with
  | Some i => (art_package_id a =? i) && String.eqb (art_version a) version
  | None => false
  end.

Definition DeleteArtifact (packageName version : string) (d : db) : sres unit * db :=
  let sid := option_map pkg_id (find (fun p => String.eqb (pkg_name p) packageName) (packages d)) in
  let kept := List.filter (fun a => negb (matches_row sid version a)) (artifacts d) in
  let n := (length (artifacts d) - length kept)%nat in
  let d' := mkDb (packages d) kept (pkg_seq d) (art_seq d) in
  if (n =? 0)%nat then (SErr ErrNotFound, d') else (SOk tt, d').

(** SQLiteStore.ReferencedHashes: SELECT DISTINCT hash FROM artifacts. *)
Definition ReferencedHashes (d : db) : gset string := list_to_set (map art_hash (artifacts d)).

End Meta.

(** ** api/handlers: one request against the metadata store and the disk

    Requests are run one at a time; the per-key upload gate that
    UploadArtifact takes and releases on every path is modelled on its own
    in [UploadGate] (a sequential run leaves its table as it was). *)
Module Handlers.
Import Disk Storage Meta.

Record world := mkWorld { meta : db; disk : fs }.

Inductive body :=
  | BError (msg : string)
  | BUpload (pkg version hash : string) (size uploadedAt : Z)
  | BBlob (content : bytes)
  | BDeleted
  | BGC (deletedBlobs freedBytes : Z).

Record response := mkResponse { status : Z; rbody : body }.

(** writeError(w, status, msg) *)
Definition writeError (st : Z) (msg : string) : response := mkResponse st (BError msg).

Definition sappend (l : list string) : string := fold_right String.append "" l.

(** Handler.UploadArtifact on POST /artifacts/{pkgName}/{version} with
    request body [r], at time [now]. *)
Definition UploadArtifact (pkgName version : string) (r : bytes) (now : Z) (w : world)
  : response * world :=
  if String.eqb pkgName "" || String.eqb version "" then
    (writeError 400 "package and version are required", w)
  else
    match GetArtifact pkgName version (meta w) with
    | Some _ =>
        (writeError 409 (sappend ["artifact "; pkgName; "@"; version; " already exists"]), w)
    | None =>
        match Store r (disk w) with
        | (Err _, s1) => (writeError 500 "failed to store artifact", mkWorld (meta w) s1)
        | (Ok (hash, size), s1) =>
            match CreatePackage pkgName (meta w) with
            | (SErr _, d1) => (writeError 500 "failed to create package", mkWorld d1 s1)
            | (SOk pkgID, d1) =>
                match CreateArtifact pkgID version hash size now d1 with
                | (SErr ErrConflict, d2) =>
                    (writeError 409 (sappend ["artifact "; pkgName; "@"; version; " already exists"]),
                     mkWorld d2 s1)
                | (SErr _, d2) => (writeError 500 "failed to create artifact metadata", mkWorld d2 s1)
                | (SOk a, d2) =>
                    (mkResponse 201 (BUpload pkgName version (art_hash a) (art_size a) (art_uploaded_at a)),
                     mkWorld d2 s1)
                end
            end
        end
    end.

(** Handler.DownloadArtifact: reading a directory fails after the 200
    header went out, so its body is empty. *)
Definition DownloadArtifact (pkgName version : string) (w : world) : response :=
  match GetArtifact pkgName version (meta w) with
  | None => writeError 404 (sappend ["artifact "; pkgName; "@"; version; " not found"])
  | Some a =>
      match Open (disk w) (art_hash a) with
      | SErr ErrNotFound => writeError 404 "artifact blob missing on disk"
      | SErr _ => writeError 500 "blob not found on disk"
      | SOk (NFile c) => mkResponse 200 (BBlob c)
      | SOk NDir => mkResponse 200 (BBlob [])
      end
  end.

(** Handler.DeleteArtifact; the error text is that of SQLiteStore.DeleteArtifact. *)
Definition DeleteArtifact (pkgName version : string) (w : world) : response * world :=
  match Meta.DeleteArtifact pkgName version (meta w) with
  | (SErr ErrNotFound, d') =>
      (writeError 404 (sappend ["not found: artifact "; pkgName; "@"; version]), mkWorld d' (disk w))
  | (SErr _, d') => (writeError 500 "internal error", mkWorld d' (disk w))
  | (SOk _, d') => (mkResponse 200 BDeleted, mkWorld d' (disk w))
  end.

(** The log lines GarbageCollect writes, one per call of Delete. *)
Inductive log_entry := LogDeleteFailed (hash : string) | LogCollected (hash : string).

Definition log_hash (e : log_entry) : string :=
  match e with LogDeleteFailed h => h | LogCollected h => h end.

(** info.Size() of os.Stat: the length of a file; a directory reports the
    block size of the file system. *)
Definition dir_size : Z := 4096.
Definition stat_size (n : node) : Z :=
  match n with NFile c => Z.of_nat (length c) | NDir => dir_size end.

(** The sweep loop of GarbageCollect. *)
Fixpoint gc_loop (referenced : gset string) (hashes : list string)
    (deleted freed : Z) (s : fs) (log : list log_entry) : Z * Z * fs * list log_entry :=
  match hashes with
  | [] => (deleted, freed, s, log)
  | hash :: rest =>
      if bool_decide (hash ∈ referenced) then gc_loop referenced rest deleted freed s log
      else
        let freed' := match resolve (nodes s) (BlobPath hash) with
                      | Ok n => freed + stat_size n
                      | Err _ => freed
                      end in
        match Delete hash s with
        | (Err _, s') => gc_loop referenced rest deleted freed' s' (log ++ [LogDeleteFailed hash])
        | (Ok _, s') => gc_loop referenced rest (deleted + 1) freed' s' (log ++ [LogCollected hash])
        end
  end.

(** Handler.GarbageCollect *)
Definition GarbageCollect (w : world) : response * world * list log_entry :=
  let referenced := ReferencedHashes (meta w) in
  match ListBlobs (disk w) with
  | SErr _ => (writeError 500 "internal error", w, [])
  | SOk blobs =>
      match gc_loop referenced blobs 0 0 (disk w) [] with
      | (deleted, freed, s', log) => (mkResponse 200 (BGC deleted freed), mkWorld (meta w) s', log)
      end
  end.

End Handlers.

(** ** The per-key upload gate: Handler.lockArtifactUpload and artifactLock

    Goroutines are interleaved; each block run under [locksMu] is one atomic
    step, as are [lock.mu.Lock] (enabled only when the mutex is free) and
    [lock.mu.Unlock].  Lock objects live in a heap indexed by address, so a
    goroutine keeps the pointer it read from the map, as in the Go code. *)
Module UploadGate.

Record artifactLock := mkLock { mu_locked : bool; refs : nat }.

Record gate := mkGate {
  uploadLocks : gmap string nat;        (** key -> address of its artifactLock *)
  heap : gmap nat artifactLock;
  next_addr : nat }.

(** Where a goroutine is in lockArtifactUpload and in the returned release:
    [TWaiting]: counted, blocked in lock.mu.Lock();
    [THolding]: lockArtifactUpload returned, the upload runs;
    [TReleasing]: the release func has unlocked lock.mu and is about to
    take locksMu to drop its reference. *)
Inductive thread :=
  | TFree
  | TWaiting (key : string) (l : nat)
  | THolding (key : string) (l : nat)
  | TReleasing (key : string) (l : nat).

Record state := mkState { gt : gate; threads : list thread }.

Definition key_of (pkgName version : string) : string :=
  String.append pkgName (String.append "@" version).

Definition set_thread (s : state) (i : nat) (t : thread) : list thread :=
  <[i := t]> (threads s).

(** The block of lockArtifactUpload run under locksMu: find-or-insert the
    key's artifactLock, then [lock.refs++]; returns the lock's address. *)
Definition acquire_locked (key : string) (g : gate) : gate * nat :=
  let '(g1, l) := match uploadLocks g !! key with
                  | Some l => (g, l)
                  | None => (mkGate (<[key := next_addr g]> (uploadLocks g))
                                    (<[next_addr g := mkLock false 0]> (heap g))
                                    (S (next_addr g)), next_addr g)
                  end in
  match heap g1 !! l with
  | Some o => (mkGate (uploadLocks g1) (<[l := mkLock (mu_locked o) (S (refs o))]> (heap g1))
                      (next_addr g1), l)
  | None => (g1, l)
  end.

(** The block of the release func run under locksMu: [lock.refs--] and, at
    zero, [delete(h.uploadLocks, key)]. *)
Definition release_locked (key : string) (l : nat) (g : gate) : gate :=
  match heap g !! l with
  | Some o =>
      let o' := mkLock (mu_locked o) (pred (refs o)) in
      mkGate (if (refs o' =? 0)%nat then delete key (uploadLocks g) else uploadLocks g)
             (<[l := o']> (heap g)) (next_addr g)
  | None => g
  end.

(** lock.mu.Lock() / lock.mu.Unlock() on the object at address [l]. *)
Definition set_mu (b : bool) (l : nat) (g : gate) : gate :=
  match heap g !! l with
  | Some o => mkGate (uploadLocks g) (<[l := mkLock b (refs o)]> (heap g)) (next_addr g)
  | None => g
  end.

Definition mu_free (l : nat) (g : gate) : bool :=
  match heap g !! l with Some o => negb (mu_locked o) | None => false end.

Inductive step : state -> state -> Prop :=
  | step_acquire s i pkgName version :
      threads s !! i = Some TFree ->
      step s (mkState (acquire_locked (key_of pkgName version) (gt s)).1
                      (set_thread s i (TWaiting (key_of pkgName version)
                                                (acquire_locked (key_of pkgName version) (gt s)).2)))
  | step_lock s i key l :
      threads s !! i = Some (TWaiting key l) ->
      mu_free l (gt s) = true ->
      step s (mkState (set_mu true l (gt s)) (set_thread s i (THolding key l)))
  | step_unlock s i key l :
      threads s !! i = Some (THolding key l) ->
      step s (mkState (set_mu false l (gt s)) (set_thread s i (TReleasing key l)))
  | step_release s i key l :
      threads s !! i = Some (TReleasing key l) ->
      step s (mkState (release_locked key l (gt s)) (set_thread s i TFree)).

(** New(): an empty table, [n] goroutines not in the gate. *)
Definition init (n : nat) : state := mkState (mkGate ∅ ∅ 0) (replicate n TFree).

Definition reachable (s : state) : Prop := exists n, rtc step (init n) s.

Definition waiting_on (key : string) (t : thread) : bool :=
  match t with TWaiting k _ => String.eqb k key | _ => false end.

Definition holding (key : string) (t : thread) : bool :=
  match t with THolding k _ | TReleasing k _ => String.eqb k key | _ => false end.

(** Goroutines blocked on the key's lock, and goroutines that acquired it and
    have not finished their release call. *)
Definition waiters (s : state) (key : string) : nat := length (List.filter (waiting_on key) (threads s)).
Definition holders (s : state) (key : string) : nat := length (List.filter (holding key) (threads s)).

End UploadGate.

(** ** Properties *)

Definition contains (needle hay : string) : Prop :=
  exists pre post, hay = String.append pre (String.append needle post).

Lemma string_append_assoc (a b c : string) :
  String.append a (String.append b c) = String.append (String.append a b) c.
Proof. induction a as [|ch a IH]; [reflexivity|]. exact (f_equal (String ch) IH). Qed.

Lemma string_append_cons (ch : ascii) (a b : string) :
  String.append (String ch a) b = String ch (String.append a b).
Proof. reflexivity. Qed.

Module HandlerFacts.
Import Disk Storage Meta Handlers.

(** C9: DeleteArtifact only touches the catalog; the blob files, in
    particular the one addressed by the deleted artifact's hash, are left on
    disk for the garbage collector. *)
Theorem delete_keeps_disk (w : world) (pkgName version : string) :
  disk (DeleteArtifact pkgName version w).2 = disk w /\
  (forall hash, Exists (disk (DeleteArtifact pkgName version w).2) hash = Exists (disk w) hash).
Proof.
  unfold DeleteArtifact.
  destruct (Meta.DeleteArtifact pkgName version (meta w)) as [[u|[| |e]] d'];
    simpl; split; reflexivity.
Qed.

(** C4: an upload of an existing (package, version) answers 409 with
    "<package>@<version>" in its message, before Store is called: neither
    the disk nor the catalog changes.  (chi never routes an empty path
    segment, so both parameters are non-empty.) *)
Theorem upload_existing_conflict (w : world) (pkgName version : string) (r : bytes) (now : Z)
    (a : artifact) :
  pkgName <> "" -> version <> "" ->
  GetArtifact pkgName version (meta w) = Some a ->
  exists msg, UploadArtifact pkgName version r now w = (writeError 409 msg, w) /\
              contains (String.append pkgName (String.append "@" version)) msg.
Proof.
  intros Hp Hv Hg. unfold UploadArtifact.
  apply String.eqb_neq in Hp, Hv. rewrite Hp, Hv. simpl. rewrite Hg.
  eexists; split; [reflexivity|].
  exists "artifact ", (String.append " already exists" "").
  unfold sappend; simpl. f_equal.
  rewrite <- (string_append_assoc pkgName). reflexivity.
Qed.

End HandlerFacts.

(** ** The catalog *)
Module MetaFacts.
Import Disk Storage Meta Handlers.

Lemma nodup_map_unique {A B} (f : A -> B) (l : list A) (x y : A) :
  NoDup (map f l) -> In x l -> In y l -> f x = f y -> x = y.
Proof.
  induction l as [|z l IH]; simpl; [tauto|].
  intros Hnd Hx Hy Hf. inversion Hnd as [|? ? Hnin Hnd']; subst.
  destruct Hx as [<-|Hx], Hy as [<-|Hy]; auto.
  - exfalso. apply Hnin. rewrite Hf. apply list_elem_of_In, in_map. exact Hy.
  - exfalso. apply Hnin. rewrite <- Hf. apply list_elem_of_In, in_map. exact Hx.
Qed.

Lemma filter_all_true {A} (f : A -> bool) (l : list A) :
  (forall y, In y l -> f y = true) -> List.filter f l = l.
Proof.
  induction l as [|x l IH]; simpl; intros H; [reflexivity|].
  rewrite (H x (or_introl eq_refl)), IH; [reflexivity|]. intros y Hy. apply H. right. exact Hy.
Qed.

Lemma filter_out_one {A B} (g : A -> B) (P : A -> bool) (l : list A) (a : A) :
  NoDup (map g l) -> In a l -> (forall x, P x = true <-> g x = g a) ->
  length (List.filter (fun x => negb (P x)) l) = (length l - 1)%nat.
Proof.
  intros Hnd Ha HP. induction l as [|x l IH]; [destruct Ha|].
  inversion Hnd as [|? ? Hnin Hnd']; subst. simpl.
  destruct Ha as [->|Ha].
  - assert (P a = true) as -> by (apply HP; reflexivity). simpl.
    rewrite filter_all_true; [lia|].
    intros y Hy. destruct (P y) eqn:E; [|reflexivity].
    apply HP in E. exfalso. apply Hnin. rewrite <- E. apply list_elem_of_In, in_map. exact Hy.
  - destruct (P x) eqn:E.
    + apply HP in E. exfalso. apply Hnin. rewrite E. apply list_elem_of_In, in_map. exact Ha.
    + simpl. rewrite IH by assumption. destruct l; [destruct Ha|]. simpl. lia.
Qed.

Lemma GetArtifact_some (pkgName version : string) (d : db) (a : artifact) :
  GetArtifact pkgName version d = Some a ->
  In a (artifacts d) /\ art_version a = version /\
  exists p, In p (packages d) /\ pkg_id p = art_package_id a /\ pkg_name p = pkgName.
Proof.
  unfold GetArtifact. intros Hf. apply find_some in Hf as [Hin Hp].
  apply andb_true_iff in Hp as [Hv Hex]. apply String.eqb_eq in Hv.
  apply existsb_exists in Hex as [p [Hp Hpp]]. apply andb_true_iff in Hpp as [Hi Hn].
  apply Z.eqb_eq in Hi. apply String.eqb_eq in Hn. eauto 10.
Qed.

Lemma find_name_some (pkgName : string) (d : db) (p : package) :
  find (fun p => String.eqb (pkg_name p) pkgName) (packages d) = Some p ->
  In p (packages d) /\ pkg_name p = pkgName.
Proof.
  intros Hf. apply find_some in Hf as [Hin Hn]. apply String.eqb_eq in Hn. auto.
Qed.

(** C7: with the schema's constraints, deleting an existing (package,
    version) removes exactly its row, after which GetArtifact is None and a
    download answers 404; when no row exists, DeleteArtifact fails with
    ErrNotFound and removes nothing. *)
Theorem delete_artifact_exactly_one (d : db) (s : fs) (pkgName version : string) :
  wf_db d ->
  (forall a, GetArtifact pkgName version d = Some a ->
     exists d', Meta.DeleteArtifact pkgName version d = (SOk tt, d') /\
       length (artifacts d') = (length (artifacts d) - 1)%nat /\
       (forall b, In b (artifacts d') <-> In b (artifacts d) /\ b <> a) /\
       GetArtifact pkgName version d' = None /\
       status (DownloadArtifact pkgName version (mkWorld d' s)) = 404) /\
  (GetArtifact pkgName version d = None ->
     exists d', Meta.DeleteArtifact pkgName version d = (SErr ErrNotFound, d') /\
       artifacts d' = artifacts d).
Proof.
  intros [Hnames Hkeys]. split.
  - intros a Hg. pose proof (GetArtifact_some _ _ _ _ Hg) as (Ha & Hv & p & Hp & Hid & Hn).
    unfold Meta.DeleteArtifact.
    destruct (find (fun p => String.eqb (pkg_name p) pkgName) (packages d)) as [p'|] eqn:Hf;
      [|apply (find_none _ _ Hf) in Hp; rewrite Hn, String.eqb_refl in Hp; discriminate].
    apply find_name_some in Hf as [Hp' Hn'].
    assert (p' = p) as -> by (apply (nodup_map_unique pkg_name (packages d)); congruence).
    cbn [option_map].
    set (P := matches_row (Some (pkg_id p)) version).
    assert (HP : forall x, P x = true <->
              (art_package_id x, art_version x) = (art_package_id a, art_version a)).
    { intros x. unfold P, matches_row. rewrite andb_true_iff, Z.eqb_eq, String.eqb_eq.
      split; [intros [-> ->]; congruence | intros Hxa; injection Hxa; intros; split; congruence]. }
    pose proof (filter_out_one _ P _ a Hkeys Ha HP) as Hlen.
    assert ((length (artifacts d) - length (List.filter (fun a0 => negb (P a0)) (artifacts d)) =? 0)%nat
            = false) as ->.
    { apply Nat.eqb_neq. rewrite Hlen. destruct (artifacts d); [destruct Ha|]. simpl. lia. }
    assert (Hmem : forall b, In b (List.filter (fun a0 => negb (P a0)) (artifacts d)) <->
                              In b (artifacts d) /\ b <> a).
    { intros b. rewrite filter_In. split.
      - intros [Hb HPb]. split; [exact Hb|]. intros ->.
        assert (P a = true) by (apply HP; reflexivity). rewrite H in HPb. discriminate.
      - intros [Hb Hba]. split; [exact Hb|]. destruct (P b) eqn:E; [|reflexivity].
        exfalso. apply Hba. apply HP in E.
        exact (nodup_map_unique _ _ _ _ Hkeys Hb Ha E). }
    eexists; split; [reflexivity|]. simpl. split; [exact Hlen|]. split; [exact Hmem|].
    assert (Hnone : GetArtifact pkgName version
              (mkDb (packages d) (List.filter (fun a0 => negb (P a0)) (artifacts d)) (pkg_seq d) (art_seq d))
              = None).
    { match goal with |- ?x = None => destruct x as [b|] eqn:Hb; [|reflexivity] end.
      apply GetArtifact_some in Hb as (Hb & Hbv & q & Hq & Hqid & Hqn). simpl in *.
      apply filter_In in Hb as [_ HPb].
      assert (q = p) as -> by (apply (nodup_map_unique pkg_name (packages d)); congruence).
      assert (P b = true) as E.
      { unfold P, matches_row. rewrite andb_true_iff, Z.eqb_eq, String.eqb_eq. split; congruence. }
      rewrite E in HPb. discriminate. }
    split; [exact Hnone|]. unfold DownloadArtifact. simpl. rewrite Hnone. reflexivity.
  - intros Hg. unfold Meta.DeleteArtifact.
    rewrite filter_all_true.
    + rewrite Nat.sub_diag. simpl. eexists; split; reflexivity.
    + intros b Hb. destruct (matches_row _ version b) eqn:E; [|reflexivity]. exfalso.
      destruct (find (fun p => String.eqb (pkg_name p) pkgName) (packages d)) as [p|] eqn:Hf;
        [|discriminate].
      apply find_name_some in Hf as [Hp Hn]. simpl in E.
      apply andb_true_iff in E as [Ei Ev].
      apply (find_none _ _ Hg) in Hb. rewrite Ev in Hb. simpl in Hb.
      assert (existsb (fun p0 => (pkg_id p0 =? art_package_id b) && String.eqb (pkg_name p0) pkgName)
                (packages d) = true) as Hex.
      { apply existsb_exists. exists p. split; [exact Hp|].
        apply Z.eqb_eq in Ei. rewrite Ei, Z.eqb_refl, Hn, String.eqb_refl. reflexivity. }
      rewrite Hex in Hb. discriminate.
Qed.

End MetaFacts.

(** ** Blob paths and downloads *)
Module BlobFacts.
Import Disk Storage Meta Handlers.

Lemma substring_length (n : nat) (v : string) :
  (n <= String.length v)%nat -> String.length (String.substring 0 n v) = n.
Proof.
  revert v. induction n as [|n IH]; intros v Hv; destruct v as [|ch v]; simpl in *;
    try reflexivity; try lia.
  f_equal. apply IH. lia.
Qed.

Lemma BlobDir_length (hash : string) :
  (2 <= String.length hash)%nat -> String.length (BlobDir hash) = 2%nat.
Proof.
  intros H. unfold BlobDir. destruct (String.length hash <? 2)%nat eqn:E.
  - apply Nat.ltb_lt in E. lia.
  - apply substring_length. exact H.
Qed.

Lemma nonempty_eqb (v : string) : (1 <= String.length v)%nat -> String.eqb v "" = false.
Proof. destruct v; simpl; [lia | reflexivity]. Qed.

Lemma BlobPath_eq (hash : string) :
  (2 <= String.length hash)%nat -> BlobPath hash = ["blobs"; BlobDir hash; hash].
Proof.
  intros H. unfold BlobPath, join. cbn [List.filter].
  rewrite (nonempty_eqb (BlobDir hash)) by (rewrite BlobDir_length; lia).
  rewrite (nonempty_eqb hash) by lia. reflexivity.
Qed.

Definition hash_ex : string :=
  "0bed98b9597c3f9265a16543449e9e098d0815b0278dc197bbecfde30775eab6".

(** A catalog holding demo@1.0.0 whose blob file is gone and whose prefix
    directory blobs/0b was replaced by a regular file. *)
Definition w_prefix_file : world :=
  mkWorld (mkDb [mkPackage 1 "demo"] [mkArtifact 1 1 "1.0.0" hash_ex 7 0] 1 1)
          (mkFs (<[["blobs"; "0b"] := NFile []]> (<[["blobs"] := NDir]> ∅)) ∅).



End BlobFacts.

(** ** Concrete runs of the handler and catalog theorems *)
Module HandlerExamples.
Import Disk Storage Meta Handlers HandlerFacts MetaFacts BlobFacts.

Definition art_demo : artifact := mkArtifact 1 1 "1.0.0" hash_ex 7 0.


Lemma upload_existing_conflict_witness :
  exists msg, UploadArtifact "demo" "1.0.0" [] 0 w_prefix_file = (writeError 409 msg, w_prefix_file) /\
              contains (String.append "demo" (String.append "@" "1.0.0")) msg.
Proof.
  apply (upload_existing_conflict w_prefix_file "demo" "1.0.0" [] 0 art_demo);
    [discriminate | discriminate | vm_compute; reflexivity].
Defined.

Lemma wf_db_demo : wf_db (meta w_prefix_file).
Proof. split; apply NoDup_singleton. Qed.

Lemma delete_artifact_exactly_one_witness :
  exists d', Meta.DeleteArtifact "demo" "1.0.0" (meta w_prefix_file) = (SOk tt, d') /\
             GetArtifact "demo" "1.0.0" d' = None /\
             status (DownloadArtifact "demo" "1.0.0" (mkWorld d' (disk w_prefix_file))) = 404.
Proof.
  destruct (proj1 (delete_artifact_exactly_one (meta w_prefix_file) (disk w_prefix_file)
                     "demo" "1.0.0" wf_db_demo) art_demo)
    as (d' & Hdel & _ & _ & Hget & Hst); [vm_compute; reflexivity|].
  exists d'. auto.
Defined.


End HandlerExamples.

(** ** ListBlobs *)
Module ListFacts.
Import Disk Storage.

Lemma strip_prefix_app (pre r : path) : strip_prefix pre (pre ++ r) = Some r.
Proof. induction pre as [|a pre IH]; simpl; [reflexivity|]. rewrite String.eqb_refl. exact IH. Qed.

Lemma strip_prefix_some (pre k r : path) : strip_prefix pre k = Some r -> k = pre ++ r.
Proof.
  revert k. induction pre as [|a pre IH]; intros k H; simpl in *; [congruence|].
  destruct k as [|b k]; [discriminate|].
  destruct (String.eqb a b) eqn:E; [|discriminate].
  apply String.eqb_eq in E as ->. f_equal. apply IH. exact H.
Qed.

Lemma in_children (m : gmap path node) (d : path) (name : string) (n : node) :
  In (name, n) (children m d) <-> m !! (d ++ [name]) = Some n.
Proof.
  unfold children. rewrite <- list_elem_of_In, list_elem_of_omap. split.
  - intros [[k v] [Hin Hf]]. simpl in Hf.
    destruct (strip_prefix d k) as [[|nm [|]]|] eqn:E; try discriminate.
    injection Hf as <- <-. apply strip_prefix_some in E as ->.
    apply elem_of_map_to_list. exact Hin.
  - intros H. exists (d ++ [name], n). split.
    + apply elem_of_map_to_list. exact H.
    + simpl. rewrite strip_prefix_app. reflexivity.
Qed.

Lemma fmap_fst_map {A B} (l : list (A * B)) : l.*1 = map fst l.
Proof. induction l as [|x l IH]; simpl; [reflexivity|]. rewrite <- IH. reflexivity. Qed.

Lemma children_nodup (m : gmap path node) (d : path) : NoDup (map fst (children m d)).
Proof.
  unfold children. pose proof (NoDup_fst_map_to_list m) as Hnd.
  rewrite fmap_fst_map in Hnd. induction (map_to_list m) as [|[k v] l IH]; simpl.
  { constructor. }
  inversion Hnd as [|? ? Hnin Hnd']; subst. specialize (IH Hnd').
  destruct (strip_prefix d k) as [[|nm [|]]|] eqn:E; try exact IH.
  simpl. constructor; [|exact IH].
  intros Hin. apply list_elem_of_In, in_map_iff in Hin as [[nm' v'] [Heq Hin]]. simpl in Heq. subst nm'.
  apply list_elem_of_In, list_elem_of_omap in Hin as [[k' v''] [Hin' Hf]]. simpl in Hf.
  destruct (strip_prefix d k') as [[|nm'' [|]]|] eqn:E'; try discriminate.
  injection Hf as -> ->. apply strip_prefix_some in E, E'. subst k k'.
  apply Hnin. apply list_elem_of_In, in_map_iff. exists (d ++ [nm], v').
  split; [reflexivity|]. apply list_elem_of_In. exact Hin'.
Qed.

Lemma prefix_unique (x y h : string) :
  String.prefix x h = true -> String.prefix y h = true ->
  String.length x = String.length y -> x = y.
Proof.
  intros Hx Hy Hl. apply String.prefix_correct in Hx, Hy. rewrite <- Hx, <- Hy, Hl. reflexivity.
Qed.

Lemma join_two (name : string) :
  String.length name = 2%nat -> join ["blobs"; name] = ["blobs"; name].
Proof. intros H. unfold join. cbn [List.filter]. destruct name; [discriminate|]. reflexivity. Qed.

(** What one prefix directory contributes to the listing. *)
Definition prefix_blobs (m : gmap path node) (e : string * node) : list string :=
  if is_dir e.2 && (String.length e.1 =? 2)%nat
  then blob_entries e.1 (children m ["blobs"; e.1]) else [].

Lemma scan_ok (s : fs) (ps : list (string * node)) (acc : list string) :
  nodes s !! ["blobs"] = Some NDir ->
  (forall name n, In (name, n) ps -> nodes s !! ["blobs"; name] = Some n) ->
  scan s ps acc = SOk (acc ++ flat_map (prefix_blobs (nodes s)) ps).
Proof.
  intros Hb. revert acc. induction ps as [|[name n] ps IH]; intros acc Hps; simpl.
  { rewrite app_nil_r. reflexivity. }
  unfold prefix_blobs at 1. cbn [fst snd].
  assert (Hn : nodes s !! ["blobs"; name] = Some n) by (apply Hps; left; reflexivity).
  assert (Hrest : forall name n, In (name, n) ps -> nodes s !! ["blobs"; name] = Some n)
    by (intros; apply Hps; right; assumption).
  destruct n as [c|]; cbn [is_dir negb orb andb].
  - rewrite IH by exact Hrest. reflexivity.
  - destruct (String.length name =? 2)%nat eqn:El; cbn [negb orb andb].
    + apply Nat.eqb_eq in El.
      replace (negb (name =? "")%string) with true by (destruct name; [discriminate|reflexivity]).
      unfold read_dir, resolve. cbn [walk app]. rewrite Hb, Hn.
      rewrite IH by exact Hrest. rewrite app_assoc. reflexivity.
    + rewrite IH by exact Hrest. reflexivity.
Qed.

Lemma ListBlobs_dir (s : fs) :
  nodes s !! ["blobs"] = Some NDir ->
  ListBlobs s = SOk (flat_map (prefix_blobs (nodes s)) (children (nodes s) ["blobs"])).
Proof.
  intros Hb. unfold ListBlobs, read_dir, resolve. cbn [join List.filter String.eqb walk negb].
  rewrite Hb. rewrite scan_ok; [reflexivity|exact Hb|].
  intros name n Hin. apply in_children in Hin. exact Hin.
Qed.

(** A listed hash: a regular file blobs/<xx>/<hash> under a 2-character
    directory, with a 64-character lowercase hex name starting with <xx>. *)
Definition listed (m : gmap path node) (h : string) : Prop :=
  exists xx c, m !! ["blobs"; xx] = Some NDir /\ String.length xx = 2%nat /\
               m !! ["blobs"; xx; h] = Some (NFile c) /\
               String.prefix xx h = true /\ isHexHash h = true.

Lemma in_ListBlobs (m : gmap path node) (h : string) :
  In h (flat_map (prefix_blobs m) (children m ["blobs"])) <-> listed m h.
Proof.
  rewrite in_flat_map. split.
  - intros [[xx n] [Hin Hh]]. apply in_children in Hin. unfold prefix_blobs in Hh. simpl in Hh.
    destruct (is_dir n && (String.length xx =? 2)%nat) eqn:E; [|destruct Hh].
    apply andb_true_iff in E as [Ed El]. apply Nat.eqb_eq in El.
    destruct n; [discriminate|].
    unfold blob_entries in Hh. apply in_map_iff in Hh as [[h' n'] [Heq Hh]]. simpl in Heq. subst h'.
    apply filter_In in Hh as [Hh Hp]. apply in_children in Hh. simpl in Hp.
    apply andb_true_iff in Hp as [Hp Hx]. apply andb_true_iff in Hp as [Hd Hpre].
    destruct n' as [c|]; [|discriminate].
    exists xx, c. repeat split; assumption.
  - intros (xx & c & Hd & Hl & Hf & Hp & Hx). exists (xx, NDir). split.
    + apply in_children. exact Hd.
    + unfold prefix_blobs. simpl. rewrite Hl. simpl. unfold blob_entries.
      apply in_map_iff. exists (h, NFile c). split; [reflexivity|].
      apply filter_In. split; [apply in_children; exact Hf|]. simpl. rewrite Hp, Hx. reflexivity.
Qed.

Lemma nodup_map_fst_filter {A B} (f : A * B -> bool) (l : list (A * B)) :
  NoDup (map fst l) -> NoDup (map fst (List.filter f l)).
Proof.
  induction l as [|x l IH]; simpl; intros Hnd; [constructor|].
  inversion Hnd as [|? ? Hnin Hnd']; subst.
  destruct (f x); simpl; [|exact (IH Hnd')].
  constructor; [|exact (IH Hnd')].
  intros Hin. apply Hnin. apply list_elem_of_In in Hin. apply list_elem_of_In.
  apply in_map_iff in Hin as [y [Hy Hin]]. apply in_map_iff. exists y.
  split; [exact Hy|]. apply filter_In in Hin. apply Hin.
Qed.

Lemma prefix_blobs_nodup (m : gmap path node) (e : string * node) : NoDup (prefix_blobs m e).
Proof.
  unfold prefix_blobs. destruct (is_dir e.2 && _); [|constructor].
  unfold blob_entries. apply nodup_map_fst_filter, children_nodup.
Qed.

Lemma prefix_blobs_prefix (m : gmap path node) (e : string * node) (h : string) :
  In h (prefix_blobs m e) -> String.prefix e.1 h = true /\ String.length e.1 = 2%nat.
Proof.
  unfold prefix_blobs. destruct (is_dir e.2 && (String.length e.1 =? 2)%nat) eqn:E; [|intros []].
  apply andb_true_iff in E as [_ El]. apply Nat.eqb_eq in El.
  unfold blob_entries. intros Hin. apply in_map_iff in Hin as [[h' n] [<- Hin]].
  apply filter_In in Hin as [_ Hp]. simpl in Hp.
  apply andb_true_iff in Hp as [Hp _]. apply andb_true_iff in Hp as [_ Hp]. auto.
Qed.

Lemma flat_map_prefix_blobs_nodup (m : gmap path node) (ps : list (string * node)) :
  NoDup (map fst ps) -> NoDup (flat_map (prefix_blobs m) ps).
Proof.
  induction ps as [|e ps IH]; simpl; intros Hnd; [constructor|].
  inversion Hnd as [|? ? Hnin Hnd']; subst.
  apply NoDup_app. split; [apply prefix_blobs_nodup|]. split; [|exact (IH Hnd')].
  intros h Hh Hh'. apply list_elem_of_In in Hh, Hh'.
  apply in_flat_map in Hh' as [e' [He' Hh']].
  apply prefix_blobs_prefix in Hh as [P1 L1], Hh' as [P2 L2].
  assert (e.1 = e'.1) as Heq by (apply (prefix_unique _ _ h); congruence).
  apply Hnin. apply list_elem_of_In. rewrite Heq. apply in_map. exact He'.
Qed.

End ListFacts.

Module ListBlobsClaims.
Import Disk Storage ListFacts.

(** C6 (amended): blobs/ is absent, a regular file or a directory (every
    directory of the tree can be read). With no blobs/ the listing is empty;
    with a regular file there, os.ReadDir fails with ENOTDIR and ListBlobs
    returns that error; with a directory it lists, once each, exactly the
    regular files blobs/<xx>/<hash> with <xx> a 2-character directory,
    <hash> 64 lowercase hex characters, and <hash> starting with <xx>;
    everything else is skipped. *)
Theorem ListBlobs_exact (s : fs) :
  (nodes s !! ["blobs"] = None -> ListBlobs s = SOk []) /\
  (forall c, nodes s !! ["blobs"] = Some (NFile c) -> ListBlobs s = SErr (ErrOS ENOTDIR)) /\
  (nodes s !! ["blobs"] = Some NDir ->
     exists hs, ListBlobs s = SOk hs /\ NoDup hs /\ forall h, In h hs <-> listed (nodes s) h).
Proof.
  split; [|split].
  - intros Hb. unfold ListBlobs, read_dir, resolve. cbn [join List.filter String.eqb walk negb].
    rewrite Hb. reflexivity.
  - intros c Hb. unfold ListBlobs, read_dir, resolve. cbn [join List.filter String.eqb walk negb].
    rewrite Hb. reflexivity.
  - intros Hb. eexists. split; [apply ListBlobs_dir; exact Hb|]. split.
    + apply flat_map_prefix_blobs_nodup, children_nodup.
    + intros h. apply in_ListBlobs.
Qed.

Lemma ListBlobs_exact_witness :
  (exists hs, ListBlobs (mkFs (<[["blobs"] := NDir]> ∅) ∅) = SOk hs /\ NoDup hs /\
    forall h, In h hs <-> listed (nodes (mkFs (<[["blobs"] := NDir]> ∅) ∅)) h) /\
  ListBlobs (mkFs (<[["blobs"] := NFile []]> ∅) ∅) = SErr (ErrOS ENOTDIR) /\
  ListBlobs (mkFs ∅ ∅) = SOk [].
Proof.
  split; [|split].
  - apply (proj2 (proj2 (ListBlobs_exact (mkFs (<[["blobs"] := NDir]> ∅) ∅)))).
    vm_compute. reflexivity.
  - apply (proj1 (proj2 (ListBlobs_exact (mkFs (<[["blobs"] := NFile []]> ∅) ∅))) []).
    vm_compute. reflexivity.
  - apply (proj1 (ListBlobs_exact (mkFs ∅ ∅))). vm_compute. reflexivity.
Defined.

Definition zeros64 : string :=
  "0000000000000000000000000000000000000000000000000000000000000000".

(** blobs/ab/<64 zeros>: a 64-character lowercase hex file under a
    2-character directory, in a directory whose name it does not start with. *)
Definition fs_misplaced : fs :=
  mkFs (<[["blobs"; "ab"; zeros64] := NFile []]>
         (<[["blobs"; "ab"] := NDir]> (<[["blobs"] := NDir]> ∅))) ∅.

(** C6 (as stated, refuted): that file is skipped by the HasPrefix check. *)
Lemma ListBlobs_misplaced_counterexample :
  nodes fs_misplaced !! ["blobs"; "ab"] = Some NDir /\
  nodes fs_misplaced !! ["blobs"; "ab"; zeros64] = Some (NFile []) /\
  String.length zeros64 = 64%nat /\ isHexHash zeros64 = true /\
  ListBlobs fs_misplaced = SOk [].
Proof. vm_compute. repeat split. Qed.

End ListBlobsClaims.

(** ** Listing and searching packages *)
Module SearchFacts.
Import Storage Meta.

Definition name_le (p q : package) : Prop := String.leb (pkg_name p) (pkg_name q) = true.

Lemma insert_by_name_perm (p : package) (l : list package) :
  Permutation (insert_by_name p l) (p :: l).
Proof.
  induction l as [|q l IH]; simpl; [reflexivity|].
  destruct (String.leb (pkg_name p) (pkg_name q)); [reflexivity|].
  rewrite IH. apply perm_swap.
Qed.

Lemma sort_by_name_perm (l : list package) : Permutation (sort_by_name l) l.
Proof.
  induction l as [|p l IH]; simpl; [reflexivity|].
  rewrite insert_by_name_perm, IH. reflexivity.
Qed.

Lemma leb_flip (a b : string) : String.leb a b = false -> String.leb b a = true.
Proof. intros H. destruct (String.leb_total a b); congruence. Qed.

Lemma insert_by_name_sorted (p : package) (l : list package) :
  Sorted name_le l -> Sorted name_le (insert_by_name p l).
Proof.
  induction l as [|q l IH]; simpl; intros Hs.
  { repeat constructor. }
  destruct (String.leb (pkg_name p) (pkg_name q)) eqn:E.
  - constructor; [exact Hs|]. constructor. exact E.
  - apply Sorted_inv in Hs as [Hs Hhd]. constructor; [exact (IH Hs)|].
    destruct l as [|r l]; simpl.
    + constructor. apply leb_flip. exact E.
    + destruct (String.leb (pkg_name p) (pkg_name r)); constructor.
      * apply leb_flip. exact E.
      * inversion Hhd; assumption.
Qed.

Lemma sort_by_name_sorted (l : list package) : Sorted name_le (sort_by_name l).
Proof. induction l as [|p l IH]; simpl; [constructor|]. apply insert_by_name_sorted, IH. Qed.

(** Equality under SQLite's ASCII case folding, character by character. *)
Fixpoint ci_eq (a b : string) : bool :=
  match a, b with
  | EmptyString, EmptyString => true
  | String c a', String d b' => Nat.eqb (fold_case c) (fold_case d) && ci_eq a' b'
  | _, _ => false
  end.

Definition contains_ci (needle hay : string) : Prop :=
  exists pre mid post, hay = String.append pre (String.append mid post) /\ ci_eq needle mid = true.

Fixpoint no_wildcards (q : string) : bool :=
  match q with
  | EmptyString => true
  | String c q' => negb (Ascii.eqb c "%"%char) && negb (Ascii.eqb c "_"%char) && no_wildcards q'
  end.

Lemma like_empty (s : string) : like "" s = true <-> s = "".
Proof. destruct s; simpl; split; congruence. Qed.

Lemma like_percent (p s : string) :
  like (String "%" p) s = true <-> exists pre suf, s = String.append pre suf /\ like p suf = true.
Proof.
  change (like (String "%" p) s) with
    ((fix any (t : string) : bool :=
        like p t || match t with EmptyString => false | String _ t' => any t' end) s).
  induction s as [|ch s IH].
  - rewrite orb_false_r. split.
    + intros H. exists "", "". auto.
    + intros (pre & suf & Heq & H). destruct pre, suf; try discriminate. exact H.
  - rewrite orb_true_iff, IH. split.
    + intros [H | (pre & suf & -> & H)].
      * exists "", (String ch s). auto.
      * exists (String ch pre), suf. auto.
    + intros ([|c pre] & suf & Heq & H); simpl in Heq.
      * left. simpl in Heq. rewrite Heq. exact H.
      * right. injection Heq as -> ->. exists pre, suf. auto.
Qed.

Lemma like_literal (q t : string) :
  no_wildcards q = true ->
  like (String.append q "%") t = true <->
  exists mid post, t = String.append mid post /\ ci_eq q mid = true.
Proof.
  revert t. induction q as [|c q IH]; intros t Hq.
  - change (String.append "" "%") with (String "%" ""). rewrite like_percent. split.
    + intros _. exists "", t. auto.
    + intros _. exists t, "". split; [|reflexivity].
      induction t as [|ch t IHt]; [reflexivity|]. exact (f_equal (String ch) IHt).
  - simpl in Hq. apply andb_true_iff in Hq as [Hc Hq]. apply andb_true_iff in Hc as [Hp Hu].
    apply negb_true_iff in Hp, Hu. simpl. rewrite Hp, Hu.
    destruct t as [|d t].
    + split; [discriminate|]. intros ([|? ?] & ? & H & E); discriminate.
    + rewrite orb_false_l, andb_true_iff, IH by exact Hq. split.
      * intros [Hcd (mid & post & -> & Hm)]. exists (String d mid), post. simpl.
        rewrite Hcd, Hm. auto.
      * intros ([|d' mid] & post & Heq & Hm); [discriminate|].
        simpl in Heq, Hm. injection Heq as -> ->. apply andb_true_iff in Hm as [Hcd Hm].
        split; [exact Hcd|]. exists mid, post. auto.
Qed.

Lemma like_substring (q name : string) :
  no_wildcards q = true ->
  like (String.append "%" (String.append q "%")) name = true <-> contains_ci q name.
Proof.
  intros Hq. change (String.append "%" (String.append q "%")) with (String "%" (String.append q "%")). rewrite like_percent. split.
  - intros (pre & suf & -> & H). apply like_literal in H as (mid & post & -> & Hm); [|exact Hq].
    exists pre, mid, post. auto.
  - intros (pre & mid & post & -> & Hm). exists pre, (String.append mid post). split; [reflexivity|].
    apply like_literal; [exact Hq|]. exists mid, post. auto.
Qed.

Lemma in_sort_by_name (p : package) (l : list package) : In p (sort_by_name l) <-> In p l.
Proof. split; apply Permutation_in; [|symmetry]; apply sort_by_name_perm. Qed.

(** A catalog with the single package "my-app". *)
Definition db_my_app : db := mkDb [mkPackage 1 "my-app"] [] 1 0.

End SearchFacts.

Module SearchClaims.
Import Storage Meta SearchFacts.

(** C5 (counterexample): searching "MY" returns the package "my-app",
    although "MY" is not a case-sensitive substring of "my-app": SQLite's
    LIKE folds ASCII case. *)
Lemma search_case_insensitive_counterexample :
  In (mkPackage 1 "my-app") (SearchPackages "MY" db_my_app) /\ ~ contains "MY" "my-app".
Proof.
  split; [vm_compute; left; reflexivity|].
  intros (pre & post & H). revert H.
  do 7 (destruct pre as [|? pre];
        [discriminate | intros H; rewrite string_append_cons in H;
                         first [discriminate H | injection H as _ H; revert H]]).
Qed.

(** C5 (amended): ListPackages returns a permutation of the catalog sorted
    by name ascending; for a query q with no LIKE wildcard ('%' or '_'),
    SearchPackages q returns, sorted by name, exactly the packages whose name
    contains q under ASCII case folding, all of them also in ListPackages. *)
Theorem list_search_packages (d : db) (q : string) :
  Sorted name_le (ListPackages d) /\ Permutation (ListPackages d) (packages d) /\
  (no_wildcards q = true ->
   Sorted name_le (SearchPackages q d) /\
   (forall p, In p (SearchPackages q d) <-> In p (packages d) /\ contains_ci q (pkg_name p)) /\
   incl (SearchPackages q d) (ListPackages d)).
Proof.
  split; [apply sort_by_name_sorted|]. split; [apply sort_by_name_perm|].
  intros Hq. split; [apply sort_by_name_sorted|].
  assert (Hin : forall p, In p (SearchPackages q d) <->
                          In p (packages d) /\ contains_ci q (pkg_name p)).
  { intros p. unfold SearchPackages. rewrite in_sort_by_name, filter_In, like_substring by exact Hq.
    reflexivity. }
  split; [exact Hin|].
  intros p Hp. unfold ListPackages. apply in_sort_by_name. apply Hin in Hp. tauto.
Qed.

(** A witness of C5 on the catalog "my-app" and the query "app". *)
Lemma list_search_packages_witness :
  no_wildcards "app" = true /\
  In (mkPackage 1 "my-app") (SearchPackages "app" db_my_app).
Proof.
  split; [reflexivity|].
  destruct (list_search_packages db_my_app "app") as (_ & _ & Hs).
  destruct (Hs eq_refl) as (_ & Hin & _).
  apply Hin. split; [left; reflexivity|].
  exists "my-", "app", "". split; reflexivity.
Defined.

End SearchClaims.

(** ** Lengths and alphabet of the hex digest *)
Module DigestFacts.
Import Sha256 Storage.

Lemma round_length (st : list Z) (kw : Z * Z) : length (round st kw) = length st.
Proof.
  unfold round. do 8 (destruct st as [|? st]; [reflexivity|]).
  destruct st; reflexivity.
Qed.

Lemma fold_round_length (kws : list (Z * Z)) (st : list Z) :
  length (fold_left round kws st) = length st.
Proof.
  revert st. induction kws as [|kw kws IH]; intros st; simpl; [reflexivity|].
  rewrite IH. apply round_length.
Qed.

Lemma compress_length (hv block : list Z) : length (compress hv block) = length hv.
Proof. unfold compress. rewrite length_zip_with, fold_round_length. lia. Qed.

Lemma fold_compress_length (bl : list (list Z)) (hv : list Z) :
  length (fold_left compress bl hv) = length hv.
Proof.
  revert hv. induction bl as [|b bl IH]; intros hv; simpl; [reflexivity|].
  rewrite IH. apply compress_length.
Qed.

Lemma be_bytes_length (n : nat) (x : Z) : length (be_bytes n x) = n.
Proof.
  revert x. induction n as [|n IH]; intros x; simpl; [reflexivity|].
  rewrite length_app, IH. simpl. lia.
Qed.

Lemma be_bytes_range (n : nat) (x b : Z) : In b (be_bytes n x) -> 0 <= b < 256.
Proof.
  revert x. induction n as [|n IH]; intros x; simpl; [tauto|].
  rewrite in_app_iff. intros [H | [<- | []]]; [exact (IH _ H)|].
  change 255 with (Z.ones 8). rewrite Z.land_ones by lia. apply Z.mod_pos_bound. lia.
Qed.

Lemma sha256_length (msg : list Z) : length (sha256 msg) = 32%nat.
Proof.
  unfold sha256.
  assert (Hl : forall l : list Z, length (flat_map (be_bytes 4) l) = (4 * length l)%nat).
  { induction l as [|x l IH]; cbn [flat_map]; [reflexivity|]. rewrite length_app, be_bytes_length, IH. cbn [length]. lia. }
  rewrite Hl, fold_compress_length. reflexivity.
Qed.

Lemma sha256_range (msg : list Z) (b : Z) : In b (sha256 msg) -> 0 <= b < 256.
Proof.
  unfold sha256. rewrite in_flat_map. intros [x [_ H]]. exact (be_bytes_range _ _ _ H).
Qed.

Lemma hex_encode_length (bs : list Z) : String.length (hex_encode bs) = (2 * length bs)%nat.
Proof. induction bs as [|b bs IH]; simpl; [reflexivity|]. rewrite IH. lia. Qed.

(** One character accepted by [all_hex]. *)
Definition hexc (ch : ascii) : bool :=
  let n := nat_of_ascii ch in (((48 <=? n) && (n <=? 57)) || ((97 <=? n) && (n <=? 102)))%nat.

Lemma hex_digit_ok (n : Z) : 0 <= n < 16 -> hexc (hex_digit n) = true.
Proof.
  intros H. replace n with (Z.of_nat (Z.to_nat n)) by lia.
  assert (Hk : (Z.to_nat n < 16)%nat) by lia. revert Hk. generalize (Z.to_nat n) as k.
  intros k Hk. do 16 (destruct k as [|k]; [reflexivity|]). lia.
Qed.

Lemma hex_encode_all_hex (bs : list Z) :
  (forall b, In b bs -> 0 <= b < 256) -> all_hex (hex_encode bs) = true.
Proof.
  induction bs as [|b bs IH]; intros Hr; simpl; [reflexivity|].
  assert (Hb : 0 <= b < 256) by (apply Hr; left; reflexivity).
  change (hexc (hex_digit (Z.shiftr b 4)) && (hexc (hex_digit (Z.land b 15)) &&
          all_hex (hex_encode bs)) = true).
  rewrite !hex_digit_ok, IH; [reflexivity| intros x Hx; apply Hr; right; exact Hx | |].
  - change 15 with (Z.ones 4). rewrite Z.land_ones by lia. apply Z.mod_pos_bound. lia.
  - rewrite Z.shiftr_div_pow2 by lia. change (2 ^ 4) with 16.
    split; [apply Z.div_pos; lia | apply Z.div_lt_upper_bound; lia].
Qed.

Lemma digest_length (c : bytes) : String.length (digest c) = 64%nat.
Proof. unfold digest. rewrite hex_encode_length, sha256_length. reflexivity. Qed.

Lemma digest_hex (c : bytes) : isHexHash (digest c) = true.
Proof.
  unfold isHexHash. rewrite digest_length. simpl.
  apply hex_encode_all_hex. apply sha256_range.
Qed.

Lemma prefix_substring (n : nat) (v : string) : String.prefix (String.substring 0 n v) v = true.
Proof.
  revert v. induction n as [|n IH]; intros v; destruct v as [|ch v]; simpl; try reflexivity.
  destruct (Ascii.ascii_dec ch ch) as [_|E]; [apply IH | congruence].
Qed.

Lemma BlobDir_prefix (h : string) : String.prefix (BlobDir h) h = true.
Proof.
  unfold BlobDir. destruct (String.length h <? 2)%nat; [|apply prefix_substring].
  induction h as [|ch h IH]; simpl; [reflexivity|].
  destruct (Ascii.ascii_dec ch ch) as [_|E]; [exact IH | congruence].
Qed.

End DigestFacts.

(** ** Disk operations: what they change *)
Module DiskFacts.
Import Disk.

Lemma bind_ok {A B} (m : M A) (k : A -> M B) (s s'' : fs) (b : B) :
  bind m k s = (Ok b, s'') -> exists a s', m s = (Ok a, s') /\ k a s' = (Ok b, s'').
Proof. unfold bind. destruct (m s) as [[a|e] s']; [eauto|discriminate]. Qed.

Lemma bind_eq {A B} (m : M A) (k : A -> M B) (s s' : fs) (a : A) :
  m s = (Ok a, s') -> bind m k s = k a s'.
Proof. unfold bind. intros ->. reflexivity. Qed.

Ltac lk := repeat first [ rewrite lookup_insert_eq | rewrite lookup_delete_eq
                        | rewrite lookup_insert_ne by congruence
                        | rewrite lookup_delete_ne by congruence ].

Lemma mkdir1_ok (a : string) (s s' : fs) (u : unit) :
  mkdir_all [a] s = (Ok u, s') ->
  nodes s' !! [a] = Some NDir /\ (forall q, q <> [a] -> nodes s' !! q = nodes s !! q) /\
  undeletable s' = undeletable s.
Proof.
  unfold mkdir_all. cbn [mkdir_all_from app].
  destruct (nodes s !! [a]) as [[c|]|] eqn:Ea; intros H; try discriminate;
    injection H as _ <-; cbn [nodes undeletable]; repeat split; intros; lk; auto.
Qed.

Lemma mkdir2_ok (a b : string) (s s' : fs) (u : unit) :
  mkdir_all [a; b] s = (Ok u, s') ->
  nodes s' !! [a] = Some NDir /\ nodes s' !! [a; b] = Some NDir /\
  (forall q, q <> [a] -> q <> [a; b] -> nodes s' !! q = nodes s !! q) /\
  undeletable s' = undeletable s.
Proof.
  unfold mkdir_all. cbn [mkdir_all_from app].
  destruct (nodes s !! [a]) as [[c|]|] eqn:Ea; [discriminate| |].
  - destruct (nodes s !! [a; b]) as [[c|]|] eqn:Eb; intros H; try discriminate;
      injection H as _ <-; cbn [nodes undeletable]; repeat split; intros; lk; auto.
  - rewrite lookup_insert_ne by congruence.
    destruct (nodes s !! [a; b]) as [[c|]|] eqn:Eb; intros H; try discriminate;
      injection H as _ <-; cbn [nodes undeletable]; repeat split; intros; lk; auto.
Qed.

Lemma mkdir1_noop (a : string) (s : fs) :
  nodes s !! [a] = Some NDir -> mkdir_all [a] s = (Ok tt, s).
Proof. intros Ea. unfold mkdir_all. cbn [mkdir_all_from app]. rewrite Ea. destruct s; reflexivity. Qed.

Lemma mkdir2_noop (a b : string) (s : fs) :
  nodes s !! [a] = Some NDir -> nodes s !! [a; b] = Some NDir -> mkdir_all [a; b] s = (Ok tt, s).
Proof.
  intros Ea Eb. unfold mkdir_all. cbn [mkdir_all_from app]. rewrite Ea, Eb. destruct s; reflexivity.
Qed.

Lemma remove_frame (p q : path) (s : fs) :
  q <> p -> nodes (remove p s).2 !! q = nodes s !! q /\ undeletable (remove p s).2 = undeletable s.
Proof.
  intros Hq. unfold remove.
  destruct (resolve (nodes s) p) as [n|e]; cbn [fst snd]; [|auto].
  destruct (bool_decide (p ∈ undeletable s)); cbn [fst snd]; [auto|].
  destruct n as [c|]; [|destruct (has_children (nodes s) p)];
    cbn [fst snd nodes undeletable]; lk; auto.
Qed.

Lemma ignore_remove (p : path) (s : fs) : ignore (remove p) s = (Ok tt, (remove p s).2).
Proof. reflexivity. Qed.

Lemma temp_name_inj (i j : nat) : temp_name i = temp_name j -> i = j.
Proof.
  unfold temp_name. intros H. rewrite !string_append_cons in H.
  injection H as H. apply (inj pretty). exact H.
Qed.

Lemma fresh_from_some (m : gmap path node) (dir : path) (i fuel : nat) (p : path) :
  fresh_from m dir i fuel = Some p -> m !! p = None /\ exists j, p = dir ++ [temp_name j].
Proof.
  revert i. induction fuel as [|f IH]; intros i; simpl; [discriminate|].
  destruct (m !! (dir ++ [temp_name i])) eqn:E.
  - apply IH.
  - intros H. injection H as <-. eauto.
Qed.

Lemma fresh_from_none (m : gmap path node) (dir : path) (i fuel : nat) :
  fresh_from m dir i fuel = None ->
  forall j, (i <= j < i + fuel)%nat -> is_Some (m !! (dir ++ [temp_name j])).
Proof.
  revert i. induction fuel as [|f IH]; intros i; simpl; [intros; lia|].
  destruct (m !! (dir ++ [temp_name i])) eqn:E; [|discriminate].
  intros H j Hj. destruct (decide (j = i)) as [->|Hne]; [rewrite E; eauto|].
  apply (IH (S i) H). lia.
Qed.

Lemma fresh_from_exists (m : gmap path node) (dir : path) :
  exists p, fresh_from m dir 0 (S (size m)) = Some p.
Proof.
  destruct (fresh_from m dir 0 (S (size m))) as [p|] eqn:E; [eauto|exfalso].
  pose proof (fresh_from_none _ _ _ _ E) as Hall.
  set (f := fun j => dir ++ [temp_name j]).
  assert (Hinj : Inj eq eq f).
  { intros i j H. unfold f in H. apply app_inv_head in H.
    apply temp_name_inj. congruence. }
  set (l := f <$> seq 0 (S (size m))).
  assert (Hnd : NoDup l) by (unfold l; apply (@NoDup_fmap_2 _ _ f Hinj); apply NoDup_seq).
  assert (Hsub : (list_to_set l : gset path) ⊆ dom m).
  { intros k Hk. apply elem_of_list_to_set in Hk. apply list_elem_of_fmap in Hk as [j [-> Hj]].
    apply elem_of_seq in Hj. apply elem_of_dom. apply Hall. lia. }
  apply subseteq_size in Hsub. rewrite size_list_to_set in Hsub by exact Hnd.
  rewrite size_dom in Hsub. unfold l in Hsub. rewrite length_fmap, length_seq in Hsub. lia.
Qed.

Lemma create_temp_ok (dir : path) (s s' : fs) (p : path) :
  create_temp dir s = (Ok p, s') ->
  nodes s !! p = None /\ (exists name, p = dir ++ [name]) /\
  nodes s' = <[p := NFile []]> (nodes s) /\ undeletable s' = undeletable s.
Proof.
  unfold create_temp. destruct (resolve (nodes s) dir) as [[c|]|e]; try discriminate.
  destruct (fresh_from (nodes s) dir 0 (S (size (nodes s)))) as [p'|] eqn:E; [|discriminate].
  intros H. injection H as <- <-. apply fresh_from_some in E as [Hn [j ->]].
  cbn [nodes undeletable]. eauto 6.
Qed.

Lemma create_temp_exists (dir : path) (s : fs) :
  resolve (nodes s) dir = Ok NDir ->
  exists p, create_temp dir s = (Ok p, mkFs (<[p := NFile []]> (nodes s)) (undeletable s)) /\
            nodes s !! p = None /\ exists name, p = dir ++ [name].
Proof.
  intros Hd. destruct (fresh_from_exists (nodes s) dir) as [p Hp].
  exists p. unfold create_temp. rewrite Hd, Hp. split; [reflexivity|].
  apply fresh_from_some in Hp as [Hn [j ->]]. eauto.
Qed.

End DiskFacts.

(** ** DiskBlobStorage.Store, step by step *)
Module StoreFacts.
Import Disk Storage DiskFacts DigestFacts BlobFacts.

(** The blob of [c] is in place: tmp/, blobs/ and blobs/<xx>/ are
    directories and blobs/<xx>/<hash> holds [c]. *)
Definition stored (s : fs) (h : string) (c : bytes) : Prop :=
  nodes s !! ["tmp"] = Some NDir /\ nodes s !! ["blobs"] = Some NDir /\
  nodes s !! ["blobs"; BlobDir h] = Some NDir /\ nodes s !! BlobPath h = Some (NFile c).

Lemma cleanup_ok {A} (p : path) (m : M A) (s s' : fs) (a : A) :
  cleanup_on_err p m s = (Ok a, s') -> m s = (Ok a, s').
Proof. unfold cleanup_on_err. destruct (m s) as [[x|e] s'']; congruence. Qed.

Lemma resolve_blob (m : gmap path node) (x h : string) :
  m !! ["blobs"] = Some NDir -> m !! ["blobs"; x] = Some NDir ->
  resolve m ["blobs"; x; h] = match m !! ["blobs"; x; h] with Some n => Ok n | None => Err ENOENT end.
Proof. intros E1 E2. unfold resolve. cbn [walk app]. rewrite E1, E2. reflexivity. Qed.

Lemma resolve_tmp (m : gmap path node) (name : string) :
  m !! ["tmp"] = Some NDir ->
  resolve m ["tmp"; name] = match m !! ["tmp"; name] with Some n => Ok n | None => Err ENOENT end.
Proof. intros E1. unfold resolve. cbn [walk app]. rewrite E1. reflexivity. Qed.

Lemma rename_ok (src dst : path) (s : fs) (c : bytes) :
  resolve (nodes s) src = Ok (NFile c) -> walk (nodes s) [] dst = None -> nodes s !! dst = None ->
  rename src dst s = (Ok tt, mkFs (<[dst := NFile c]> (delete src (nodes s))) (undeletable s)).
Proof. intros E1 E2 E3. unfold rename. rewrite E1, E2, E3. reflexivity. Qed.

Lemma digest_len2 (c : bytes) : (2 <= String.length (digest c))%nat.
Proof. rewrite digest_length. lia. Qed.

Lemma join_dir (h : string) :
  (2 <= String.length h)%nat -> join ["blobs"; BlobDir h] = ["blobs"; BlobDir h].
Proof.
  intros H. unfold join. cbn [List.filter].
  rewrite (nonempty_eqb (BlobDir h)) by (rewrite BlobDir_length; lia). reflexivity.
Qed.

Lemma join_one (h : string) : (1 <= String.length h)%nat -> join [h] = [h].
Proof. intros H. unfold join. cbn [List.filter]. rewrite nonempty_eqb by exact H. reflexivity. Qed.

Lemma Store_first (c : bytes) (s0 s1 : fs) (h : string) (n : Z) :
  (nodes s0 !! BlobPath (digest c) = None \/ nodes s0 !! BlobPath (digest c) = Some (NFile c)) ->
  Store c s0 = (Ok (h, n), s1) ->
  h = digest c /\ n = Z.of_nat (length c) /\ stored s1 h c /\ undeletable s1 = undeletable s0.
Proof.
  intros Hc H. unfold Store in H. cbv zeta in H.
  pose proof (digest_len2 c) as Hlen.
  apply bind_ok in H as (u1 & sA & H1 & H).
  change (join ["tmp"]) with ["tmp"] in H1, H.
  apply mkdir1_ok in H1 as (HA1 & HA2 & HA3).
  apply bind_ok in H as (p & sB & H2 & H).
  apply create_temp_ok in H2 as (Hp & [name ->] & HB1 & HB2).
  apply cleanup_ok in H.
  apply bind_ok in H as (u2 & sC & H3 & H).
  unfold write_all in H3. injection H3 as _ <-.
  apply bind_ok in H as (u3 & sD & H4 & H).
  rewrite join_dir in H4, H by exact Hlen.
  apply mkdir2_ok in H4 as (HD1 & HD2 & HD3 & HD4).
  rewrite join_one in H by lia.
  cbn [app] in H, Hp, HB1. rewrite <- (BlobPath_eq _ Hlen) in H.
  cbn [nodes undeletable] in HD3, HD4.
  set (hc := digest c) in *. set (x := BlobDir hc) in *.
  pose proof (BlobPath_eq hc Hlen) as HP. fold x in HP. rewrite HP in *.
  assert (Htmp : nodes sD !! ["tmp"] = Some NDir).
  { rewrite HD3 by congruence. lk. rewrite HB1. lk. exact HA1. }
  assert (Hfile : nodes sD !! ["tmp"; name] = Some (NFile c)).
  { rewrite HD3 by congruence. lk. reflexivity. }
  assert (Hframe : nodes sD !! ["blobs"; x; hc] = nodes s0 !! ["blobs"; x; hc]).
  { rewrite HD3 by congruence. lk. rewrite HB1. lk. apply HA2. congruence. }
  assert (Hund : undeletable sD = undeletable s0) by congruence.
  rewrite resolve_blob in H by assumption. rewrite Hframe in H.
  destruct Hc as [Hc|Hc]; rewrite Hc in H.
  - rewrite (rename_ok _ _ _ c) in H.
    + injection H as <- <- <-. split; [reflexivity|]. split; [reflexivity|].
      unfold stored. cbn [nodes undeletable]. fold x. rewrite HP.
      repeat split; lk; first [assumption | reflexivity].
    + rewrite resolve_tmp by exact Htmp. rewrite Hfile. reflexivity.
    + cbn [walk app]. rewrite HD1, HD2. reflexivity.
    + rewrite Hframe. exact Hc.
  - cbv [bind ignore ret] in H. injection H as <- <- <-.
    split; [reflexivity|]. split; [reflexivity|].
    unfold stored. fold x. rewrite HP.
    assert (Hr : forall q, q <> ["tmp"; name] -> nodes (remove ["tmp"; name] sD).2 !! q = nodes sD !! q)
      by (intros q Hq; exact (proj1 (remove_frame _ _ _ Hq))).
    rewrite !Hr by congruence.
    rewrite (proj2 (remove_frame ["tmp"; name] ["tmp"] sD ltac:(congruence))).
    repeat split; try assumption. rewrite Hframe. exact Hc.
Qed.

Lemma resolve_top (m : gmap path node) (a : string) :
  resolve m [a] = match m !! [a] with Some n => Ok n | None => Err ENOENT end.
Proof. reflexivity. Qed.

Lemma Store_again (c : bytes) (s1 : fs) :
  stored s1 (digest c) c ->
  exists s2, Store c s1 = (Ok (digest c, Z.of_nat (length c)), s2) /\
             stored s2 (digest c) c /\ undeletable s2 = undeletable s1.
Proof.
  intros (H1 & H2 & H3 & H4). pose proof (digest_len2 c) as Hlen.
  set (hc := digest c) in *. set (x := BlobDir hc) in *.
  pose proof (BlobPath_eq hc Hlen) as HP. fold x in HP. rewrite HP in H4.
  destruct (create_temp_exists ["tmp"] s1) as (p & Hct & Hpn & [name ->]).
  { rewrite resolve_top, H1. reflexivity. }
  cbn [app] in Hct, Hpn.
  set (sC := mkFs (<[["tmp"; name] := NFile c]> (<[["tmp"; name] := NFile []]> (nodes s1)))
                  (undeletable s1)).
  assert (HC : forall q, q <> ["tmp"; name] -> nodes sC !! q = nodes s1 !! q)
    by (intros q Hq; unfold sC; cbn [nodes]; lk; reflexivity).
  assert (Hr : forall q, q <> ["tmp"; name] -> nodes (remove ["tmp"; name] sC).2 !! q = nodes sC !! q)
    by (intros q Hq; exact (proj1 (remove_frame _ _ _ Hq))).
  exists (remove ["tmp"; name] sC).2.
  unfold Store. cbv zeta. fold hc.
  change (join ["tmp"]) with ["tmp"].
  rewrite (bind_eq _ _ _ _ _ (mkdir1_noop "tmp" s1 H1)).
  rewrite (bind_eq _ _ _ _ _ Hct).
  unfold cleanup_on_err.
  rewrite (bind_eq (write_all ["tmp"; name] c) _
             (mkFs (<[["tmp"; name] := NFile []]> (nodes s1)) (undeletable s1)) sC tt eq_refl).
  rewrite join_dir, join_one by lia. fold x.
  rewrite (bind_eq _ _ _ _ _ (mkdir2_noop "blobs" x sC
             ltac:(rewrite HC by congruence; exact H2) ltac:(rewrite HC by congruence; exact H3))).
  cbv beta. cbn [app].
  rewrite resolve_blob by (rewrite HC by congruence; assumption).
  rewrite HC, H4 by congruence.
  cbv [bind ignore ret]. split; [reflexivity|].
  split; [|rewrite (proj2 (remove_frame ["tmp"; name] ["tmp"] sC ltac:(congruence))); reflexivity].
  unfold stored. fold x. rewrite HP, !Hr, !HC by congruence. auto.
Qed.

End StoreFacts.

(** ** The sweep of GarbageCollect *)
Module GCFacts.
Import Disk Storage Meta Handlers DiskFacts DigestFacts BlobFacts ListFacts StoreFacts.

Lemma Delete_state (h : string) (s : fs) : (Delete h s).2 = (remove (BlobPath h) s).2.
Proof. unfold Delete. destruct (remove (BlobPath h) s) as [[u|[]] s']; reflexivity. Qed.

Lemma gc_loop_log (R : gset string) (hs : list string) (d f : Z) (s : fs) (log : list log_entry) :
  map log_hash (gc_loop R hs d f s log).2 =
  map log_hash log ++ List.filter (fun h => negb (bool_decide (h ∈ R))) hs.
Proof.
  revert d f s log. induction hs as [|h hs IH]; intros d f s log; cbn [gc_loop List.filter].
  { rewrite app_nil_r. reflexivity. }
  destruct (bool_decide (h ∈ R)); cbn [negb]; [apply IH|].
  cbv zeta. destruct (Delete h s) as [[u|e] s'];
    rewrite IH, map_app, <- app_assoc; reflexivity.
Qed.

Lemma gc_loop_frame (R : gset string) (hs : list string) (d f : Z) (s : fs) (log : list log_entry)
    (q : path) :
  (forall h', In h' hs -> h' ∉ R -> q <> BlobPath h') ->
  nodes (gc_loop R hs d f s log).1.2 !! q = nodes s !! q /\
  undeletable (gc_loop R hs d f s log).1.2 = undeletable s.
Proof.
  revert d f s log. induction hs as [|h hs IH]; intros d f s log Hq; cbn [gc_loop]; [auto|].
  assert (Hq' : forall h', In h' hs -> h' ∉ R -> q <> BlobPath h')
    by (intros; apply Hq; [right|]; assumption).
  destruct (bool_decide (h ∈ R)) eqn:E; [apply IH; exact Hq'|].
  apply bool_decide_eq_false in E.
  assert (Hd := Delete_state h s).
  assert (Hf := remove_frame (BlobPath h) q s (Hq h (or_introl eq_refl) E)).
  cbv zeta. destruct (Delete h s) as [[u|e] s'] eqn:ED; cbn [snd] in Hd; subst s';
    (split; [erewrite (proj1 (IH _ _ _ _ Hq')) | erewrite (proj2 (IH _ _ _ _ Hq'))]; apply Hf).
Qed.

Lemma stat_size_nonneg (n : node) : 0 <= stat_size n.
Proof. destruct n; unfold stat_size, dir_size; lia. Qed.

Lemma gc_loop_freed_mono (R : gset string) (hs : list string) (d f : Z) (s : fs) (log : list log_entry) :
  f <= (gc_loop R hs d f s log).1.1.2.
Proof.
  revert d f s log. induction hs as [|h hs IH]; intros d f s log; cbn [gc_loop]; [simpl; lia|].
  destruct (bool_decide (h ∈ R)); [apply IH|]. cbv zeta.
  set (f' := match resolve (nodes s) (BlobPath h) with Ok n => f + stat_size n | Err _ => f end).
  assert (f <= f') by (unfold f'; destruct (resolve (nodes s) (BlobPath h)); [pose proof (stat_size_nonneg a)|]; lia).
  destruct (Delete h s) as [[u|e] s']; etransitivity; [|apply IH| |apply IH]; assumption.
Qed.

Lemma BlobPath_inj (h h' : string) :
  (2 <= String.length h)%nat -> (2 <= String.length h')%nat -> BlobPath h = BlobPath h' -> h = h'.
Proof. intros H H'. rewrite !BlobPath_eq by assumption. congruence. Qed.

Lemma gc_loop_collects (R : gset string) (hs : list string) (d f : Z) (s : fs) (log : list log_entry)
    (h : string) (c : bytes) :
  NoDup hs -> In h hs -> h ∉ R -> (forall h', In h' hs -> (2 <= String.length h')%nat) ->
  nodes s !! ["blobs"] = Some NDir -> nodes s !! ["blobs"; BlobDir h] = Some NDir ->
  nodes s !! BlobPath h = Some (NFile c) -> BlobPath h ∉ undeletable s ->
  nodes (gc_loop R hs d f s log).1.2 !! BlobPath h = None /\
  f + Z.of_nat (length c) <= (gc_loop R hs d f s log).1.1.2.
Proof.
  revert d f s log. induction hs as [|h0 hs IH]; intros d f s log Hnd Hin HR Hlen H1 H2 H3 Hu;
    [destruct Hin|].
  inversion Hnd as [|? ? Hnin Hnd']; subst.
  assert (Hl : (2 <= String.length h)%nat) by (apply Hlen; exact Hin).
  assert (Hlen' : forall h', In h' hs -> (2 <= String.length h')%nat) by (intros; apply Hlen; right; assumption).
  pose proof (BlobPath_eq h Hl) as HP.
  cbn [gc_loop].
  destruct (decide (h0 = h)) as [->|Hne].
  - rewrite (bool_decide_eq_false_2 _ HR). cbv zeta.
    assert (Hres : resolve (nodes s) (BlobPath h) = Ok (NFile c))
      by (rewrite HP, resolve_blob by assumption; rewrite <- HP, H3; reflexivity).
    rewrite Hres. cbn [stat_size].
    assert (HD : Delete h s = (Ok tt, mkFs (delete (BlobPath h) (nodes s)) (undeletable s))).
    { unfold Delete, remove. rewrite Hres, (bool_decide_eq_false_2 _ Hu). reflexivity. }
    rewrite HD.
    assert (Hother : forall h', In h' hs -> h' ∉ R -> BlobPath h <> BlobPath h').
    { intros h' Hh' _ Heq. apply BlobPath_inj in Heq; [|exact Hl|apply Hlen'; exact Hh'].
      subst h'. apply Hnin. apply list_elem_of_In. exact Hh'. }
    destruct (gc_loop_frame R hs (d + 1) (f + Z.of_nat (length c))
                (mkFs (delete (BlobPath h) (nodes s)) (undeletable s))
                (log ++ [LogCollected h]) (BlobPath h) Hother) as [Hf _].
    split; [rewrite Hf; cbn [nodes]; apply lookup_delete_eq|apply gc_loop_freed_mono].
  - destruct Hin as [Heq|Hin]; [congruence|].
    destruct (bool_decide (h0 ∈ R)); [apply IH; assumption|]. cbv zeta.
    set (f' := match resolve (nodes s) (BlobPath h0) with Ok n => f + stat_size n | Err _ => f end).
    assert (Hff : f <= f') by (unfold f'; destruct (resolve (nodes s) (BlobPath h0));
                                [pose proof (stat_size_nonneg a)|]; lia).
    assert (Hl0 : (2 <= String.length h0)%nat) by (apply Hlen; left; reflexivity).
    assert (Hd := Delete_state h0 s).
    assert (Hfr : forall q, q <> BlobPath h0 -> nodes (Delete h0 s).2 !! q = nodes s !! q /\
                                            undeletable (Delete h0 s).2 = undeletable s)
      by (intros q Hq; rewrite Hd; apply remove_frame; exact Hq).
    rewrite (BlobPath_eq h0 Hl0) in Hfr.
    destruct (Hfr ["blobs"] ltac:(congruence)) as [E1 Eu].
    destruct (Hfr ["blobs"; BlobDir h] ltac:(congruence)) as [E2 _].
    destruct (Hfr (BlobPath h) ltac:(rewrite HP; congruence)) as [E3 _].
    destruct (Delete h0 s) as [[u|e] s'] eqn:ED; cbn [snd] in E1, E2, E3, Eu;
      (match goal with |- context [gc_loop R hs ?D f' s' ?L] =>
         destruct (IH D f' s' L) as [IH1 IH2]; [exact Hnd'|exact Hin|exact HR|exact Hlen'
           |rewrite E1; exact H1|rewrite E2; exact H2|rewrite E3; exact H3|rewrite Eu; exact Hu|]
       end;
       split; [exact IH1|lia]).
Qed.

End GCFacts.

(** ** Helpers for the storage and garbage-collection claims *)
Module FlowFacts.
Import Disk Storage Meta Handlers DiskFacts DigestFacts BlobFacts ListFacts StoreFacts GCFacts.

Lemma filter_eqb_absent (h : string) (L : list string) :
  ~ In h L -> List.filter (String.eqb h) L = [].
Proof.
  induction L as [|y L IH]; intros Hn; [reflexivity|]. cbn [List.filter].
  destruct (String.eqb h y) eqn:E.
  - apply String.eqb_eq in E. subst y. exfalso. apply Hn. left. reflexivity.
  - apply IH. intros Hin. apply Hn. right. exact Hin.
Qed.

Lemma filter_eqb_single (h : string) (L : list string) :
  NoDup L -> In h L -> List.filter (String.eqb h) L = [h].
Proof.
  induction L as [|y L IH]; intros Hnd Hin; [destruct Hin|].
  inversion Hnd as [|? ? Hy Hnd']; subst. cbn [List.filter].
  destruct (String.eqb h y) eqn:E.
  - apply String.eqb_eq in E. subst y. f_equal. apply filter_eqb_absent.
    intros Hin'. apply Hy. apply list_elem_of_In. exact Hin'.
  - apply String.eqb_neq in E. destruct Hin as [->|Hin]; [congruence|]. apply IH; assumption.
Qed.

Lemma stored_listed (s : fs) (c : bytes) :
  stored s (digest c) c ->
  ListBlobs s = SOk (flat_map (prefix_blobs (nodes s)) (children (nodes s) ["blobs"])) /\
  NoDup (flat_map (prefix_blobs (nodes s)) (children (nodes s) ["blobs"])) /\
  In (digest c) (flat_map (prefix_blobs (nodes s)) (children (nodes s) ["blobs"])).
Proof.
  intros (H1 & H2 & H3 & H4). split; [apply ListBlobs_dir; exact H2|].
  split; [apply flat_map_prefix_blobs_nodup, children_nodup|].
  apply in_ListBlobs. exists (BlobDir (digest c)), c.
  rewrite BlobPath_eq in H4 by apply digest_len2.
  repeat split; try assumption.
  - apply BlobDir_length, digest_len2.
  - apply BlobDir_prefix.
  - apply digest_hex.
Qed.

Lemma scan_hex (s : fs) (ps : list (string * node)) (acc D : list string) :
  scan s ps acc = SOk D -> forall h, In h D -> In h acc \/ isHexHash h = true.
Proof.
  revert acc. induction ps as [|[name n] ps IH]; intros acc H h Hh; cbn [scan] in H.
  - injection H as <-. left. exact Hh.
  - destruct (negb (is_dir n) || negb (String.length name =? 2)%nat); [exact (IH _ H _ Hh)|].
    destruct (read_dir s (join ["blobs"; name])) as [entries|e]; [|discriminate].
    destruct (IH _ H _ Hh) as [Ha|Hx]; [|right; exact Hx].
    apply in_app_or in Ha as [Ha|Ha]; [left; exact Ha|right].
    unfold blob_entries in Ha. apply in_map_iff in Ha as [[h' n'] [Heq Hf]]. cbn [fst] in Heq. subst h'.
    apply filter_In in Hf as [_ Hf]. cbn [fst snd] in Hf. apply andb_true_iff in Hf as [_ Hf]. exact Hf.
Qed.

Lemma ListBlobs_hex (s : fs) (D : list string) :
  ListBlobs s = SOk D -> forall h, In h D -> (2 <= String.length h)%nat.
Proof.
  intros H h Hh.
  assert (Hx : isHexHash h = true).
  { unfold ListBlobs in H. destruct (read_dir s (join ["blobs"])) as [ps|[]]; try discriminate.
    - destruct (scan_hex _ _ _ _ H _ Hh) as [[]|Hx]; exact Hx.
    - injection H as <-. destruct Hh. }
  unfold isHexHash in Hx. apply andb_true_iff in Hx as [Hx _]. apply Nat.eqb_eq in Hx. lia.
Qed.

Lemma upload_201_store (pkgName version : string) (C : bytes) (now : Z) (w0 w1 : world) (r1 : response) :
  UploadArtifact pkgName version C now w0 = (r1, w1) -> status r1 = 201 ->
  exists h n, Store C (disk w0) = (Ok (h, n), disk w1).
Proof.
  unfold UploadArtifact. intros H Hs.
  destruct (String.eqb pkgName "" || String.eqb version ""); [injection H as <- <-; discriminate|].
  destruct (GetArtifact pkgName version (meta w0)); [injection H as <- <-; discriminate|].
  destruct (Store C (disk w0)) as [[[h n]|e] s1]; [|injection H as <- <-; discriminate].
  destruct (CreatePackage pkgName (meta w0)) as [[pid|e] d1]; [|injection H as <- <-; discriminate].
  destruct (CreateArtifact pid version h n now d1) as [[a|[| |e]] d2];
    injection H as <- <-; try discriminate.
  exists h, n. reflexivity.
Qed.

Lemma delete_artifact_disk (pkgName version : string) (w1 w2 : world) (r2 : response) :
  DeleteArtifact pkgName version w1 = (r2, w2) -> disk w2 = disk w1.
Proof.
  unfold DeleteArtifact. destruct (Meta.DeleteArtifact pkgName version (meta w1)) as [[u|[| |e]] d'];
    intros H; injection H as <- <-; reflexivity.
Qed.

Lemma Exists_absent (s : fs) (h : string) : nodes s !! BlobPath h = None -> Exists s h = false.
Proof.
  intros H. unfold Exists, resolve. destruct (walk (nodes s) [] (BlobPath h)); [reflexivity|].
  rewrite H. reflexivity.
Qed.

End FlowFacts.

(** ** Content addressing and garbage collection *)
Module StoreClaims.
Import Disk Storage DigestFacts BlobFacts StoreFacts FlowFacts.

Definition empty_sha256 : string :=
  "e3b0c44298fc1c149afbf4c8996fb92427ae41e4649b934ca495991b7852b855".

Definition fs_empty : fs := mkFs ∅ ∅.

(** C1: when blobs/<xx>/<hash> is absent or already holds [c] (the store
    is content-addressed), a successful Store returns the lowercase hex
    SHA-256 of [c] and its length; storing [c] again then succeeds with the
    same result, leaves [c] at blobs/<hash[:2]>/<hash>, and ListBlobs lists
    that hash exactly once.  The empty body hashes to e3b0...b855, size 0. *)
Theorem store_content_addressed (c : bytes) (s0 s1 : fs) (h : string) (n : Z) :
  (nodes s0 !! BlobPath (digest c) = None \/ nodes s0 !! BlobPath (digest c) = Some (NFile c)) ->
  Store c s0 = (Ok (h, n), s1) ->
  h = digest c /\ n = Z.of_nat (length c) /\ String.length h = 64%nat /\ isHexHash h = true /\
  (c = [] -> h = empty_sha256 /\ n = 0) /\
  exists s2, Store c s1 = (Ok (h, n), s2) /\
    BlobPath h = ["blobs"; BlobDir h; h] /\ nodes s2 !! BlobPath h = Some (NFile c) /\
    exists L, ListBlobs s2 = SOk L /\ List.filter (String.eqb h) L = [h].
Proof.
  intros Hc HS.
  destruct (Store_first c s0 s1 h n Hc HS) as (-> & -> & Hst & _).
  split; [reflexivity|]. split; [reflexivity|].
  split; [apply digest_length|]. split; [apply digest_hex|].
  split; [intros ->; split; [vm_compute; reflexivity|reflexivity]|].
  destruct (Store_again c s1 Hst) as (s2 & HS2 & Hst2 & _).
  exists s2. split; [exact HS2|]. split; [apply BlobPath_eq, digest_len2|].
  split; [exact (proj2 (proj2 (proj2 Hst2)))|].
  destruct (stored_listed s2 c Hst2) as (HL & Hnd & Hin).
  eexists. split; [exact HL|]. apply filter_eqb_single; assumption.
Qed.

(** C1 on the empty body, starting from an empty data directory. *)
Lemma store_content_addressed_witness :
  Store [] fs_empty = (Ok (empty_sha256, 0), snd (Store [] fs_empty)) /\
  exists s2, Store [] (snd (Store [] fs_empty)) = (Ok (empty_sha256, 0), s2).
Proof.
  assert (H : Store [] fs_empty = (Ok (empty_sha256, 0), snd (Store [] fs_empty)))
    by (vm_compute; reflexivity).
  split; [exact H|].
  destruct (store_content_addressed [] fs_empty (snd (Store [] fs_empty)) empty_sha256 0
              ltac:(left; reflexivity) H) as (_ & _ & _ & _ & _ & s2 & Hs2 & _).
  exists s2. exact Hs2.
Defined.

End StoreClaims.

Module GCClaims.
Import Disk Storage Meta Handlers DiskFacts DigestFacts BlobFacts ListFacts StoreFacts GCFacts FlowFacts.

(** C2: a GarbageCollect run over the on-disk hashes D (from ListBlobs)
    and the referenced set R (from ReferencedHashes) calls Delete on exactly
    the hashes of D not in R, in order (each call leaves one log entry,
    LogCollected or LogDeleteFailed), and leaves the blob path of every hash
    of D in R untouched.  Scenario: after a 201 upload of [C] (whose blob
    path was absent or held [C], and is deletable), a 200 delete of the
    artifact, and with no artifact left referencing the hash, GC leaves no
    blob for the hash (Exists is false) and reports freed bytes of at least
    the length of [C]. *)
Theorem gc_sweeps_unreferenced :
  (forall (w : world) (D : list string) (r : response) (w' : world) (lg : list log_entry),
     ListBlobs (disk w) = SOk D -> GarbageCollect w = (r, w', lg) ->
     map log_hash lg = List.filter (fun h => negb (bool_decide (h ∈ ReferencedHashes (meta w)))) D /\
     (forall h, In h D -> h ∈ ReferencedHashes (meta w) ->
        nodes (disk w') !! BlobPath h = nodes (disk w) !! BlobPath h)) /\
  (forall (w0 w1 w2 w3 : world) (pkgName version : string) (C : bytes) (now : Z)
          (r1 r2 r3 : response) (lg : list log_entry),
     (nodes (disk w0) !! BlobPath (digest C) = None \/
      nodes (disk w0) !! BlobPath (digest C) = Some (NFile C)) ->
     BlobPath (digest C) ∉ undeletable (disk w0) ->
     UploadArtifact pkgName version C now w0 = (r1, w1) -> status r1 = 201 ->
     DeleteArtifact pkgName version w1 = (r2, w2) -> status r2 = 200 ->
     digest C ∉ ReferencedHashes (meta w2) ->
     GarbageCollect w2 = (r3, w3, lg) ->
     Exists (disk w3) (digest C) = false /\
     exists deleted freed, rbody r3 = BGC deleted freed /\ Z.of_nat (length C) <= freed).
Proof.
  split.
  - intros w D r w' lg HL HG. unfold GarbageCollect in HG. rewrite HL in HG.
    set (R := ReferencedHashes (meta w)) in *.
    destruct (gc_loop R D 0 0 (disk w) []) as [[[del fr] s'] lg'] eqn:EG.
    injection HG as <- <- <-.
    split.
    + pose proof (gc_loop_log R D 0 0 (disk w) []) as Hlog. rewrite EG in Hlog. exact Hlog.
    + intros h Hh HR.
      assert (Hq : forall h', In h' D -> h' ∉ R -> BlobPath h <> BlobPath h').
      { intros h' Hh' Hn Heq. apply BlobPath_inj in Heq;
          [subst h'; contradiction | apply (ListBlobs_hex _ _ HL); assumption
          | apply (ListBlobs_hex _ _ HL); assumption]. }
      pose proof (gc_loop_frame R D 0 0 (disk w) [] (BlobPath h) Hq) as [Hf _].
      rewrite EG in Hf. exact Hf.
  - intros w0 w1 w2 w3 pkgName version C now r1 r2 r3 lg Hc Hu Hup H201 Hdel _ Hnr HG.
    destruct (upload_201_store _ _ _ _ _ _ _ Hup H201) as (h & n & HS).
    destruct (Store_first C (disk w0) (disk w1) h n Hc HS) as (-> & -> & Hst & Hund).
    pose proof Hst as (T1 & T2 & T3 & T4).
    destruct (stored_listed _ _ Hst) as (HL & Hnd & Hin).
    unfold GarbageCollect in HG. rewrite (delete_artifact_disk _ _ _ _ _ Hdel), HL in HG.
    set (R := ReferencedHashes (meta w2)) in *.
    set (D := flat_map (prefix_blobs (nodes (disk w1))) (children (nodes (disk w1)) ["blobs"])) in *.
    destruct (gc_loop R D 0 0 (disk w1) []) as [[[del fr] s'] lg'] eqn:EG.
    injection HG as <- <- <-.
    destruct (gc_loop_collects R D 0 0 (disk w1) [] (digest C) C Hnd Hin Hnr
                (ListBlobs_hex _ _ HL) T2 T3 T4 ltac:(rewrite Hund; exact Hu)) as [Hgone Hfreed].
    rewrite EG in Hgone, Hfreed. cbn [fst snd] in Hgone, Hfreed.
    split; [apply Exists_absent; exact Hgone|].
    exists del, fr. split; [reflexivity|lia].
Qed.

End GCClaims.

(** ** Concrete GC runs *)
Module GCExamples.
Import Disk Storage Meta Handlers StoreClaims GCClaims.

(** The body "gc-test" of the spec's garbage-collection scenario. *)
Definition gc_body : bytes := [x67; x63; x2d; x74; x65; x73; x74]%byte.
Definition hello_body : bytes := [x68; x65; x6c; x6c; x6f]%byte.

Definition w_empty : world := mkWorld (mkDb [] [] 0 0) fs_empty.
Definition run_upload : response * world := UploadArtifact "demo" "1.0.0" gc_body 0 w_empty.
Definition run_delete : response * world := DeleteArtifact "demo" "1.0.0" run_upload.2.
Definition run_gc : response * world * list log_entry := GarbageCollect run_delete.2.

Lemma gc_sweeps_unreferenced_witness :
  Exists (disk run_gc.1.2) (digest gc_body) = false.
Proof.
  destruct gc_sweeps_unreferenced as [_ H].
  refine (proj1 (H w_empty run_upload.2 run_delete.2 run_gc.1.2 "demo" "1.0.0" gc_body 0
                   run_upload.1 run_delete.1 run_gc.1.1 run_gc.2 _ _ _ _ _ _ _ _)).
  - left. vm_compute. reflexivity.
  - apply not_elem_of_empty.
  - vm_compute. reflexivity.
  - vm_compute. reflexivity.
  - vm_compute. reflexivity.
  - vm_compute. reflexivity.
  - assert (E : ReferencedHashes (meta run_delete.2) = ∅) by (vm_compute; reflexivity).
    rewrite E. apply not_elem_of_empty.
  - vm_compute. reflexivity.
Defined.

(** Two unreferenced blobs, "gc-test" under a path the operating system
    refuses to remove and "hello" under an ordinary one. *)
Definition hash_hello : string := digest hello_body.
Definition hash_gc : string := digest gc_body.

Definition w_locked : world :=
  mkWorld (mkDb [] [] 0 0)
    (mkFs (<[BlobPath hash_hello := NFile hello_body]>
             (<[["blobs"; BlobDir hash_hello] := NDir]>
                (<[BlobPath hash_gc := NFile gc_body]>
                   (<[["blobs"; BlobDir hash_gc] := NDir]> (<[["blobs"] := NDir]> ∅)))))
          {[ BlobPath hash_gc ]}).

End GCExamples.

Module GCBug.
Import Disk Storage Meta Handlers GCExamples.

(** C3 (divergence): on [w_locked] the sweep goes on after the failed
    Delete of the "gc-test" blob and collects the "hello" blob, but the
    7 bytes of the blob it failed to delete, which is still on disk, are
    counted in freed_bytes: the response reports 12 bytes freed for the
    5 bytes actually removed. *)
Theorem gc_failed_delete_counted_in_freed :
  let '(r, w', lg) := GarbageCollect w_locked in
  rbody r = BGC 1 12 /\
  In (LogDeleteFailed hash_gc) lg /\ In (LogCollected hash_hello) lg /\
  nodes (disk w') !! BlobPath hash_gc = Some (NFile gc_body) /\
  nodes (disk w') !! BlobPath hash_hello = None /\
  12 = Z.of_nat (length gc_body) + Z.of_nat (length hello_body).
Proof.
  vm_compute. repeat split; first [reflexivity | left; reflexivity | right; left; reflexivity].
Qed.

End GCBug.

(** ** The per-key upload gate *)
Module GateFacts.
Import UploadGate.

(** How much a goroutine in state [t] counts towards the key [key]. *)
Definition cnt (key : string) (t : thread) : nat :=
  ((if waiting_on key t then 1 else 0) + (if holding key t then 1 else 0))%nat.

Definition wh (s : state) (key : string) : nat := (waiters s key + holders s key)%nat.

Definition active (key : string) (l : nat) (t : thread) : Prop :=
  t = TWaiting key l \/ t = THolding key l \/ t = TReleasing key l.

(** The invariant: each entry points to a live object whose count is the
    number of waiters and holders of its key, and is positive; every
    goroutine in the gate uses the entry of its key; objects are allocated
    below [next_addr]; distinct keys use distinct objects. *)
Definition inv (s : state) : Prop :=
  (forall key l, uploadLocks (gt s) !! key = Some l ->
     exists o, heap (gt s) !! l = Some o /\ refs o = wh s key /\ (0 < refs o)%nat) /\
  (forall i key l t, threads s !! i = Some t -> active key l t -> uploadLocks (gt s) !! key = Some l) /\
  (forall a o, heap (gt s) !! a = Some o -> (a < next_addr (gt s))%nat) /\
  (forall k1 k2 l, uploadLocks (gt s) !! k1 = Some l -> uploadLocks (gt s) !! k2 = Some l -> k1 = k2).

Lemma count_insert (p : thread -> bool) (l : list thread) (i : nat) (t0 t : thread) :
  l !! i = Some t0 ->
  (length (List.filter p (<[i := t]> l)) + (if p t0 then 1 else 0) =
   length (List.filter p l) + (if p t then 1 else 0))%nat.
Proof.
  revert i. induction l as [|x l IH]; intros [|i] H; try discriminate.
  - change (<[0%nat := t]> (x :: l)) with (t :: l). injection H as ->.
    cbn [List.filter]. destruct (p t), (p t0); cbn [length]; lia.
  - change (<[S i := t]> (x :: l)) with (x :: <[i := t]> l).
    specialize (IH i H). cbn [List.filter]. destruct (p x); cbn [length]; lia.
Qed.

Lemma count_pos (p : thread -> bool) (l : list thread) (j : nat) (t : thread) :
  l !! j = Some t -> p t = true -> (1 <= length (List.filter p l))%nat.
Proof.
  revert j. induction l as [|x l IH]; intros [|j] H Hp; try discriminate; cbn in H |- *.
  - injection H as ->. rewrite Hp. cbn [length]. lia.
  - specialize (IH j H Hp). destruct (p x); cbn [length]; lia.
Qed.

Lemma count_zero (p : thread -> bool) (l : list thread) :
  (forall j t, l !! j = Some t -> p t = false) -> length (List.filter p l) = 0%nat.
Proof.
  induction l as [|x l IH]; intros H; [reflexivity|]. cbn [List.filter].
  rewrite (H 0%nat x eq_refl). apply IH. intros j t Hj. exact (H (S j) t Hj).
Qed.

Lemma wh_insert (s : state) (i : nat) (t0 t : thread) (g : gate) (key : string) :
  threads s !! i = Some t0 ->
  (wh (mkState g (set_thread s i t)) key + cnt key t0 = wh s key + cnt key t)%nat.
Proof.
  intros H. unfold wh, waiters, holders, cnt, set_thread. cbn [threads].
  pose proof (count_insert (waiting_on key) _ _ _ t H).
  pose proof (count_insert (holding key) _ _ _ t H). lia.
Qed.

Lemma cnt_active (key : string) (l : nat) (t : thread) : active key l t -> cnt key t = 1%nat.
Proof. intros [ -> | [ -> | -> ]]; unfold cnt; cbn; rewrite String.eqb_refl; reflexivity. Qed.

Lemma cnt_other (key k : string) (l : nat) (t : thread) : active k l t -> k <> key -> cnt key t = 0%nat.
Proof.
  intros Ha Hne. apply String.eqb_neq in Hne.
  destruct Ha as [ -> | [ -> | -> ]]; unfold cnt; cbn; rewrite Hne; reflexivity.
Qed.

Lemma thread_cases (t : thread) : t = TFree \/ exists k l, active k l t.
Proof.
  destruct t as [|k l|k l|k l]; [left; reflexivity|right; exists k, l; unfold active; auto ..].
Qed.

Lemma active_wh (s : state) (j : nat) (key : string) (l : nat) (t : thread) :
  threads s !! j = Some t -> active key l t -> (1 <= wh s key)%nat.
Proof.
  intros H Ha. unfold wh, waiters, holders.
  destruct Ha as [ -> | [ -> | -> ]];
    [pose proof (count_pos (waiting_on key) _ _ _ H ltac:(cbn; apply String.eqb_refl))
    |pose proof (count_pos (holding key) _ _ _ H ltac:(cbn; apply String.eqb_refl))
    |pose proof (count_pos (holding key) _ _ _ H ltac:(cbn; apply String.eqb_refl))]; lia.
Qed.

Lemma wh_absent (s : state) (key : string) :
  (forall i l t, threads s !! i = Some t -> active key l t -> uploadLocks (gt s) !! key = Some l) ->
  uploadLocks (gt s) !! key = None -> wh s key = 0%nat.
Proof.
  intros I2 Hn.
  assert (Hc : forall j t, threads s !! j = Some t -> cnt key t = 0%nat).
  { intros j t Hj. destruct (thread_cases t) as [ -> | (k & l & Ha)]; [reflexivity|].
    destruct (decide (k = key)) as [->|Hne]; [|exact (cnt_other _ _ _ _ Ha Hne)].
    rewrite (I2 _ _ _ Hj Ha) in Hn. discriminate. }
  unfold wh, waiters, holders.
  rewrite !count_zero; [reflexivity| |];
    intros j t Hj; specialize (Hc j t Hj); unfold cnt in Hc;
    destruct (waiting_on key t), (holding key t); cbn in Hc; congruence.
Qed.

Lemma init_inv (n : nat) : inv (init n).
Proof.
  unfold inv, init. cbn [gt threads uploadLocks heap next_addr].
  split; [intros key l H; rewrite lookup_empty in H; discriminate|].
  split; [|split; [intros a o H; rewrite lookup_empty in H; discriminate
                  |intros k1 k2 l H; rewrite lookup_empty in H; discriminate]].
  intros i key l t H Ha. apply lookup_replicate in H as [-> _].
  destruct Ha as [H|[H|H]]; discriminate.
Qed.

Lemma set_thread_cases (s : state) (i j : nat) (t t' : thread) :
  set_thread s i t !! j = Some t' -> (j = i /\ t' = t) \/ (j <> i /\ threads s !! j = Some t').
Proof.
  unfold set_thread. intros H. apply list_lookup_insert_Some in H.
  destruct H as [(-> & -> & _)|(Hne & H)]; [left; auto|right; auto].
Qed.

Lemma wh_from (s : state) (i : nat) (t0 t : thread) (g : gate) (key : string) :
  threads s !! i = Some t0 ->
  wh (mkState g (set_thread s i t)) key = (wh s key + cnt key t - cnt key t0)%nat.
Proof. intros H. pose proof (wh_insert s i t0 t g key H). lia. Qed.

(** Goroutines of [ts] use the table entry of their key. *)
Definition uses (m : gmap string nat) (ts : list thread) : Prop :=
  forall i key l t, ts !! i = Some t -> active key l t -> m !! key = Some l.

Lemma uses_set (s : state) (i : nat) (t0 t : thread) :
  uses (uploadLocks (gt s)) (threads s) -> threads s !! i = Some t0 ->
  (forall key l, active key l t -> active key l t0) ->
  uses (uploadLocks (gt s)) (set_thread s i t).
Proof.
  intros I2 Hi Ht j key l t' Hj Ha.
  apply set_thread_cases in Hj as [[-> ->]|[_ Hj]].
  - exact (I2 _ _ _ _ Hi (Ht _ _ Ha)).
  - exact (I2 _ _ _ _ Hj Ha).
Qed.

Lemma inv_uses (s : state) : inv s -> uses (uploadLocks (gt s)) (threads s).
Proof. intros (_ & I2 & _). exact I2. Qed.

Lemma acquire_some (K : string) (g : gate) (l : nat) (o : artifactLock) :
  uploadLocks g !! K = Some l -> heap g !! l = Some o ->
  acquire_locked K g =
    (mkGate (uploadLocks g) (<[l := mkLock (mu_locked o) (S (refs o))]> (heap g)) (next_addr g), l).
Proof. intros H1 H2. unfold acquire_locked. rewrite H1. cbv beta iota zeta. rewrite H2. reflexivity. Qed.

Lemma acquire_none (K : string) (g : gate) :
  uploadLocks g !! K = None ->
  acquire_locked K g =
    (mkGate (<[K := next_addr g]> (uploadLocks g))
            (<[next_addr g := mkLock false 1]> (heap g)) (S (next_addr g)), next_addr g).
Proof.
  intros H. unfold acquire_locked. rewrite H. cbv beta iota zeta.
  cbn [heap uploadLocks next_addr]. rewrite lookup_insert_eq, insert_insert_eq. reflexivity.
Qed.

Lemma inv_acquire (s : state) (i : nat) (K : string) :
  inv s -> threads s !! i = Some TFree ->
  inv (mkState (acquire_locked K (gt s)).1 (set_thread s i (TWaiting K (acquire_locked K (gt s)).2))).
Proof.
  intros Hinv Hi. pose proof Hinv as (I1 & I2 & I3 & I4).
  assert (Hw : forall g T key, wh (mkState g (set_thread s i T)) key = (wh s key + cnt key T)%nat).
  { intros g T key. rewrite (wh_from s i TFree T g key Hi). change (cnt key TFree) with 0%nat. lia. }
  destruct (uploadLocks (gt s) !! K) as [l|] eqn:HK.
  - destruct (I1 K l HK) as (o & Ho & Hr & Hp).
    rewrite (acquire_some K (gt s) l o HK Ho). cbn [fst snd].
    unfold inv. cbn [gt threads uploadLocks heap next_addr].
    split; [|split; [|split]].
    + intros key l' H'. destruct (decide (key = K)) as [->|Hne].
      * rewrite HK in H'. injection H' as <-.
        exists (mkLock (mu_locked o) (S (refs o))). rewrite lookup_insert_eq.
        rewrite Hw, (cnt_active K l (TWaiting K l)) by (left; reflexivity). cbn [refs]. split; [reflexivity|lia].
      * assert (l' <> l) by (intros ->; exact (Hne (I4 _ _ _ H' HK))).
        destruct (I1 key l' H') as (o' & Ho' & Hr' & Hp'). exists o'.
        rewrite lookup_insert_ne by congruence.
        rewrite Hw, (cnt_other key K l (TWaiting K l)) by (first [left; reflexivity | congruence]).
        split; [exact Ho'|lia].
    + intros j key l' t Hj Ha. apply set_thread_cases in Hj as [[-> ->]|[_ Hj]].
      * destruct Ha as [H|[H|H]]; try discriminate. injection H as <- <-. exact HK.
      * exact (I2 _ _ _ _ Hj Ha).
    + intros a o' H. destruct (decide (a = l)) as [->|Hne]; [exact (I3 _ _ Ho)|].
      rewrite lookup_insert_ne in H by congruence. exact (I3 _ _ H).
    + exact I4.
  - pose proof (wh_absent s K (fun j l t => I2 j K l t) HK) as Hz.
    rewrite (acquire_none K (gt s) HK). cbn [fst snd].
    set (na := next_addr (gt s)) in *.
    unfold inv. cbn [gt threads uploadLocks heap next_addr].
    split; [|split; [|split]].
    + intros key l' H'. destruct (decide (key = K)) as [->|Hne].
      * rewrite lookup_insert_eq in H'. injection H' as <-.
        exists (mkLock false 1). rewrite lookup_insert_eq.
        rewrite Hw, Hz, (cnt_active K na (TWaiting K na)) by (left; reflexivity). cbn [refs]. split; [reflexivity|lia].
      * rewrite lookup_insert_ne in H' by congruence.
        destruct (I1 key l' H') as (o' & Ho' & Hr' & Hp'). exists o'.
        pose proof (I3 _ _ Ho').
        rewrite lookup_insert_ne by (unfold na in *; lia).
        rewrite Hw, (cnt_other key K na (TWaiting K na)) by (first [left; reflexivity | congruence]).
        split; [exact Ho'|lia].
    + intros j key l' t Hj Ha. apply set_thread_cases in Hj as [[-> ->]|[_ Hj]].
      * destruct Ha as [H|[H|H]]; try discriminate. injection H as <- <-.
        rewrite lookup_insert_eq. reflexivity.
      * pose proof (I2 _ _ _ _ Hj Ha) as H.
        destruct (decide (key = K)) as [->|Hne]; [congruence|].
        rewrite lookup_insert_ne by congruence. exact H.
    + intros a o' H. destruct (decide (a = na)) as [->|Hne]; [lia|].
      rewrite lookup_insert_ne in H by congruence. pose proof (I3 _ _ H). unfold na in *. lia.
    + assert (Hfresh : forall k, uploadLocks (gt s) !! k <> Some na).
      { intros k Hk. destruct (I1 _ _ Hk) as (o' & Ho' & _). pose proof (I3 _ _ Ho'). unfold na in *. lia. }
      intros k1 k2 l H1 H2.
      destruct (decide (k1 = K)) as [->|H1n], (decide (k2 = K)) as [->|H2n]; [reflexivity| | |].
      * rewrite lookup_insert_eq in H1. rewrite lookup_insert_ne in H2 by congruence.
        injection H1 as <-. exfalso. exact (Hfresh _ H2).
      * rewrite lookup_insert_eq in H2. rewrite lookup_insert_ne in H1 by congruence.
        injection H2 as <-. exfalso. exact (Hfresh _ H1).
      * rewrite lookup_insert_ne in H1, H2 by congruence. exact (I4 _ _ _ H1 H2).
Qed.

(** lock.mu.Lock() and lock.mu.Unlock() keep every count. *)
Lemma inv_mu (s : state) (b : bool) (l : nat) (ts : list thread) :
  inv s ->
  (forall key, wh (mkState (set_mu b l (gt s)) ts) key = wh s key) ->
  uses (uploadLocks (gt s)) ts ->
  inv (mkState (set_mu b l (gt s)) ts).
Proof.
  intros (I1 & I2 & I3 & I4) Hw Hu.
  assert (Hw' := Hw). unfold set_mu in *.
  destruct (heap (gt s) !! l) as [o|] eqn:Hl.
  - unfold inv. cbn [gt threads uploadLocks heap next_addr].
    split; [|split; [exact Hu|split]].
    + intros key l' H'. destruct (I1 key l' H') as (o1 & Ho1 & Hr & Hp).
      rewrite Hw'.
      destruct (decide (l' = l)) as [->|Hne].
      * rewrite Hl in Ho1. injection Ho1 as <-.
        exists (mkLock b (refs o)). rewrite lookup_insert_eq. cbn [refs]. auto.
      * exists o1. rewrite lookup_insert_ne by congruence. auto.
    + intros a o' H. destruct (decide (a = l)) as [->|Hne]; [exact (I3 _ _ Hl)|].
      rewrite lookup_insert_ne in H by congruence. exact (I3 _ _ H).
    + exact I4.
  - unfold inv. split; [|split; [exact Hu|split; [exact I3|exact I4]]].
    intros key l' H'. rewrite Hw'. exact (I1 key l' H').
Qed.

Lemma cnt_swap (key k : string) (l : nat) :
  cnt key (TWaiting k l) = cnt key (THolding k l) /\ cnt key (THolding k l) = cnt key (TReleasing k l).
Proof. unfold cnt. cbn. destruct (String.eqb k key); split; reflexivity. Qed.

Lemma inv_lock (s : state) (i : nat) (key : string) (l : nat) :
  inv s -> threads s !! i = Some (TWaiting key l) ->
  inv (mkState (set_mu true l (gt s)) (set_thread s i (THolding key l))).
Proof.
  intros Hinv Hi. apply inv_mu; [exact Hinv| |].
  - intros k. rewrite (wh_from s i _ _ _ k Hi). destruct (cnt_swap k key l) as [-> _]. lia.
  - apply (uses_set s i (TWaiting key l)); [exact (inv_uses s Hinv)|exact Hi|].
    intros k l' [H|[H|H]]; try discriminate. injection H as <- <-. left. reflexivity.
Qed.

Lemma inv_unlock (s : state) (i : nat) (key : string) (l : nat) :
  inv s -> threads s !! i = Some (THolding key l) ->
  inv (mkState (set_mu false l (gt s)) (set_thread s i (TReleasing key l))).
Proof.
  intros Hinv Hi. apply inv_mu; [exact Hinv| |].
  - intros k. rewrite (wh_from s i _ _ _ k Hi). destruct (cnt_swap k key l) as [_ ->]. lia.
  - apply (uses_set s i (THolding key l)); [exact (inv_uses s Hinv)|exact Hi|].
    intros k l' [H|[H|H]]; try discriminate. injection H as <- <-. right. left. reflexivity.
Qed.

Lemma inv_release (s : state) (i : nat) (key : string) (l : nat) :
  inv s -> threads s !! i = Some (TReleasing key l) ->
  inv (mkState (release_locked key l (gt s)) (set_thread s i TFree)).
Proof.
  intros Hinv Hi. pose proof Hinv as (I1 & I2 & I3 & I4).
  assert (Hact : active key l (TReleasing key l)) by (right; right; reflexivity).
  pose proof (I2 _ _ _ _ Hi Hact) as HK.
  destruct (I1 key l HK) as (o & Ho & Hr & Hp).
  assert (Hw : forall g k, wh (mkState g (set_thread s i TFree)) k = (wh s k - cnt k (TReleasing key l))%nat).
  { intros g k. rewrite (wh_from s i _ _ g k Hi). change (cnt k TFree) with 0%nat. lia. }
  assert (Hwk : forall g, wh (mkState g (set_thread s i TFree)) key = pred (refs o)).
  { intros g. rewrite Hw, (cnt_active key l _ Hact). lia. }
  assert (Hwo : forall g k, k <> key -> wh (mkState g (set_thread s i TFree)) k = wh s k).
  { intros g k Hne. rewrite Hw, (cnt_other k key l _ Hact) by congruence. lia. }
  assert (Hu : uses (uploadLocks (gt s)) (set_thread s i TFree)).
  { apply (uses_set s i (TReleasing key l)); [exact I2|exact Hi|].
    intros k l' [H|[H|H]]; discriminate. }
  assert (Hoth : forall k l', uploadLocks (gt s) !! k = Some l' -> k <> key ->
            l' <> l /\ exists o', heap (gt s) !! l' = Some o' /\ refs o' = wh s k /\ (0 < refs o')%nat).
  { intros k l' H Hne. split; [intros ->; exact (Hne (I4 _ _ _ H HK))|exact (I1 _ _ H)]. }
  unfold release_locked. rewrite Ho. cbv zeta. cbn [refs].
  unfold inv. cbn [gt threads uploadLocks heap next_addr].
  destruct (Nat.eqb_spec (pred (refs o)) 0) as [Hz|Hnz].
  - split; [|split; [|split]].
    + intros k l' H. destruct (decide (k = key)) as [->|Hne];
        [rewrite lookup_delete_eq in H; discriminate|].
      rewrite lookup_delete_ne in H by congruence.
      destruct (Hoth k l' H Hne) as [Hl' (o' & Ho' & Hr' & Hp')].
      exists o'. rewrite lookup_insert_ne by congruence. rewrite Hwo by exact Hne. auto.
    + intros j k l' t Hj Ha.
      destruct (decide (k = key)) as [->|Hne].
      * exfalso. pose proof (active_wh (mkState (gt s) (set_thread s i TFree)) j key l' t Hj Ha).
        rewrite Hwk in H. lia.
      * rewrite lookup_delete_ne by congruence. exact (Hu _ _ _ _ Hj Ha).
    + intros a o' H. destruct (decide (a = l)) as [->|Hne]; [exact (I3 _ _ Ho)|].
      rewrite lookup_insert_ne in H by congruence. exact (I3 _ _ H).
    + intros k1 k2 l' H1 H2.
      destruct (decide (k1 = key)) as [->|H1n]; [rewrite lookup_delete_eq in H1; discriminate|].
      destruct (decide (k2 = key)) as [->|H2n]; [rewrite lookup_delete_eq in H2; discriminate|].
      rewrite lookup_delete_ne in H1, H2 by congruence. exact (I4 _ _ _ H1 H2).
  - split; [|split; [exact Hu|split]].
    + intros k l' H. destruct (decide (k = key)) as [->|Hne].
      * rewrite HK in H. injection H as <-.
        exists (mkLock (mu_locked o) (pred (refs o))). rewrite lookup_insert_eq, Hwk.
        cbn [refs]. split; [reflexivity|]. split; [reflexivity|lia].
      * destruct (Hoth k l' H Hne) as [Hl' (o' & Ho' & Hr' & Hp')].
        exists o'. rewrite lookup_insert_ne by congruence. rewrite Hwo by exact Hne. auto.
    + intros a o' H. destruct (decide (a = l)) as [->|Hne]; [exact (I3 _ _ Ho)|].
      rewrite lookup_insert_ne in H by congruence. exact (I3 _ _ H).
    + exact I4.
Qed.

Lemma inv_step (s s' : state) : inv s -> step s s' -> inv s'.
Proof.
  intros Hinv Hs. destruct Hs as [s i p v Hi|s i key l Hi _|s i key l Hi|s i key l Hi].
  - exact (inv_acquire s i _ Hinv Hi).
  - exact (inv_lock s i key l Hinv Hi).
  - exact (inv_unlock s i key l Hinv Hi).
  - exact (inv_release s i key l Hinv Hi).
Qed.

Lemma reachable_inv (s : state) : reachable s -> inv s.
Proof.
  intros [n Hr]. revert s Hr. apply (rtc_ind_r inv (init n)); [apply init_inv|].
  intros y z _ Hyz IH. exact (inv_step y z IH Hyz).
Qed.

End GateFacts.

(** ** Runs of the upload gate *)
Module GateExamples.
Import UploadGate.

Definition acq (s : state) (i : nat) (pkgName version : string) : state :=
  mkState (acquire_locked (key_of pkgName version) (gt s)).1
          (set_thread s i (TWaiting (key_of pkgName version)
                                    (acquire_locked (key_of pkgName version) (gt s)).2)).
Definition lck (s : state) (i : nat) (key : string) (l : nat) : state :=
  mkState (set_mu true l (gt s)) (set_thread s i (THolding key l)).
Definition unlck (s : state) (i : nat) (key : string) (l : nat) : state :=
  mkState (set_mu false l (gt s)) (set_thread s i (TReleasing key l)).
Definition rel (s : state) (i : nat) (key : string) (l : nat) : state :=
  mkState (release_locked key l (gt s)) (set_thread s i TFree).

Definition k_demo : string := key_of "demo" "1.0.0".

(** Two goroutines upload demo@1.0.0: both enter, the first runs and
    releases ([s_one_left]); then the second runs and releases ([s_none_left]). *)
Definition s_one_left : state :=
  rel (unlck (lck (acq (acq (init 2) 0 "demo" "1.0.0") 1 "demo" "1.0.0") 0 k_demo 0) 0 k_demo 0) 0 k_demo 0.
Definition s_none_left : state :=
  rel (unlck (lck s_one_left 1 k_demo 0) 1 k_demo 0) 1 k_demo 0.

Lemma step_acq (s : state) (i : nat) (p v : string) :
  threads s !! i = Some TFree -> step s (acq s i p v).
Proof. apply step_acquire. Qed.

Lemma step_lck (s : state) (i : nat) (key : string) (l : nat) :
  threads s !! i = Some (TWaiting key l) -> mu_free l (gt s) = true -> step s (lck s i key l).
Proof. apply step_lock. Qed.

Lemma step_unlck (s : state) (i : nat) (key : string) (l : nat) :
  threads s !! i = Some (THolding key l) -> step s (unlck s i key l).
Proof. apply step_unlock. Qed.

Lemma step_rel (s : state) (i : nat) (key : string) (l : nat) :
  threads s !! i = Some (TReleasing key l) -> step s (rel s i key l).
Proof. apply step_release. Qed.

Ltac run_gate :=
  repeat first
    [ apply rtc_refl
    | eapply rtc_r; [| apply step_acq; vm_compute; reflexivity]
    | eapply rtc_r; [| apply step_lck; vm_compute; reflexivity]
    | eapply rtc_r; [| apply step_unlck; vm_compute; reflexivity]
    | eapply rtc_r; [| apply step_rel; vm_compute; reflexivity] ].

Lemma s_one_left_reachable : reachable s_one_left.
Proof. exists 2%nat. unfold s_one_left. run_gate. Qed.

Lemma s_none_left_reachable : reachable s_none_left.
Proof. exists 2%nat. unfold s_none_left, s_one_left. run_gate. Qed.

End GateExamples.

Module GateClaims.
Import UploadGate GateFacts GateExamples.

(** C10: in every reachable state of the upload gate (any interleaving of
    goroutines running lockArtifactUpload and its release func), an entry
    [uploadLocks[key] = l] points to an artifactLock whose [refs] is positive
    and equals the number of goroutines on [key] that wait in lock.mu.Lock()
    plus those that acquired it and have not finished their release call;
    hence once no goroutine is waiting on or holding [key] (after the last
    release) the table has no entry for [key]. *)
Theorem upload_locks_refcount (s : state) (Hs : reachable s) (key : string) :
  (forall l, uploadLocks (gt s) !! key = Some l ->
     exists o, heap (gt s) !! l = Some o /\ (0 < refs o)%nat /\
               refs o = (waiters s key + holders s key)%nat) /\
  ((waiters s key + holders s key)%nat = 0%nat -> uploadLocks (gt s) !! key = None).
Proof.
  destruct (reachable_inv s Hs) as (I1 & _).
  split.
  - intros l H. destruct (I1 key l H) as (o & Ho & Hr & Hp). exists o. unfold wh in Hr. auto.
  - intros Hz. destruct (uploadLocks (gt s) !! key) as [l|] eqn:H; [|reflexivity].
    destruct (I1 key l H) as (o & _ & Hr & Hp). unfold wh in Hr. lia.
Qed.

Lemma upload_locks_refcount_witness :
  (exists o, heap (gt s_one_left) !! 0%nat = Some o /\ (0 < refs o)%nat /\
     refs o = (waiters s_one_left k_demo + holders s_one_left k_demo)%nat) /\
  uploadLocks (gt s_none_left) !! k_demo = None.
Proof.
  split.
  - refine (proj1 (upload_locks_refcount s_one_left s_one_left_reachable k_demo) 0%nat _).
    vm_compute. reflexivity.
  - apply (proj2 (upload_locks_refcount s_none_left s_none_left_reachable k_demo)).
    vm_compute. reflexivity.
Defined.

End GateClaims.

(** * Further parts of the service *)

(** ** SQLiteStore.GetPackage and SQLiteStore.ListArtifacts *)
Module MetaExt.
Import Storage Meta.

(** SQLiteStore.GetPackage: SELECT id, name FROM packages WHERE name = ?;
    None is sql.ErrNoRows. *)
Definition GetPackage (name : string) (d : db) : option package :=
  find (fun p => String.eqb (pkg_name p) name) (packages d).

(** ORDER BY a.uploaded_at DESC, by insertion (rows with the same time stay
    in rowid order here; SQLite leaves their order open). *)
Fixpoint insert_by_time (a : artifact) (l : list artifact) : list artifact :=
  match l with
  | [] => [a]
  | b :: l' => if art_uploaded_at b <=? art_uploaded_at a then a :: b :: l'
               else b :: insert_by_time a l'
  end.

Definition sort_by_time (l : list artifact) : list artifact := fold_right insert_by_time [] l.

(** SQLiteStore.ListArtifacts: artifacts a JOIN packages p ON a.package_id =
    p.id WHERE p.name = ? ORDER BY a.uploaded_at DESC. *)
Definition ListArtifacts (packageName : string) (d : db) : list artifact :=
  sort_by_time
    (List.filter (fun a => existsb (fun p => (pkg_id p =? art_package_id a) &&
                                             String.eqb (pkg_name p) packageName)
                                   (packages d))
                 (artifacts d)).

(** The catalog as the code keeps it: the UNIQUE constraints and primary
    keys of the schema, AUTOINCREMENT counters at or above every id, and
    artifacts pointing at existing packages (CreateArtifact is only given
    ids from CreatePackage, and no package is ever deleted). *)
Definition db_ok (d : db) : Prop :=
  wf_db d /\ NoDup (map pkg_id (packages d)) /\ NoDup (map art_id (artifacts d)) /\
  0 <= pkg_seq d /\ 0 <= art_seq d /\
  Forall (fun p => 0 < pkg_id p <= pkg_seq d) (packages d) /\
  Forall (fun a => 0 < art_id a <= art_seq d) (artifacts d) /\
  Forall (fun a => In (art_package_id a) (map pkg_id (packages d))) (artifacts d).

End MetaExt.

(** ** Handler.ListPackages and Handler.GetPackage *)
Module HandlersExt.
Import Storage Meta Handlers MetaExt.

(** The JSON bodies of the two package routes. *)
Inductive pbody :=
  | PError (msg : string)
  | PList (pkgs : list package)
  | PInfo (name : string) (versions : list artifact).

Record presponse := mkPResponse { pstatus : Z; pcontent : pbody }.

(** Handler.ListPackages on GET /packages?search=query (a nil slice is
    written as the empty list). *)
Definition ListPackages (query : string) (w : world) : presponse :=
  let pkgs := if String.eqb query "" then Meta.ListPackages (meta w)
              else SearchPackages query (meta w) in
  mkPResponse 200 (PList pkgs).

(** Handler.GetPackage on GET /packages/{pkgName} *)
Definition GetPackage (pkgName : string) (w : world) : presponse :=
  match MetaExt.GetPackage pkgName (meta w) with
  | None => mkPResponse 404 (PError (sappend ["package "; pkgName; " not found"]))
  | Some p => mkPResponse 200 (PInfo (pkg_name p) (ListArtifacts pkgName (meta w)))
  end.

End HandlersExt.

Module CatalogFacts.
Import Storage Meta Handlers MetaFacts SearchFacts MetaExt.

Lemma existsb_find {A} (f : A -> bool) (l : list A) :
  existsb f l = match find f l with Some _ => true | None => false end.
Proof. induction l as [|x l IH]; simpl; [reflexivity|]. destruct (f x); [reflexivity|exact IH]. Qed.

Lemma find_app {A} (f : A -> bool) (l1 l2 : list A) :
  find f (l1 ++ l2) = match find f l1 with Some x => Some x | None => find f l2 end.
Proof. induction l1 as [|x l1 IH]; simpl; [reflexivity|]. destruct (f x); [reflexivity|exact IH]. Qed.

Lemma find_none_intro {A} (f : A -> bool) (l : list A) :
  (forall x, In x l -> f x = false) -> find f l = None.
Proof.
  induction l as [|x l IH]; simpl; intros H; [reflexivity|].
  rewrite (H x (or_introl eq_refl)). apply IH. intros y Hy. apply H. right. exact Hy.
Qed.

Lemma package_eta (p : package) (name : string) : pkg_name p = name -> p = mkPackage (pkg_id p) name.
Proof. destruct p; simpl; intros ->; reflexivity. Qed.

Lemma NoDup_map_filter {A B} (f : A -> B) (P : A -> bool) (l : list A) :
  NoDup (map f l) -> NoDup (map f (List.filter P l)).
Proof.
  induction l as [|x l IH]; simpl; intros Hnd; [constructor|].
  inversion Hnd as [|? ? Hnin Hnd']; subst.
  destruct (P x); simpl; [|exact (IH Hnd')].
  constructor; [|exact (IH Hnd')].
  intros Hin. apply Hnin. apply list_elem_of_In in Hin. apply list_elem_of_In.
  apply in_map_iff in Hin as [y [<- Hy]]. apply filter_In in Hy as [Hy _]. apply in_map. exact Hy.
Qed.

Lemma NoDup_snoc {A} (l : list A) (x : A) : NoDup l -> ~ In x l -> NoDup (l ++ [x]).
Proof.
  intros Hnd Hx. apply NoDup_app. split; [exact Hnd|]. split; [|apply NoDup_singleton].
  intros y Hy Hy'. apply list_elem_of_singleton in Hy'. subst y.
  apply Hx, list_elem_of_In, Hy.
Qed.

Lemma Forall_filter_l {A} (P : A -> Prop) (f : A -> bool) (l : list A) :
  Forall P l -> Forall P (List.filter f l).
Proof.
  rewrite !Forall_forall. intros H x Hx. apply list_elem_of_In, filter_In in Hx as [Hx _].
  apply H, list_elem_of_In, Hx.
Qed.

Lemma Forall_snoc {A} (P : A -> Prop) (l : list A) (x : A) :
  Forall P l -> P x -> Forall P (l ++ [x]).
Proof. intros H Hx. apply Forall_app. split; [exact H|]. constructor; [exact Hx|constructor]. Qed.

Lemma create_package_spec (name : string) (d : db) :
  exists p d1, CreatePackage name d = (SOk (pkg_id p), d1) /\ GetPackage name d1 = Some p /\
    pkg_name p = name /\
    ((GetPackage name d = Some p /\ d1 = mkDb (packages d) (artifacts d) (pkg_seq d + 1) (art_seq d)) \/
     (GetPackage name d = None /\ p = mkPackage (pkg_seq d + 1) name /\
      d1 = mkDb (packages d ++ [p]) (artifacts d) (pkg_seq d + 1) (art_seq d))).
Proof.
  unfold CreatePackage, GetPackage. rewrite existsb_find.
  destruct (find (fun p => String.eqb (pkg_name p) name) (packages d)) as [p|] eqn:Hf.
  - exists p, (mkDb (packages d) (artifacts d) (pkg_seq d + 1) (art_seq d)). cbn [packages]. rewrite Hf. apply find_some in Hf as [_ Hn]. apply String.eqb_eq in Hn.
    split; [reflexivity|]. split; [reflexivity|]. split; [exact Hn|]. left. auto.
  - set (p := mkPackage (pkg_seq d + 1) name).
    assert (Hf' : find (fun p => String.eqb (pkg_name p) name) (packages d ++ [p]) = Some p).
    { rewrite find_app, Hf. simpl. rewrite String.eqb_refl. reflexivity. }
    exists p, (mkDb (packages d ++ [p]) (artifacts d) (pkg_seq d + 1) (art_seq d)).
    cbn [packages]. rewrite Hf'. split; [reflexivity|]. split; [reflexivity|].
    split; [reflexivity|]. right. auto.
Qed.

Lemma get_package_none (name : string) (d : db) :
  GetPackage name d = None <-> forall p, In p (packages d) -> pkg_name p <> name.
Proof.
  unfold GetPackage. split.
  - intros Hf p Hin Hn. apply (find_none _ _ Hf) in Hin. rewrite Hn, String.eqb_refl in Hin.
    discriminate.
  - intros Hall. apply find_none_intro. intros p Hp. apply String.eqb_neq. exact (Hall p Hp).
Qed.

Lemma get_package_some (name : string) (d : db) (p : package) :
  GetPackage name d = Some p -> In p (packages d) /\ pkg_name p = name.
Proof. unfold GetPackage. intros Hf. apply find_some in Hf as [Hin Hn]. apply String.eqb_eq in Hn. auto. Qed.

Lemma create_package_ok (name : string) (d : db) : db_ok d -> db_ok (CreatePackage name d).2.
Proof.
  intros Hok. destruct (create_package_spec name d) as (p & d1 & H1 & _ & _ & Hc).
  rewrite H1. cbn [snd]. destruct Hc as [[_ ->]|(Hg & -> & ->)];
    destruct Hok as ((Hn & Hk) & Hpi & Hai & Hps & Has & Hpf & Haf & Hfk).
  { unfold db_ok, wf_db. cbn [packages artifacts pkg_seq art_seq].
    split; [split; assumption|]. split; [exact Hpi|]. split; [exact Hai|]. split; [lia|].
    split; [exact Has|]. split; [eapply Forall_impl; [exact Hpf|]; cbv beta; intros; lia|].
    split; assumption. }
  rewrite get_package_none in Hg.
  unfold db_ok, wf_db. cbn [packages artifacts pkg_seq art_seq].
  rewrite !map_app. cbn [map pkg_name pkg_id].
  split; [split; [|exact Hk]|].
  { apply NoDup_snoc; [exact Hn|]. intros Hin. apply in_map_iff in Hin as [q [Hq Hin]].
    exact (Hg q Hin Hq). }
  split.
  { apply NoDup_snoc; [exact Hpi|]. intros Hin. apply in_map_iff in Hin as [q [Hq Hin]].
    rewrite List.Forall_forall in Hpf. specialize (Hpf q Hin). lia. }
  split; [exact Hai|]. split; [lia|]. split; [exact Has|].
  split; [apply Forall_snoc; [|cbn [pkg_id]; lia]; eapply Forall_impl; [exact Hpf|]; cbv beta; intros; lia|].
  split; [exact Haf|].
  eapply Forall_impl; [exact Hfk|]. cbv beta. intros a Ha. apply in_or_app. left. exact Ha.
Qed.

Lemma create_artifact_ok (packageID : Z) (version hash : string) (size now : Z) (d : db) :
  db_ok d -> In packageID (map pkg_id (packages d)) ->
  db_ok (CreateArtifact packageID version hash size now d).2.
Proof.
  intros Hok Hpid. unfold CreateArtifact.
  destruct (existsb _ (artifacts d)) eqn:E; cbn [snd]; [exact Hok|].
  destruct Hok as ((Hn & Hk) & Hpi & Hai & Hps & Has & Hpf & Haf & Hfk).
  unfold db_ok, wf_db. cbn [packages artifacts pkg_seq art_seq].
  rewrite !map_app. cbn [map art_id art_package_id art_version].
  split; [split; [exact Hn|]|].
  { apply NoDup_snoc; [exact Hk|]. intros Hin. apply in_map_iff in Hin as [a [Ha Hin]].
    injection Ha as Hp Hv.
    assert (existsb (fun a => (art_package_id a =? packageID) && String.eqb (art_version a) version)
              (artifacts d) = true) as E'.
    { apply existsb_exists. exists a. split; [exact Hin|]. rewrite Hp, Hv, Z.eqb_refl, String.eqb_refl.
      reflexivity. }
    congruence. }
  split; [exact Hpi|].
  split.
  { apply NoDup_snoc; [exact Hai|]. intros Hin. apply in_map_iff in Hin as [a [Ha Hin]].
    rewrite List.Forall_forall in Haf. specialize (Haf a Hin). lia. }
  split; [exact Hps|]. split; [lia|]. split; [exact Hpf|].
  split; [apply Forall_snoc; [|cbn [art_id]; lia]; eapply Forall_impl; [exact Haf|]; cbv beta; intros; lia|].
  apply Forall_snoc; [exact Hfk|exact Hpid].
Qed.

Lemma delete_artifact_ok (name version : string) (d : db) :
  db_ok d -> db_ok (Meta.DeleteArtifact name version d).2.
Proof.
  intros Hok. unfold Meta.DeleteArtifact. cbv zeta.
  match goal with |- db_ok (if _ then (_, ?d') else (_, ?d')).2 =>
    assert (H : db_ok d'); [|destruct (_ =? _)%nat; exact H] end.
  destruct Hok as ((Hn & Hk) & Hpi & Hai & Hps & Has & Hpf & Haf & Hfk).
  unfold db_ok, wf_db. cbn [packages artifacts pkg_seq art_seq].
  split; [split; [exact Hn|apply NoDup_map_filter; exact Hk]|].
  split; [exact Hpi|]. split; [apply NoDup_map_filter; exact Hai|].
  split; [exact Hps|]. split; [exact Has|]. split; [exact Hpf|].
  split; apply Forall_filter_l; assumption.
Qed.

(** No artifact row of a catalog with no (name, version) row pairs [version]
    with a package named [name], before or after CreatePackage name. *)
Lemma no_row_after_create (name version : string) (d : db) (p : package) (d1 : db) :
  db_ok d -> GetArtifact name version d = None ->
  CreatePackage name d = (SOk (pkg_id p), d1) ->
  ((GetPackage name d = Some p /\ d1 = mkDb (packages d) (artifacts d) (pkg_seq d + 1) (art_seq d)) \/
   (GetPackage name d = None /\ p = mkPackage (pkg_seq d + 1) name /\
    d1 = mkDb (packages d ++ [p]) (artifacts d) (pkg_seq d + 1) (art_seq d))) ->
  forall a q, In a (artifacts d) -> In q (packages d1) -> pkg_name q = name ->
    art_version a = version -> pkg_id q <> art_package_id a.
Proof.
  intros Hok Hg _ Hc a q Ha Hq Hqn Hv Hid.
  destruct Hok as (_ & _ & _ & _ & _ & Hpf & _ & Hfk).
  assert (Hin_d : In q (packages d) -> False).
  { intros Hq'. apply (find_none _ _ Hg) in Ha. rewrite Hv, String.eqb_refl in Ha. cbn [andb] in Ha.
    assert (existsb (fun p0 => (pkg_id p0 =? art_package_id a) && String.eqb (pkg_name p0) name)
              (packages d) = true) as Hex.
    { apply existsb_exists. exists q. split; [exact Hq'|]. rewrite Hid, Z.eqb_refl, Hqn, String.eqb_refl.
      reflexivity. }
    congruence. }
  destruct Hc as [[_ ->]|(_ & -> & ->)]; [cbn [packages] in Hq; exact (Hin_d Hq)|].
  cbn [packages] in Hq. apply in_app_or in Hq as [Hq|[<-|[]]]; [exact (Hin_d Hq)|].
  cbn [pkg_id] in Hid. rewrite List.Forall_forall in Hfk. specialize (Hfk a Ha).
  apply in_map_iff in Hfk as [q' [Hq' Hin]]. rewrite List.Forall_forall in Hpf.
  specialize (Hpf q' Hin). lia.
Qed.

(** CreatePackage followed by CreateArtifact, as UploadArtifact runs them. *)
Lemma create_artifact_spec (name version hash : string) (size now : Z) (d : db) :
  db_ok d -> GetArtifact name version d = None ->
  exists p d1, CreatePackage name d = (SOk (pkg_id p), d1) /\ pkg_name p = name /\
    art_seq d1 = art_seq d /\ db_ok d1 /\ In p (packages d1) /\
    CreateArtifact (pkg_id p) version hash size now d1 =
      (SOk (mkArtifact (art_seq d + 1) (pkg_id p) version hash size now),
       mkDb (packages d1) (artifacts d1 ++ [mkArtifact (art_seq d + 1) (pkg_id p) version hash size now])
            (pkg_seq d1) (art_seq d + 1)) /\
    GetArtifact name version
      (mkDb (packages d1) (artifacts d1 ++ [mkArtifact (art_seq d + 1) (pkg_id p) version hash size now])
            (pkg_seq d1) (art_seq d + 1))
      = Some (mkArtifact (art_seq d + 1) (pkg_id p) version hash size now).
Proof.
  intros Hok Hg.
  destruct (create_package_spec name d) as (p & d1 & H1 & Hg1 & Hn & Hc).
  pose proof (no_row_after_create name version d p d1 Hok Hg H1 Hc) as Hno.
  assert (Ha1 : artifacts d1 = artifacts d /\ art_seq d1 = art_seq d)
    by (destruct Hc as [[_ ->]|(_ & _ & ->)]; split; reflexivity).
  destruct Ha1 as [Ha1 Hs1].
  pose proof (get_package_some _ _ _ Hg1) as [Hp1 _].
  pose proof (create_package_ok name d Hok) as Hok1. rewrite H1 in Hok1. cbn [snd] in Hok1.
  exists p, d1. split; [exact H1|]. split; [exact Hn|]. split; [exact Hs1|].
  split; [exact Hok1|]. split; [exact Hp1|].
  split.
  - unfold CreateArtifact. rewrite Hs1.
    assert (existsb (fun a => (art_package_id a =? pkg_id p) && String.eqb (art_version a) version)
              (artifacts d1) = false) as ->.
    { apply not_true_iff_false. intros Hex. apply existsb_exists in Hex as [a [Ha Hm]].
      apply andb_true_iff in Hm as [Hi Hv]. apply Z.eqb_eq in Hi. apply String.eqb_eq in Hv.
      rewrite Ha1 in Ha. exact (Hno a p Ha Hp1 Hn Hv (eq_sym Hi)). }
    reflexivity.
  - unfold GetArtifact. cbn [artifacts packages]. rewrite find_app.
    rewrite find_none_intro.
    + cbn [find art_version art_package_id]. rewrite String.eqb_refl. cbn [andb].
      assert (existsb (fun q => (pkg_id q =? pkg_id p) && String.eqb (pkg_name q) name)
                (packages d1) = true) as ->.
      { apply existsb_exists. exists p. rewrite Z.eqb_refl, Hn, String.eqb_refl. auto. }
      reflexivity.
    + intros a Ha. rewrite Ha1 in Ha. apply not_true_iff_false. intros Hm.
      apply andb_true_iff in Hm as [Hv Hex]. apply String.eqb_eq in Hv.
      apply existsb_exists in Hex as [q [Hq Hm]]. apply andb_true_iff in Hm as [Hi Hqn].
      apply Z.eqb_eq in Hi. apply String.eqb_eq in Hqn. exact (Hno a q Ha Hq Hqn Hv Hi).
Qed.

Definition newer (a b : artifact) : Prop := art_uploaded_at b <= art_uploaded_at a.

Lemma insert_by_time_perm (a : artifact) (l : list artifact) :
  Permutation (insert_by_time a l) (a :: l).
Proof.
  induction l as [|b l IH]; simpl; [reflexivity|].
  destruct (art_uploaded_at b <=? art_uploaded_at a); [reflexivity|].
  rewrite IH. apply perm_swap.
Qed.

Lemma sort_by_time_perm (l : list artifact) : Permutation (sort_by_time l) l.
Proof.
  induction l as [|a l IH]; simpl; [reflexivity|].
  rewrite insert_by_time_perm, IH. reflexivity.
Qed.

Lemma insert_by_time_sorted (a : artifact) (l : list artifact) :
  Sorted newer l -> Sorted newer (insert_by_time a l).
Proof.
  induction l as [|b l IH]; simpl; intros Hs.
  { repeat constructor. }
  destruct (art_uploaded_at b <=? art_uploaded_at a) eqn:E.
  - apply Z.leb_le in E. constructor; [exact Hs|]. constructor. exact E.
  - apply Z.leb_gt in E. apply Sorted_inv in Hs as [Hs Hhd]. constructor; [exact (IH Hs)|].
    destruct l as [|c l]; simpl.
    + constructor. unfold newer. lia.
    + destruct (art_uploaded_at c <=? art_uploaded_at a); constructor.
      * unfold newer. lia.
      * inversion Hhd; assumption.
Qed.

Lemma sort_by_time_sorted (l : list artifact) : Sorted newer (sort_by_time l).
Proof. induction l as [|a l IH]; simpl; [constructor|]. apply insert_by_time_sorted, IH. Qed.

Lemma list_artifacts_in (name : string) (d : db) (a : artifact) :
  In a (ListArtifacts name d) <->
  In a (artifacts d) /\ exists p, In p (packages d) /\ pkg_id p = art_package_id a /\ pkg_name p = name.
Proof.
  unfold ListArtifacts. split.
  - intros H. apply (Permutation_in _ (sort_by_time_perm _)) in H.
    apply filter_In in H as [Ha Hex]. split; [exact Ha|].
    apply existsb_exists in Hex as [p [Hp Hm]]. apply andb_true_iff in Hm as [Hi Hn].
    apply Z.eqb_eq in Hi. apply String.eqb_eq in Hn. eauto.
  - intros [Ha (p & Hp & Hi & Hn)]. apply (Permutation_in _ (symmetry (sort_by_time_perm _))).
    apply filter_In. split; [exact Ha|]. apply existsb_exists. exists p.
    rewrite Hi, Z.eqb_refl, Hn, String.eqb_refl. auto.
Qed.

Lemma like_all (s : string) : like "%%%" s = true.
Proof.
  change "%%%" with (String "%" "%%"). apply like_percent. exists s, "". split; [|reflexivity].
  induction s as [|ch s IH]; [reflexivity|]. exact (f_equal (String ch) IH).
Qed.

Lemma like_one (s : string) : like "%_%" s = true <-> s <> "".
Proof.
  change "%_%" with (String "%" "_%"). rewrite like_percent. split.
  - intros (pre & [|c suf] & -> & H); [discriminate|].
    destruct pre; discriminate.
  - intros Hs. destruct s as [|c s]; [congruence|]. exists "", (String c s). split; [reflexivity|].
    change (like (String "_" "%") (String c s)) with ((true || Nat.eqb (fold_case "_") (fold_case c)) && like "%" s).
    cbn [orb andb]. change "%" with (String "%" ""). apply like_percent. exists s, "". split; [|reflexivity].
    clear Hs. induction s as [|ch s IH]; [reflexivity|]. exact (f_equal (String ch) IH).
Qed.

End CatalogFacts.

Module CatalogExamples.
Import Storage Meta Handlers MetaExt.

Definition art_alpha : artifact :=
  mkArtifact 1 1 "1.0.0" "2cf24dba5fb0a30e26e83b2ac5b9e29e1b161e5c1fa7425e73043362938b9824" 5 100.

(** One package "alpha" with one version 1.0.0. *)
Definition db_alpha : db := mkDb [mkPackage 1 "alpha"] [art_alpha] 1 1.

Definition w_alpha : world := mkWorld db_alpha (Disk.mkFs ∅ ∅).

Lemma db_alpha_ok : db_ok db_alpha.
Proof.
  unfold db_ok, wf_db, db_alpha. cbn.
  repeat split; try lia; repeat constructor; try (intros Hx; inversion Hx); cbn; try lia.
Qed.

End CatalogExamples.

Module CatalogExtras.
Import Storage Meta Handlers MetaFacts SearchFacts MetaExt CatalogFacts CatalogExamples.

(** X1: CreatePackage never fails: it returns the id of the package named
    [name], appending a row with the next id only when no package has that
    name. A second call with the same name returns the same id and adds no
    row. Every call advances the AUTOINCREMENT counter by one, also when the
    insert is ignored, and leaves the artifact rows as they are. *)
Theorem create_package_idempotent (name : string) (d : db) :
  exists id d1, CreatePackage name d = (SOk id, d1) /\
    CreatePackage name d1 = (SOk id, mkDb (packages d1) (artifacts d1) (pkg_seq d1 + 1) (art_seq d1)) /\
    GetPackage name d1 = Some (mkPackage id name) /\
    (forall p, GetPackage name d = Some p -> id = pkg_id p /\ packages d1 = packages d) /\
    (GetPackage name d = None -> id = pkg_seq d + 1 /\ packages d1 = packages d ++ [mkPackage id name]) /\
    artifacts d1 = artifacts d /\ pkg_seq d1 = pkg_seq d + 1 /\ art_seq d1 = art_seq d.
Proof.
  destruct (create_package_spec name d) as (p & d1 & H1 & Hg & Hn & Hcase).
  destruct (create_package_spec name d1) as (p' & d2 & H2 & Hg' & Hn' & Hcase').
  assert (p' = p /\ d2 = mkDb (packages d1) (artifacts d1) (pkg_seq d1 + 1) (art_seq d1)) as [-> ->].
  { destruct Hcase' as [[Hg2 ->]|[Hg2 _]]; [split; congruence | congruence]. }
  exists (pkg_id p), d1. split; [exact H1|]. split; [exact H2|].
  split; [rewrite Hg; f_equal; apply package_eta; exact Hn|].
  destruct Hcase as [[Hg0 ->]|(Hg0 & -> & ->)]; cbn [packages artifacts pkg_seq art_seq];
    (split; [|split; [|split; [reflexivity|split; reflexivity]]]).
  - intros p0 Hp0. rewrite Hg0 in Hp0. injection Hp0 as <-. auto.
  - intros Hn0. congruence.
  - intros p0 Hp0. congruence.
  - intros _. split; reflexivity.
Qed.

(** X3: the HTTP handlers keep the catalog constraints (unique names,
    unique (package, version) pairs, unique ids at or below the
    AUTOINCREMENT counters, artifacts pointing at existing packages):
    UploadArtifact, DeleteArtifact and GarbageCollect, whatever they answer.
    UploadArtifact passes CreateArtifact only the id CreatePackage has just
    returned; CreateArtifact itself does not check it. *)
Theorem handlers_keep_db_ok (w : world) :
  db_ok (meta w) ->
  (forall pkgName version r now, db_ok (meta (UploadArtifact pkgName version r now w).2)) /\
  (forall pkgName version, db_ok (meta (Handlers.DeleteArtifact pkgName version w).2)) /\
  db_ok (meta (GarbageCollect w).1.2).
Proof.
  intros Hok. split; [|split].
  - intros pkgName version r now. unfold UploadArtifact.
    destruct (_ || _); [exact Hok|].
    destruct (GetArtifact _ _ _); [exact Hok|].
    destruct (Store r (disk w)) as [[[hash size]|e] s1]; [|exact Hok].
    pose proof (create_package_ok pkgName _ Hok) as Hok1.
    destruct (create_package_spec pkgName (meta w)) as (p & d1 & H1 & Hg1 & _ & _).
    rewrite H1 in Hok1 |- *. cbn [snd] in Hok1.
    apply get_package_some in Hg1 as [Hp _].
    pose proof (create_artifact_ok (pkg_id p) version hash size now d1 Hok1 (in_map pkg_id _ _ Hp)) as Hok2.
    destruct (CreateArtifact (pkg_id p) version hash size now d1) as [[a|[| |e]] d2]; exact Hok2.
  - intros pkgName version. unfold Handlers.DeleteArtifact.
    pose proof (delete_artifact_ok pkgName version _ Hok) as Hok1.
    destruct (Meta.DeleteArtifact pkgName version (meta w)) as [[x|[| |e]] d']; exact Hok1.
  - unfold GarbageCollect. destruct (ListBlobs (disk w)); [|exact Hok].
    destruct (gc_loop _ _ _ _ _ _) as [[[? ?] ?] ?]. exact Hok.
Qed.

Lemma handlers_keep_db_ok_witness :
  db_ok (meta w_alpha) /\ db_ok (meta (UploadArtifact "beta" "0.1.0" [] 5 w_alpha).2).
Proof.
  assert (Hok : db_ok (meta w_alpha)) by exact db_alpha_ok.
  split; [exact Hok|].
  exact (proj1 (handlers_keep_db_ok w_alpha Hok) "beta" "0.1.0" [] 5).
Defined.

(** X4: when no row exists for (name, version), CreatePackage followed by
    CreateArtifact inserts the row with the next artifact id, GetArtifact
    then returns exactly that row, and a second CreateArtifact for the same
    package and version fails with ErrConflict and changes nothing. *)
Theorem create_then_get_artifact (name version hash hash' : string) (size size' now now' : Z) (d : db) :
  db_ok d -> GetArtifact name version d = None ->
  exists id d1 d2, CreatePackage name d = (SOk id, d1) /\
    CreateArtifact id version hash size now d1 =
      (SOk (mkArtifact (art_seq d + 1) id version hash size now), d2) /\
    GetArtifact name version d2 = Some (mkArtifact (art_seq d + 1) id version hash size now) /\
    CreateArtifact id version hash' size' now' d2 = (SErr ErrConflict, d2).
Proof.
  intros Hok Hg.
  destruct (create_artifact_spec name version hash size now d Hok Hg)
    as (p & d1 & H1 & Hn & Hs & Hok1 & Hp & H2 & H3).
  eexists (pkg_id p), d1, _. split; [exact H1|]. split; [exact H2|]. split; [exact H3|].
  unfold CreateArtifact. cbn [artifacts].
  assert (existsb (fun a => (art_package_id a =? pkg_id p) && String.eqb (art_version a) version)
            (artifacts d1 ++ [mkArtifact (art_seq d + 1) (pkg_id p) version hash size now]) = true)
    as -> by (rewrite existsb_app; cbn; rewrite Z.eqb_refl, String.eqb_refl, orb_true_r; reflexivity).
  reflexivity.
Qed.

Lemma create_then_get_artifact_witness :
  db_ok db_alpha /\ GetArtifact "beta" "0.1.0" db_alpha = None /\
  exists id d1 d2, CreatePackage "beta" db_alpha = (SOk id, d1) /\
    CreateArtifact id "0.1.0" "h" 3 200 d1 = (SOk (mkArtifact 2 id "0.1.0" "h" 3 200), d2) /\
    GetArtifact "beta" "0.1.0" d2 = Some (mkArtifact 2 id "0.1.0" "h" 3 200) /\
    CreateArtifact id "0.1.0" "h" 3 300 d2 = (SErr ErrConflict, d2).
Proof.
  assert (Hg : GetArtifact "beta" "0.1.0" db_alpha = None) by reflexivity.
  split; [exact db_alpha_ok|]. split; [exact Hg|].
  exact (create_then_get_artifact "beta" "0.1.0" "h" "h" 3 3 200 300 db_alpha db_alpha_ok Hg).
Defined.

(** X6: GET /packages/{name} answers 404 "package <name> not found" exactly
    when no package has that name; otherwise (with unique names) it answers
    200 with that name and exactly that package's versions, newest first. *)
Theorem get_package_route (pkgName : string) (w : world) :
  wf_db (meta w) ->
  (HandlersExt.GetPackage pkgName w =
     HandlersExt.mkPResponse 404 (HandlersExt.PError (sappend ["package "; pkgName; " not found"])) <->
   forall p, In p (packages (meta w)) -> pkg_name p <> pkgName) /\
  (forall p, In p (packages (meta w)) -> pkg_name p = pkgName ->
     exists vs, HandlersExt.GetPackage pkgName w =
                  HandlersExt.mkPResponse 200 (HandlersExt.PInfo pkgName vs) /\
       Sorted newer vs /\
       (forall a, In a vs <-> In a (artifacts (meta w)) /\ art_package_id a = pkg_id p)).
Proof.
  intros [Hnd _]. unfold HandlersExt.GetPackage. split.
  - rewrite <- get_package_none.
    destruct (GetPackage pkgName (meta w)); split; congruence.
  - intros p Hp Hn.
    assert (Hg : GetPackage pkgName (meta w) = Some p).
    { destruct (GetPackage pkgName (meta w)) as [q|] eqn:Hf.
      - apply get_package_some in Hf as [Hq Hqn]. f_equal.
        apply (nodup_map_unique pkg_name _ q p Hnd Hq Hp). congruence.
      - exfalso. exact (proj1 (get_package_none _ _) Hf p Hp Hn). }
    rewrite Hg, Hn. eexists. split; [reflexivity|]. split; [apply sort_by_time_sorted|].
    intros a. rewrite list_artifacts_in. split.
    + intros [Ha (q & Hq & Hi & Hqn)]. split; [exact Ha|].
      rewrite <- Hi. f_equal. apply (nodup_map_unique pkg_name _ q p Hnd Hq Hp). congruence.
    + intros [Ha Hi]. split; [exact Ha|]. exists p. auto.
Qed.

Lemma get_package_route_witness :
  wf_db (meta w_alpha) /\
  HandlersExt.GetPackage "beta" w_alpha =
    HandlersExt.mkPResponse 404 (HandlersExt.PError (sappend ["package "; "beta"; " not found"])).
Proof.
  assert (Hw : wf_db (meta w_alpha)) by exact (proj1 db_alpha_ok).
  split; [exact Hw|]. apply (proj1 (get_package_route "beta" w_alpha Hw)).
  intros p [<-|[]]. cbn. discriminate.
Defined.

(** X7: the search text is put into the LIKE pattern unescaped, so
    ?search=% lists every package, the same as no search, and ?search=_
    lists exactly the packages with a non-empty name. *)
Theorem list_packages_wildcards (w : world) :
  HandlersExt.ListPackages "%" w = HandlersExt.ListPackages "" w /\
  exists l, HandlersExt.ListPackages "_" w = HandlersExt.mkPResponse 200 (HandlersExt.PList l) /\
    Sorted name_le l /\ (forall p, In p l <-> In p (packages (meta w)) /\ pkg_name p <> "").
Proof.
  unfold HandlersExt.ListPackages, SearchPackages, Meta.ListPackages. cbn [String.eqb].
  split.
  - change (String.append "%" (String.append "%" "%")) with "%%%".
    rewrite filter_all_true; [reflexivity|]. intros p _. apply like_all.
  - change (String.append "%" (String.append "_" "%")) with "%_%".
    eexists. split; [reflexivity|]. split; [apply sort_by_name_sorted|].
    intros p. rewrite in_sort_by_name, filter_In, like_one. reflexivity.
Qed.

End CatalogExtras.

Module StorageExtFacts.
Import Disk Storage DiskFacts DigestFacts BlobFacts StoreFacts.

Lemma mkdir_err (p : path) (s s' : fs) (e : oserr) : mkdir_all p s = (Err e, s') -> s' = s.
Proof. unfold mkdir_all. destruct (mkdir_all_from [] p (nodes s)); congruence. Qed.

Lemma create_temp_err (dir : path) (s s' : fs) (e : oserr) : create_temp dir s = (Err e, s') -> s' = s.
Proof.
  unfold create_temp. destruct (resolve (nodes s) dir) as [[c|]|e']; try congruence.
  destruct (fresh_from _ _ _ _); congruence.
Qed.

Lemma rename_cases (src dst : path) (s : fs) :
  (exists e, rename src dst s = (Err e, s)) \/
  (exists c, rename src dst s = (Ok tt, mkFs (<[dst := NFile c]> (delete src (nodes s))) (undeletable s))).
Proof.
  unfold rename. destruct (resolve (nodes s) src) as [[c|]|e]; eauto.
  destruct (walk (nodes s) [] dst); eauto. destruct (nodes s !! dst) as [[]|]; eauto.
Qed.



(** Removing the temp file [tmp/name0] puts every entry of tmp/ back as it
    was in [s0], where [tmp/name0] did not exist. *)
Lemma tmp_clean_remove (s0 s : fs) (name0 : string) (c : bytes) :
  nodes s !! ["tmp"] = Some NDir -> nodes s !! ["tmp"; name0] = Some (NFile c) ->
  ["tmp"; name0] ∉ undeletable s -> nodes s0 !! ["tmp"; name0] = None ->
  (forall name, name <> name0 -> nodes s !! ["tmp"; name] = nodes s0 !! ["tmp"; name]) ->
  forall name, nodes (remove ["tmp"; name0] s).2 !! ["tmp"; name] = nodes s0 !! ["tmp"; name].
Proof.
  intros Ht Hp Hu H0 Hf name. unfold remove. rewrite resolve_tmp by exact Ht. rewrite Hp.
  rewrite (bool_decide_eq_false_2 _ Hu). cbn [snd nodes].
  destruct (decide (name = name0)) as [->|Hne].
  - rewrite lookup_delete_eq. symmetry. exact H0.
  - rewrite lookup_delete_ne by congruence. apply Hf. exact Hne.
Qed.

End StorageExtFacts.

Module StorageExtras.
Import Disk Storage DiskFacts DigestFacts BlobFacts StoreFacts StorageExtFacts.


(** X10: Store never leaves a temp file behind, whether it succeeds or
    fails at any step: every entry of tmp/ is afterwards what it was before
    (provided the temp files it creates can be removed). *)
Theorem store_leaves_no_temp (c : bytes) (s0 : fs) :
  (forall name, ["tmp"; name] ∉ undeletable s0) ->
  forall name, nodes (Store c s0).2 !! ["tmp"; name] = nodes s0 !! ["tmp"; name].
Proof.
  intros Hu. pose proof (digest_len2 c) as Hlen.
  unfold Store. cbv zeta. change (join ["tmp"]) with ["tmp"].
  rewrite join_dir, join_one by lia.
  unfold bind at 1.
  destruct (mkdir_all ["tmp"] s0) as [[u1|e] sA] eqn:HA;
    [|apply mkdir_err in HA; subst sA; intros; reflexivity].
  apply mkdir1_ok in HA as (HA1 & HA2 & HA3).
  assert (HAt : forall name, nodes sA !! ["tmp"; name] = nodes s0 !! ["tmp"; name])
    by (intros; apply HA2; congruence).
  unfold bind at 1.
  destruct (create_temp ["tmp"] sA) as [[p|e] sB] eqn:HB;
    [|apply create_temp_err in HB; subst sB; exact HAt].
  apply create_temp_ok in HB as (HB0 & [name0 ->] & HB1 & HB2). cbn [app] in *.
  set (sC := mkFs (<[["tmp"; name0] := NFile c]> (nodes sB)) (undeletable sB)).
  assert (HCt : nodes sC !! ["tmp"] = Some NDir) by (cbn [sC nodes]; rewrite HB1; lk; exact HA1).
  assert (HCp : nodes sC !! ["tmp"; name0] = Some (NFile c)) by (cbn [sC nodes]; lk; reflexivity).
  assert (HCu : undeletable sC = undeletable s0) by (cbn [sC undeletable]; congruence).
  assert (HCf : forall name, name <> name0 -> nodes sC !! ["tmp"; name] = nodes s0 !! ["tmp"; name])
    by (intros name Hn; cbn [sC nodes]; rewrite HB1; lk; apply HAt).
  assert (H00 : nodes s0 !! ["tmp"; name0] = None) by (rewrite <- HAt; exact HB0).
  unfold cleanup_on_err.
  rewrite (bind_eq (write_all ["tmp"; name0] c) _ sB sC tt eq_refl).
  unfold bind at 1.
  destruct (mkdir_all ["blobs"; BlobDir (digest c)] sC) as [[u2|e] sD] eqn:HD.
  2:{ apply mkdir_err in HD. subst sD. cbn [snd].
      apply (tmp_clean_remove s0 sC name0 c); try assumption. rewrite HCu. apply Hu. }
  apply mkdir2_ok in HD as (HD1 & HD2 & HD3 & HD4).
  assert (HDt : nodes sD !! ["tmp"] = Some NDir) by (rewrite HD3 by congruence; exact HCt).
  assert (HDp : nodes sD !! ["tmp"; name0] = Some (NFile c)) by (rewrite HD3 by congruence; exact HCp).
  assert (HDu : ["tmp"; name0] ∉ undeletable sD) by (rewrite HD4, HCu; apply Hu).
  assert (HDf : forall name, name <> name0 -> nodes sD !! ["tmp"; name] = nodes s0 !! ["tmp"; name])
    by (intros name Hn; rewrite HD3 by congruence; apply HCf; exact Hn).
  pose proof (tmp_clean_remove s0 sD name0 c HDt HDp HDu H00 HDf) as Hrm.
  cbv beta. cbn [app].
  destruct (resolve (nodes sD) ["blobs"; BlobDir (digest c); digest c]) as [n|[]] eqn:HR;
    cbv [bind ignore ret fail]; cbn [snd]; try exact Hrm.
  destruct (rename_cases ["tmp"; name0] ["blobs"; BlobDir (digest c); digest c] sD)
    as [[e ->]|[c' ->]].
  - destruct (resolve (nodes sD) ["blobs"; BlobDir (digest c); digest c]); cbn [snd]; exact Hrm.
  - cbn [snd nodes]. intros name. rewrite lookup_insert_ne by congruence.
    destruct (decide (name = name0)) as [->|Hne].
    + rewrite lookup_delete_eq. symmetry. exact H00.
    + rewrite lookup_delete_ne by congruence. apply HDf. exact Hne.
Qed.

End StorageExtras.

Module FlowExtFacts.
Import Disk Storage Meta Handlers DiskFacts DigestFacts BlobFacts StoreFacts GCFacts FlowFacts.

Lemma stored_open (s : fs) (c : bytes) : stored s (digest c) c -> Open s (digest c) = SOk (NFile c).
Proof.
  intros (H1 & H2 & H3 & H4). unfold Open.
  rewrite (BlobPath_eq (digest c) (digest_len2 c)) in H4 |- *.
  rewrite resolve_blob by assumption. rewrite H4. reflexivity.
Qed.

Lemma walk_ext (m m' : gmap path node) (pre p : path) :
  (forall q r, q ++ r = pre ++ p -> m !! q = m' !! q) -> walk m pre p = walk m' pre p.
Proof.
  revert pre. induction p as [|d rest IH]; intros pre H; [reflexivity|].
  destruct rest as [|d' rest']; [reflexivity|].
  cbn [walk]. rewrite (H (pre ++ [d]) (d' :: rest')) by (rewrite <- app_assoc; reflexivity).
  destruct (m' !! (pre ++ [d])) as [[]|]; try reflexivity.
  apply IH. intros q r Hq. apply (H q r). rewrite Hq, <- app_assoc. reflexivity.
Qed.

(** Resolution only reads the path and its ancestors. *)
Lemma resolve_ext (m m' : gmap path node) (p : path) :
  (forall q r, q ++ r = p -> m !! q = m' !! q) -> resolve m p = resolve m' p.
Proof.
  intros H. unfold resolve. rewrite (walk_ext m m' [] p) by exact H.
  rewrite (H p []) by apply app_nil_r. reflexivity.
Qed.

Lemma BlobPath_length (h : string) : (length (BlobPath h) <= 3)%nat.
Proof.
  unfold BlobPath, join. cbn [List.filter].
  destruct (negb (String.eqb "blobs" "")), (negb (String.eqb (BlobDir h) "")), (negb (String.eqb h ""));
    cbn; lia.
Qed.

Lemma BlobPath_inj_r (h h' : string) :
  (2 <= String.length h')%nat -> BlobPath h = BlobPath h' -> h = h'.
Proof.
  intros H'. rewrite (BlobPath_eq h' H'). unfold BlobPath, join. cbn [List.filter].
  destruct (String.eqb (BlobDir h) ""), (String.eqb h ""); cbn; intros Heq; congruence.
Qed.

(** A GC run changes no path that is the blob path of a referenced hash
    or an ancestor of one. *)
Lemma gc_frame_referenced (w : world) (r : response) (w' : world) (lg : list log_entry) (h : string) :
  GarbageCollect w = (r, w', lg) -> h ∈ ReferencedHashes (meta w) ->
  meta w' = meta w /\
  forall q rest, q ++ rest = BlobPath h -> nodes (disk w') !! q = nodes (disk w) !! q.
Proof.
  unfold GarbageCollect. intros H Hh.
  destruct (ListBlobs (disk w)) as [D|e] eqn:HL; [|injection H as _ <- _; auto].
  destruct (gc_loop (ReferencedHashes (meta w)) D 0 0 (disk w) []) as [[[dl fr] s'] lg'] eqn:HG.
  injection H as _ <- _. cbn [meta disk]. split; [reflexivity|].
  intros q rest Hq.
  assert (Hfr := gc_loop_frame (ReferencedHashes (meta w)) D 0 0 (disk w) [] q).
  rewrite HG in Hfr. apply Hfr.
  intros h' Hin Hn ->.
  assert (Hl : (2 <= String.length h')%nat) by exact (ListBlobs_hex _ _ HL h' Hin).
  assert (rest = []).
  { pose proof (BlobPath_length h) as Hlen. rewrite <- Hq, length_app, (BlobPath_eq h' Hl) in Hlen.
    cbn in Hlen. destruct rest; [reflexivity|cbn in Hlen; lia]. }
  subst rest. rewrite app_nil_r in Hq. symmetry in Hq. apply BlobPath_inj_r in Hq; [|exact Hl].
  subst h'. exact (Hn Hh).
Qed.

End FlowExtFacts.

Module FlowExtras.
Import Disk Storage Meta Handlers DiskFacts DigestFacts BlobFacts StoreFacts GCFacts FlowFacts
       MetaFacts MetaExt CatalogFacts StorageExtras FlowExtFacts.

(** X8: a 201 upload (onto a catalog that keeps its constraints, with the
    blob path absent or already holding the same bytes) reports the SHA-256
    of the body, its length and the upload time; afterwards the download of
    the same package and version answers 200 with exactly the uploaded
    bytes, the catalog still keeps its constraints, and the hash is among
    the referenced hashes. *)
Theorem upload_then_download (pkgName version : string) (c : bytes) (now : Z)
    (w0 w1 : world) (r1 : response) :
  db_ok (meta w0) ->
  (nodes (disk w0) !! BlobPath (digest c) = None \/
   nodes (disk w0) !! BlobPath (digest c) = Some (NFile c)) ->
  UploadArtifact pkgName version c now w0 = (r1, w1) -> status r1 = 201 ->
  r1 = mkResponse 201 (BUpload pkgName version (digest c) (Z.of_nat (length c)) now) /\
  DownloadArtifact pkgName version w1 = mkResponse 200 (BBlob c) /\
  db_ok (meta w1) /\ digest c ∈ ReferencedHashes (meta w1).
Proof.
  intros Hok Hc H Hs. unfold UploadArtifact in H.
  destruct (String.eqb pkgName "" || String.eqb version ""); [injection H as <- <-; discriminate|].
  destruct (GetArtifact pkgName version (meta w0)) eqn:Hg; [injection H as <- <-; discriminate|].
  destruct (Store c (disk w0)) as [[[h n]|e] s1] eqn:HS; [|injection H as <- <-; discriminate].
  destruct (Store_first c (disk w0) s1 h n Hc HS) as (-> & -> & Hst & _).
  destruct (create_artifact_spec pkgName version (digest c) (Z.of_nat (length c)) now (meta w0) Hok Hg)
    as (p & d1 & H1 & Hn & Hs1 & Hok1 & Hp & H2 & H3).
  rewrite H1, H2 in H. injection H as <- <-. cbn [art_hash art_size art_uploaded_at].
  split; [reflexivity|]. split.
  - unfold DownloadArtifact. cbn [meta disk]. rewrite H3. cbn [art_hash].
    rewrite stored_open by exact Hst. reflexivity.
  - split.
    + pose proof (create_artifact_ok (pkg_id p) version (digest c) (Z.of_nat (length c)) now d1
                    Hok1 (in_map pkg_id _ _ Hp)) as Hok2.
      rewrite H2 in Hok2. exact Hok2.
    + unfold ReferencedHashes. cbn [meta artifacts]. apply elem_of_list_to_set, list_elem_of_In.
      rewrite map_app. apply in_or_app. right. left. reflexivity.
Qed.

(** X11: garbage collection leaves the catalog as it is and never changes
    the answer of any download: every artifact that could be downloaded
    before a GC run is downloaded with the same bytes after it, and every
    failing download fails the same way. *)
Theorem gc_keeps_downloads (w w' : world) (r : response) (lg : list log_entry) :
  GarbageCollect w = (r, w', lg) ->
  meta w' = meta w /\
  forall pkgName version, DownloadArtifact pkgName version w' = DownloadArtifact pkgName version w.
Proof.
  intros H.
  assert (Hm : meta w' = meta w).
  { unfold GarbageCollect in H. destruct (ListBlobs (disk w)); [|injection H as _ <- _; reflexivity].
    destruct (gc_loop _ _ _ _ _ _) as [[[? ?] ?] ?]. injection H as _ <- _. reflexivity. }
  split; [exact Hm|]. intros pkgName version.
  unfold DownloadArtifact. rewrite Hm.
  destruct (GetArtifact pkgName version (meta w)) as [a|] eqn:Hg; [|reflexivity].
  apply GetArtifact_some in Hg.
  assert (Hh : art_hash a ∈ ReferencedHashes (meta w)).
  { unfold ReferencedHashes. apply elem_of_list_to_set, list_elem_of_In, in_map.
    destruct Hg as [Ha _]. exact Ha. }
  destruct (gc_frame_referenced w r w' lg (art_hash a) H Hh) as [_ Hq].
  unfold Open. rewrite (resolve_ext (nodes (disk w')) (nodes (disk w)) (BlobPath (art_hash a))).
  - reflexivity.
  - exact Hq.
Qed.

End FlowExtras.

Module FlowExamples.
Import Disk Storage Meta Handlers StoreClaims GCExamples MetaExt StorageExtras FlowExtras.

Lemma empty_db_ok : db_ok (meta w_empty).
Proof.
  unfold db_ok, wf_db. cbn. repeat split; try lia; constructor.
Qed.

Lemma upload_then_download_witness :
  db_ok (meta w_empty) /\ status run_upload.1 = 201 /\
  DownloadArtifact "demo" "1.0.0" run_upload.2 = mkResponse 200 (BBlob gc_body).
Proof.
  assert (Hs : status run_upload.1 = 201) by (vm_compute; reflexivity).
  split; [exact empty_db_ok|]. split; [exact Hs|].
  refine (proj1 (proj2 (upload_then_download "demo" "1.0.0" gc_body 0 w_empty run_upload.2 run_upload.1
            empty_db_ok _ _ Hs))).
  - left. vm_compute. reflexivity.
  - unfold run_upload. destruct (UploadArtifact "demo" "1.0.0" gc_body 0 w_empty); reflexivity.
Defined.

Lemma store_leaves_no_temp_witness :
  (forall name, ["tmp"; name] ∉ undeletable fs_empty) /\
  nodes (Store hello_body fs_empty).2 !! ["tmp"; "upload-0"] = None.
Proof.
  assert (Hu : forall name, ["tmp"; name] ∉ undeletable fs_empty) by (intros name; cbn; set_solver).
  split; [exact Hu|]. rewrite (store_leaves_no_temp hello_body fs_empty Hu). reflexivity.
Defined.

Lemma gc_keeps_downloads_witness :
  GarbageCollect run_upload.2 =
    ((GarbageCollect run_upload.2).1.1, (GarbageCollect run_upload.2).1.2, (GarbageCollect run_upload.2).2) /\
  DownloadArtifact "demo" "1.0.0" (GarbageCollect run_upload.2).1.2 = mkResponse 200 (BBlob gc_body).
Proof.
  assert (E : GarbageCollect run_upload.2 =
    ((GarbageCollect run_upload.2).1.1, (GarbageCollect run_upload.2).1.2, (GarbageCollect run_upload.2).2))
    by (destruct (GarbageCollect run_upload.2) as [[? ?] ?]; reflexivity).
  split; [exact E|].
  rewrite (proj2 (gc_keeps_downloads _ _ _ _ E)). vm_compute. reflexivity.
Defined.

End FlowExamples.

(** ** auth.TokenAuth and Handler.authMiddleware *)
Module Auth.
Local Open Scope nat_scope.

(** NewTokenAuth: m[t] = true for every configured token. *)
Definition NewTokenAuth (tokens : list string) : gmap string bool :=
  fold_left (fun m t => <[t := true]> m) tokens ∅.

(** ValidateToken: a.tokens[token], false when absent. *)
Definition ValidateToken (a : gmap string bool) (token : string) : bool :=
  match a !! token with Some b => b | None => false end.

(** The ASCII spaces of unicode.IsSpace: \t \n \v \f \r and ' '. *)
Definition is_space1 (b : nat) : bool :=
  (b =? 9) || (b =? 10) || (b =? 11) || (b =? 12) || (b =? 13) || (b =? 32).

(** The non-ASCII spaces of unicode.IsSpace in UTF-8: U+0085 and U+00A0
    (C2 85, C2 A0); U+1680 (E1 9A 80), U+2000..U+200A (E2 80 80..8A),
    U+2028, U+2029, U+202F (E2 80 A8, A9, AF), U+205F (E2 81 9F) and U+3000
    (E3 80 80). *)
Definition space2 (a b : nat) : bool := (a =? 194) && ((b =? 133) || (b =? 160)).

Definition space3 (a b c : nat) : bool :=
  ((a =? 225) && (b =? 154) && (c =? 128)) ||
  ((a =? 226) && (b =? 128) &&
     (((128 <=? c) && (c <=? 138)) || (c =? 168) || (c =? 169) || (c =? 175))) ||
  ((a =? 226) && (b =? 129) && (c =? 159)) ||
  ((a =? 227) && (b =? 128) && (c =? 128)).

(** utf8.DecodeRuneInString followed by unicode.IsSpace: the size of the
    first rune of [s] when it is a space, else 0 (an invalid sequence
    decodes to RuneError, which is not a space). *)
Definition space_len (s : string) : nat :=
  match s with
  | EmptyString => 0
  | String a rest =>
      if is_space1 (nat_of_ascii a) then 1 else
      match rest with
      | EmptyString => 0
      | String b rest2 =>
          if space2 (nat_of_ascii a) (nat_of_ascii b) then 2 else
          match rest2 with
          | EmptyString => 0
          | String c _ => if space3 (nat_of_ascii a) (nat_of_ascii b) (nat_of_ascii c) then 3 else 0
          end
      end
  end.

(** Does [s] end with a space rune of [k] bytes? *)
Definition ends_with_space (s : string) (k : nat) : bool :=
  (k <=? String.length s) && (space_len (substring (String.length s - k) k s) =? k).

(** utf8.DecodeLastRuneInString followed by unicode.IsSpace: the size of
    the last rune when it is a space, else 0 (a space rune ends in an ASCII
    byte or a continuation byte after its own lead byte, so at most one of
    the three sizes fits). *)
Definition trailing_len (s : string) : nat :=
  if ends_with_space s 1 then 1
  else if ends_with_space s 2 then 2
  else if ends_with_space s 3 then 3
  else 0.

(** strings.TrimLeftFunc(s, unicode.IsSpace); each round drops at least one
    byte, so [String.length s] rounds suffice. *)
Fixpoint trim_left_space (fuel : nat) (s : string) : string :=
  match fuel with
  | O => s
  | S f => if space_len s =? 0 then s
           else trim_left_space f (substring (space_len s) (String.length s - space_len s) s)
  end.

(** strings.TrimRightFunc(s, unicode.IsSpace) *)
Fixpoint trim_right_space (fuel : nat) (s : string) : string :=
  match fuel with
  | O => s
  | S f => if trailing_len s =? 0 then s
           else trim_right_space f (substring 0 (String.length s - trailing_len s) s)
  end.

(** strings.TrimSpace: its ASCII fast paths give the same string as
    TrimFunc(s, unicode.IsSpace), that is TrimRightFunc(TrimLeftFunc(s)). *)
Definition TrimSpace (s : string) : string :=
  trim_right_space (String.length s) (trim_left_space (String.length s) s).

(** strings.HasPrefix and strings.TrimPrefix *)
Definition HasPrefix (s pre : string) : bool := String.prefix pre s.

Definition TrimPrefix (s pre : string) : string :=
  if HasPrefix s pre then substring (String.length pre) (String.length s - String.length pre) s else s.

(** What the middleware does with a request: answer 401 with a message, or
    call the next handler (after ValidateToken accepted [token]). *)
Inductive auth_result := Reject (status : Z) (msg : string) | Pass (token : string).

(** Handler.authMiddleware on the Authorization header (r.Header.Get
    returns "" when it is missing). *)
Definition authMiddleware (auth : gmap string bool) (authorization : string) : auth_result :=
  let header := TrimSpace authorization in
  if negb (HasPrefix header "Bearer ") then Reject 401%Z "missing or invalid authorization header"
  else
    let token := TrimSpace (TrimPrefix header "Bearer ") in
    if negb (ValidateToken auth token) then Reject 401%Z "invalid token"
    else Pass token.

End Auth.

Module AuthFacts.
Import Auth.
Local Open Scope nat_scope.

(** [sp] is the encoding of exactly one space rune. *)
Definition is_space_rune (sp : string) : Prop :=
  0 < String.length sp /\ space_len sp = String.length sp.

Lemma validate_new (tokens : list string) (t : string) :
  ValidateToken (NewTokenAuth tokens) t = true <-> In t tokens.
Proof.
  unfold NewTokenAuth.
  assert (H : forall m, ValidateToken (fold_left (fun m t => <[t := true]> m) tokens m) t =
                        ValidateToken m t || existsb (String.eqb t) tokens).
  { induction tokens as [|x l IH]; intros m; cbn [fold_left existsb]; [rewrite orb_false_r; reflexivity|].
    rewrite IH. unfold ValidateToken. destruct (String.eqb t x) eqn:E.
    - apply String.eqb_eq in E. subst x. rewrite lookup_insert_eq. cbn [orb].
      rewrite orb_true_r. reflexivity.
    - apply String.eqb_neq in E. rewrite lookup_insert_ne by congruence. reflexivity. }
  rewrite H. unfold ValidateToken at 1. rewrite lookup_empty. cbn [orb]. rewrite existsb_exists. split.
  - intros [x [Hx He]]. apply String.eqb_eq in He. subst x. exact Hx.
  - intros Hx. exists t. rewrite String.eqb_refl. auto.
Qed.

Lemma append_nil_l (s : string) : String.append "" s = s.
Proof. reflexivity. Qed.

Lemma append_nil_r (s : string) : String.append s "" = s.
Proof. induction s as [|a s IH]; [reflexivity|]. rewrite string_append_cons, IH. reflexivity. Qed.

Lemma length_app (a b : string) : String.length (String.append a b) = String.length a + String.length b.
Proof. induction a as [|c a IH]; [reflexivity|]. rewrite string_append_cons. cbn. rewrite IH. reflexivity. Qed.

Lemma substring_full (s : string) : substring 0 (String.length s) s = s.
Proof. induction s as [|a s IH]; [reflexivity|]. cbn. rewrite IH. reflexivity. Qed.

Lemma substring_length_sat (s : string) (i m : nat) :
  i + m <= String.length s -> String.length (substring i m s) = m.
Proof.
  revert i m. induction s as [|a s IH]; intros i m H.
  - cbn in H. assert (m = 0) as -> by lia. destruct i; reflexivity.
  - destruct i as [|i].
    + destruct m as [|m]; [reflexivity|]. cbn in *. rewrite IH; lia.
    + cbn in *. apply IH. lia.
Qed.

Lemma substring_split (s : string) (k : nat) :
  k <= String.length s -> s = String.append (substring 0 k s) (substring k (String.length s - k) s).
Proof.
  revert k. induction s as [|a s IH]; intros k H.
  - cbn in H. assert (k = 0) as -> by lia. reflexivity.
  - destruct k as [|k].
    + rewrite Nat.sub_0_r, substring_full. reflexivity.
    + cbn [substring String.length]. rewrite string_append_cons. cbn [String.length] in H.
      f_equal. apply IH. lia.
Qed.

Lemma substring_app_r (q t : string) (i m : nat) :
  substring (String.length q + i) m (String.append q t) = substring i m t.
Proof. induction q as [|a q IH]; [reflexivity|]. rewrite string_append_cons. cbn. exact IH. Qed.

Lemma substring_rest (sp rest : string) :
  substring (String.length sp) (String.length (String.append sp rest) - String.length sp)
            (String.append sp rest) = rest.
Proof.
  rewrite length_app. replace (String.length sp + String.length rest - String.length sp)
    with (String.length rest) by lia.
  rewrite <- (Nat.add_0_r (String.length sp)) at 1. rewrite substring_app_r. apply substring_full.
Qed.

Lemma space_len_le3 (s : string) : space_len s <= 3.
Proof.
  destruct s as [|a [|b [|c r]]]; cbn [space_len];
    repeat match goal with |- context [if ?b then _ else _] => destruct b end; lia.
Qed.

(** A space rune at the front of [s]. *)
Lemma space_front (s : string) :
  space_len s <> 0 ->
  exists sp rest, s = String.append sp rest /\ is_space_rune sp /\ String.length sp = space_len s.
Proof.
  unfold is_space_rune. intros H. destruct s as [|a r]; [cbn in H; congruence|].
  destruct (is_space1 (nat_of_ascii a)) eqn:E1.
  { exists (String a ""), r. cbn [space_len String.length]. rewrite E1. split; [reflexivity|]. lia. }
  destruct r as [|b r2]; [cbn [space_len] in H; rewrite E1 in H; congruence|].
  destruct (space2 (nat_of_ascii a) (nat_of_ascii b)) eqn:E2.
  { exists (String a (String b "")), r2. cbn [space_len String.length]. rewrite E1, E2.
    split; [reflexivity|]. lia. }
  destruct r2 as [|c r3]; [cbn [space_len] in H; rewrite E1, E2 in H; congruence|].
  destruct (space3 (nat_of_ascii a) (nat_of_ascii b) (nat_of_ascii c)) eqn:E3.
  { exists (String a (String b (String c ""))), r3. cbn [space_len String.length]. rewrite E1, E2, E3.
    split; [reflexivity|]. lia. }
  cbn [space_len] in H. rewrite E1, E2, E3 in H. congruence.
Qed.

(** The rune at the front is decided by the first bytes alone. *)
Lemma space_len_app (r z : string) : space_len r <> 0 -> space_len (String.append r z) = space_len r.
Proof.
  intros Hr. destruct r as [|a [|b [|c r]]]; [cbn in Hr; congruence| | |].
  - rewrite string_append_cons, append_nil_l. cbn [space_len] in *.
    destruct (is_space1 (nat_of_ascii a)); [reflexivity|congruence].
  - rewrite !string_append_cons, append_nil_l. cbn [space_len] in *.
    destruct (is_space1 (nat_of_ascii a)); [reflexivity|].
    destruct (space2 (nat_of_ascii a) (nat_of_ascii b)); [reflexivity|congruence].
  - rewrite !string_append_cons. reflexivity.
Qed.

Lemma trim_left_suffix (fuel : nat) (s : string) :
  exists z, s = String.append z (trim_left_space fuel s) /\
    (z = "" \/ exists z' sp, z = String.append z' sp /\ is_space_rune sp).
Proof.
  revert s. induction fuel as [|f IH]; intros s; cbn [trim_left_space].
  - exists "". split; [reflexivity|left; reflexivity].
  - destruct (Nat.eqb_spec (space_len s) 0) as [H0|H0].
    + exists "". split; [reflexivity|left; reflexivity].
    + destruct (space_front s H0) as (sp & rest & Hs & Hsp & Hl).
      assert (Hsub : substring (space_len s) (String.length s - space_len s) s = rest)
        by (rewrite <- Hl, Hs; apply substring_rest).
      rewrite Hsub. destruct (IH rest) as (z1 & Hz1 & Hc).
      exists (String.append sp z1). split.
      * rewrite Hs at 1. rewrite Hz1 at 1. apply string_append_assoc.
      * right. destruct Hc as [->|(z' & sp' & -> & Hsp')].
        -- exists "", sp. split; [rewrite append_nil_r; reflexivity|exact Hsp].
        -- exists (String.append sp z'), sp'. split; [apply string_append_assoc|exact Hsp'].
Qed.

Lemma trim_left_done (fuel : nat) (s : string) :
  String.length s <= fuel -> space_len (trim_left_space fuel s) = 0.
Proof.
  revert s. induction fuel as [|f IH]; intros s Hs; cbn [trim_left_space].
  - destruct s; [reflexivity|cbn in Hs; lia].
  - destruct (Nat.eqb_spec (space_len s) 0) as [H0|H0]; [exact H0|].
    destruct (space_front s H0) as (sp & rest & Hs' & [Hsp _] & Hl).
    rewrite <- Hl. rewrite Hs'. rewrite substring_rest. apply IH.
    rewrite Hs', length_app in Hs. lia.
Qed.

Lemma trim_left_id (fuel : nat) (s : string) : space_len s = 0 -> trim_left_space fuel s = s.
Proof. intros H. destruct fuel; cbn [trim_left_space]; [reflexivity|]. rewrite H. reflexivity. Qed.

Lemma ends_with_space_spec (s : string) (k : nat) :
  ends_with_space s k = true ->
  exists L sp, s = String.append L sp /\ String.length sp = k /\ space_len sp = k /\
    substring 0 (String.length s - k) s = L.
Proof.
  unfold ends_with_space. intros H. apply andb_true_iff in H as [Hk Hs].
  apply Nat.leb_le in Hk. apply Nat.eqb_eq in Hs.
  exists (substring 0 (String.length s - k) s), (substring (String.length s - k) k s).
  split.
  - pose proof (substring_split s (String.length s - k) ltac:(lia)) as Hsp.
    replace (String.length s - (String.length s - k)) with k in Hsp by lia. exact Hsp.
  - split; [apply substring_length_sat; lia|]. split; [exact Hs|reflexivity].
Qed.

Lemma trailing_len_spec (s : string) :
  trailing_len s <> 0 ->
  exists L sp, s = String.append L sp /\ is_space_rune sp /\ String.length sp = trailing_len s /\
    substring 0 (String.length s - trailing_len s) s = L.
Proof.
  unfold trailing_len, is_space_rune. intros H.
  destruct (ends_with_space s 1) eqn:E1;
    [|destruct (ends_with_space s 2) eqn:E2;
      [|destruct (ends_with_space s 3) eqn:E3; [|congruence]]];
    match goal with E : ends_with_space s ?k = true |- _ =>
      destruct (ends_with_space_spec s k E) as (L & sp & Hs & Hl & Hsl & HL) end;
    exists L, sp; repeat split; try assumption; lia.
Qed.

Lemma trailing_len_le3 (s : string) : trailing_len s <= 3.
Proof.
  unfold trailing_len. destruct (ends_with_space s 1); [lia|].
  destruct (ends_with_space s 2); [lia|]. destruct (ends_with_space s 3); lia.
Qed.

Lemma trim_right_prefix (fuel : nat) (s : string) :
  exists z, s = String.append (trim_right_space fuel s) z.
Proof.
  revert s. induction fuel as [|f IH]; intros s; cbn [trim_right_space].
  - exists "". symmetry. apply append_nil_r.
  - destruct (Nat.eqb_spec (trailing_len s) 0) as [H0|H0].
    + exists "". symmetry. apply append_nil_r.
    + destruct (trailing_len_spec s H0) as (L & sp & Hs & _ & _ & HL). rewrite HL.
      destruct (IH L) as [z Hz]. exists (String.append z sp).
      rewrite Hs at 1. rewrite Hz at 1. symmetry. apply string_append_assoc.
Qed.

Lemma trim_right_changed (fuel : nat) (s : string) :
  trim_right_space fuel s <> s -> exists L sp, s = String.append L sp /\ is_space_rune sp.
Proof.
  destruct fuel as [|f]; cbn [trim_right_space]; [congruence|].
  destruct (Nat.eqb_spec (trailing_len s) 0) as [H0|H0]; [congruence|].
  intros _. destruct (trailing_len_spec s H0) as (L & sp & Hs & Hsp & _). eauto.
Qed.

Lemma trim_right_done (fuel : nat) (s : string) :
  String.length s <= fuel -> trailing_len (trim_right_space fuel s) = 0.
Proof.
  revert s. induction fuel as [|f IH]; intros s Hs; cbn [trim_right_space].
  - destruct s; [reflexivity|cbn in Hs; lia].
  - destruct (Nat.eqb_spec (trailing_len s) 0) as [H0|H0]; [exact H0|].
    destruct (trailing_len_spec s H0) as (L & sp & Hs' & [Hsp _] & Hl & HL). rewrite HL.
    apply IH. rewrite Hs', length_app in Hs. lia.
Qed.

Lemma trim_right_id (fuel : nat) (s : string) : trailing_len s = 0 -> trim_right_space fuel s = s.
Proof. intros H. destruct fuel; cbn [trim_right_space]; [reflexivity|]. rewrite H. reflexivity. Qed.

Lemma trim_right_front (fuel : nat) (s : string) :
  space_len s = 0 -> space_len (trim_right_space fuel s) = 0.
Proof.
  intros H. destruct (trim_right_prefix fuel s) as [z Hz].
  destruct (Nat.eq_dec (space_len (trim_right_space fuel s)) 0) as [E|E]; [exact E|].
  rewrite Hz, (space_len_app _ _ E) in H. exfalso. exact (E H).
Qed.

(** A string ending in a space rune has a trailing space. *)
Lemma trailing_of_space (q sp : string) : is_space_rune sp -> trailing_len (String.append q sp) <> 0.
Proof.
  intros [Hpos Hsl]. pose proof (space_len_le3 sp) as H3.
  assert (Hk : ends_with_space (String.append q sp) (String.length sp) = true).
  { unfold ends_with_space. rewrite length_app.
    replace (String.length q + String.length sp - String.length sp) with (String.length q + 0) by lia.
    rewrite substring_app_r, substring_full, Hsl, Nat.eqb_refl, andb_true_r.
    apply Nat.leb_le. lia. }
  unfold trailing_len.
  assert (String.length sp = 1 \/ String.length sp = 2 \/ String.length sp = 3) as [E|[E|E]] by lia;
    rewrite E in Hk; rewrite Hk;
    repeat match goal with |- context [if ?b then _ else _] => destruct b end; discriminate.
Qed.

Lemma TrimSpace_clean (s : string) :
  space_len (TrimSpace s) = 0 /\ trailing_len (TrimSpace s) = 0.
Proof.
  unfold TrimSpace. destruct (trim_left_suffix (String.length s) s) as (z & Hz & _).
  assert (Hl : String.length (trim_left_space (String.length s) s) <= String.length s)
    by (pose proof (f_equal String.length Hz) as E; rewrite length_app in E; lia).
  split.
  - apply trim_right_front, trim_left_done. lia.
  - apply trim_right_done. exact Hl.
Qed.

Lemma TrimSpace_idem (s : string) : TrimSpace (TrimSpace s) = TrimSpace s.
Proof.
  destruct (TrimSpace_clean s) as [H1 H2].
  unfold TrimSpace at 1. rewrite trim_left_id by exact H1. apply trim_right_id. exact H2.
Qed.

(** TrimSpace gives "" only on "" or on a string ending in a space rune. *)
Lemma TrimSpace_empty (r : string) :
  TrimSpace r = "" -> r = "" \/ exists r' sp, r = String.append r' sp /\ is_space_rune sp.
Proof.
  unfold TrimSpace. set (L := trim_left_space (String.length r) r).
  destruct (trim_left_suffix (String.length r) r) as (z & Hz & Hc). fold L in Hz.
  intros He.
  destruct (string_dec (trim_right_space (String.length r) L) L) as [Hid|Hne].
  - rewrite Hid in He. rewrite He, append_nil_r in Hz.
    destruct Hc as [->|(z' & sp & -> & Hsp)]; [left; exact Hz|right; eauto].
  - destruct (trim_right_changed _ _ Hne) as (L1 & sp & HL & Hsp). right.
    exists (String.append z L1), sp. split; [|exact Hsp].
    rewrite Hz, HL. apply string_append_assoc.
Qed.

Lemma prefix_split (p s : string) :
  String.prefix p s = true -> s = String.append p (substring (String.length p) (String.length s - String.length p) s).
Proof.
  revert s. induction p as [|a p IH]; intros s H.
  - cbn [String.length]. rewrite Nat.sub_0_r, substring_full. reflexivity.
  - destruct s as [|b s]; [discriminate|]. cbn in H.
    destruct (ascii_dec a b) as [<-|]; [|discriminate].
    rewrite string_append_cons. cbn [String.length substring]. f_equal. apply IH. exact H.
Qed.

Lemma prefix_app (p t : string) : String.prefix p (String.append p t) = true.
Proof.
  induction p as [|a p IH]; [destruct t; reflexivity|].
  rewrite string_append_cons. cbn. destruct (ascii_dec a a) as [_|n]; [exact IH|congruence].
Qed.

Lemma has_prefix_app (p t : string) : HasPrefix (String.append p t) p = true.
Proof. apply prefix_app. Qed.

Lemma trim_prefix_app (p t : string) : TrimPrefix (String.append p t) p = t.
Proof.
  unfold TrimPrefix. rewrite has_prefix_app.
  rewrite <- (Nat.add_0_r (String.length p)) at 1. rewrite substring_app_r, length_app.
  replace (String.length p + String.length t - String.length p) with (String.length t) by lia.
  apply substring_full.
Qed.

Lemma ends_with_space_app (p t : string) (k : nat) :
  k <= String.length t -> ends_with_space (String.append p t) k = ends_with_space t k.
Proof.
  intros Hk. unfold ends_with_space. rewrite length_app.
  replace (String.length p + String.length t - k) with (String.length p + (String.length t - k)) by lia.
  rewrite substring_app_r.
  replace (k <=? String.length p + String.length t) with true by (symmetry; apply Nat.leb_le; lia).
  replace (k <=? String.length t) with true by (symmetry; apply Nat.leb_le; lia).
  reflexivity.
Qed.

(** After "Bearer ", the trailing rune is that of the token. *)
Lemma trailing_bearer (t : string) :
  t <> "" -> trailing_len (String.append "Bearer " t) = trailing_len t.
Proof.
  intros Ht. destruct t as [|a [|b [|c t']]]; [congruence| | |].
  - unfold trailing_len. rewrite (ends_with_space_app _ _ 1) by (cbn; lia).
    destruct (ends_with_space (String a "") 1); reflexivity.
  - unfold trailing_len. rewrite (ends_with_space_app _ _ 1), (ends_with_space_app _ _ 2) by (cbn; lia).
    destruct (ends_with_space (String a (String b "")) 1); [reflexivity|].
    destruct (ends_with_space (String a (String b "")) 2); reflexivity.
  - unfold trailing_len.
    rewrite (ends_with_space_app _ _ 1), (ends_with_space_app _ _ 2), (ends_with_space_app _ _ 3)
      by (cbn; lia).
    reflexivity.
Qed.

End AuthFacts.

Module AuthExtras.
Import Auth AuthFacts.
Local Open Scope nat_scope.

(** X12: a request gets past authMiddleware only with a token that is
    configured, non-empty and without surrounding Unicode whitespace; so a
    configured "" or " tok " can never authenticate. *)
Theorem auth_pass_token (tokens : list string) (authorization token : string) :
  authMiddleware (NewTokenAuth tokens) authorization = Pass token ->
  In token tokens /\ token <> "" /\ TrimSpace token = token.
Proof.
  unfold authMiddleware. cbv zeta.
  set (header := TrimSpace authorization).
  destruct (HasPrefix header "Bearer ") eqn:Hp; cbn [negb]; [|discriminate].
  set (rest := TrimPrefix header "Bearer ").
  destruct (ValidateToken (NewTokenAuth tokens) (TrimSpace rest)) eqn:Hv; cbn [negb]; [|discriminate].
  intros H. injection H as <-.
  split; [apply validate_new; exact Hv|].
  split; [|apply TrimSpace_idem].
  intros Hnil.
  assert (Hh : header = String.append "Bearer " rest).
  { unfold rest, TrimPrefix. rewrite Hp. apply prefix_split. exact Hp. }
  assert (Ht : trailing_len header = 0) by apply TrimSpace_clean.
  apply TrimSpace_empty in Hnil as [Hr|(r' & sp & Hr & Hsp)].
  - rewrite Hh, Hr in Ht. discriminate Ht.
  - rewrite Hh, Hr, string_append_assoc in Ht. exact (trailing_of_space _ _ Hsp Ht).
Qed.

Lemma auth_pass_token_witness :
  authMiddleware (NewTokenAuth ["token1"; "token2"]) " Bearer token2 " = Pass "token2" /\
  In "token2" ["token1"; "token2"].
Proof.
  assert (H : authMiddleware (NewTokenAuth ["token1"; "token2"]) " Bearer token2 " = Pass "token2")
    by (vm_compute; reflexivity).
  split; [exact H|]. exact (proj1 (auth_pass_token _ _ _ H)).
Defined.

(** X13: conversely, the header "Bearer <t>" gets through for every
    configured token t that is non-empty and has no surrounding Unicode
    whitespace. *)
Theorem auth_bearer_accepts (tokens : list string) (t : string) :
  In t tokens -> t <> "" -> TrimSpace t = t ->
  authMiddleware (NewTokenAuth tokens) (String.append "Bearer " t) = Pass t.
Proof.
  intros Hin Hne Ht.
  assert (Htr : trailing_len t = 0) by (rewrite <- Ht; apply TrimSpace_clean).
  assert (Hh : TrimSpace (String.append "Bearer " t) = String.append "Bearer " t).
  { unfold TrimSpace. rewrite trim_left_id by reflexivity.
    apply trim_right_id. rewrite trailing_bearer by exact Hne. exact Htr. }
  unfold authMiddleware. cbv zeta. rewrite Hh, has_prefix_app. cbn [negb].
  rewrite trim_prefix_app, Ht.
  assert (Hv : ValidateToken (NewTokenAuth tokens) t = true) by (apply validate_new; exact Hin).
  rewrite Hv. reflexivity.
Qed.

Lemma auth_bearer_accepts_witness :
  In "token1" ["token1"; "token2"] /\ "token1" <> "" /\ TrimSpace "token1" = "token1" /\
  authMiddleware (NewTokenAuth ["token1"; "token2"]) (String.append "Bearer " "token1") = Pass "token1".
Proof.
  assert (H1 : In "token1" ["token1"; "token2"]) by (left; reflexivity).
  assert (H2 : "token1" <> "") by discriminate.
  assert (H3 : TrimSpace "token1" = "token1") by (vm_compute; reflexivity).
  split; [exact H1|]. split; [exact H2|]. split; [exact H3|].
  exact (auth_bearer_accepts _ _ H1 H2 H3).
Defined.

End AuthExtras.

(** ** Mutual exclusion of the upload gate *)

Module GateExclFacts.
Import UploadGate GateFacts.

(** Whether lock.mu of the object at address [l] is held. *)
Definition mu_of (g : gate) (l : nat) : bool :=
  match heap g !! l with Some o => mu_locked o | None => false end.

(** A goroutine inside the critical section guarded by the object at [l]. *)
Definition in_cs (l : nat) (t : thread) : bool :=
  match t with THolding _ l' => Nat.eqb l' l | _ => false end.

Definition cs_count (s : state) (l : nat) : nat := length (List.filter (in_cs l) (threads s)).

(** Each object's mutex is locked exactly when one goroutine is in its
    critical section, and no goroutine is in it otherwise. *)
Definition excl (s : state) : Prop :=
  forall l, cs_count s l = (if mu_of (gt s) l then 1 else 0)%nat.

Lemma mu_of_insert (g : gate) (l a : nat) (o : artifactLock) (m : gmap nat artifactLock) :
  (forall x, x <> a -> m !! x = heap g !! x) -> m !! a = Some o ->
  mu_of (mkGate (uploadLocks g) m (next_addr g)) l =
  if decide (l = a) then mu_locked o else mu_of g l.
Proof.
  intros Hm Ha. unfold mu_of. cbn [heap].
  destruct (decide (l = a)) as [->|Hne]; [rewrite Ha; reflexivity|rewrite Hm by exact Hne; reflexivity].
Qed.

Lemma acquire_mu (K : string) (g : gate) (l : nat) :
  heap g !! next_addr g = None -> mu_of (acquire_locked K g).1 l = mu_of g l.
Proof.
  intros Hfresh. unfold acquire_locked.
  destruct (uploadLocks g !! K) as [a|] eqn:HK; cbv beta iota zeta.
  - destruct (heap g !! a) as [o|] eqn:Ho; cbn [fst]; [|reflexivity].
    unfold mu_of. cbn [heap]. destruct (decide (l = a)) as [->|Hne].
    + rewrite lookup_insert_eq, Ho. reflexivity.
    + rewrite lookup_insert_ne by congruence. reflexivity.
  - cbn [heap uploadLocks next_addr]. rewrite lookup_insert_eq. cbn [fst].
    unfold mu_of. cbn [heap]. destruct (decide (l = next_addr g)) as [->|Hne].
    + rewrite lookup_insert_eq, Hfresh. reflexivity.
    + rewrite !lookup_insert_ne by congruence. reflexivity.
Qed.

Lemma release_mu (key : string) (a : nat) (g : gate) (l : nat) :
  mu_of (release_locked key a g) l = mu_of g l.
Proof.
  unfold release_locked. destruct (heap g !! a) as [o|] eqn:Ho; [|reflexivity].
  cbv zeta. unfold mu_of. cbn [heap]. destruct (decide (l = a)) as [->|Hne].
  - rewrite lookup_insert_eq, Ho. reflexivity.
  - rewrite lookup_insert_ne by congruence. reflexivity.
Qed.

Lemma set_mu_eq (b : bool) (a : nat) (g : gate) (o : artifactLock) :
  heap g !! a = Some o -> mu_of (set_mu b a g) a = b.
Proof. intros Ho. unfold mu_of, set_mu. rewrite Ho. cbn [heap]. rewrite lookup_insert_eq. reflexivity. Qed.

Lemma set_mu_ne (b : bool) (a : nat) (g : gate) (l : nat) :
  l <> a -> mu_of (set_mu b a g) l = mu_of g l.
Proof.
  intros Hne. unfold mu_of, set_mu. destruct (heap g !! a) as [o|]; [|reflexivity].
  cbn [heap]. rewrite lookup_insert_ne by congruence. reflexivity.
Qed.

Lemma cs_count_set (s : state) (i : nat) (t0 t : thread) (g : gate) (l : nat) :
  threads s !! i = Some t0 ->
  (cs_count (mkState g (set_thread s i t)) l + (if in_cs l t0 then 1 else 0) =
   cs_count s l + (if in_cs l t then 1 else 0))%nat.
Proof. intros H. unfold cs_count, set_thread. cbn [threads]. exact (count_insert _ _ _ _ _ H). Qed.

Lemma init_excl (n : nat) : excl (init n).
Proof.
  intros l. unfold cs_count, mu_of, init. cbn [gt threads heap]. rewrite lookup_empty.
  apply count_zero. intros j t H. apply lookup_replicate in H as [-> _]. reflexivity.
Qed.

Lemma excl_step (s s' : state) : inv s -> excl s -> step s s' -> excl s'.
Proof.
  intros (I1 & I2 & I3 & I4) E Hs.
  destruct Hs as [s i p v Hi|s i key a Hi Hf|s i key a Hi|s i key a Hi]; intros l.
  - pose proof (cs_count_set s i _ (TWaiting (key_of p v) (acquire_locked (key_of p v) (gt s)).2)
                  (acquire_locked (key_of p v) (gt s)).1 l Hi) as C.
    cbn [in_cs] in C. cbn [gt]. rewrite acquire_mu, <- E by
      (destruct (heap (gt s) !! next_addr (gt s)) as [o|] eqn:Ho; [pose proof (I3 _ _ Ho); lia|reflexivity]).
    lia.
  - pose proof (cs_count_set s i _ (THolding key a) (set_mu true a (gt s)) l Hi) as C.
    cbn [in_cs] in C. cbn [gt].
    unfold mu_free in Hf. destruct (heap (gt s) !! a) as [o|] eqn:Ho; [|discriminate].
    destruct (decide (l = a)) as [->|Hne].
    + rewrite (set_mu_eq _ _ _ _ Ho). rewrite Nat.eqb_refl in C.
      specialize (E a). unfold mu_of in E. rewrite Ho in E.
      destruct (mu_locked o); [discriminate|]. lia.
    + rewrite set_mu_ne by exact Hne. apply Nat.eqb_neq in Hne.
      rewrite Nat.eqb_sym, Hne in C. rewrite <- E. lia.
  - pose proof (cs_count_set s i _ (TReleasing key a) (set_mu false a (gt s)) l Hi) as C.
    cbn [in_cs] in C. cbn [gt].
    destruct (decide (l = a)) as [->|Hne].
    + rewrite Nat.eqb_refl in C.
      pose proof (count_pos (in_cs a) _ _ _ Hi ltac:(cbn; apply Nat.eqb_refl)) as P.
      change (length (List.filter (in_cs a) (threads s))) with (cs_count s a) in P.
      specialize (E a). unfold mu_of in E.
      destruct (heap (gt s) !! a) as [o|] eqn:Ho; [|lia].
      rewrite (set_mu_eq _ _ _ _ Ho).
      destruct (mu_locked o); lia.
    + rewrite set_mu_ne by exact Hne. apply Nat.eqb_neq in Hne.
      rewrite Nat.eqb_sym, Hne in C. rewrite <- E. lia.
  - pose proof (cs_count_set s i _ TFree (release_locked key a (gt s)) l Hi) as C.
    cbn [in_cs] in C. cbn [gt]. rewrite release_mu, <- E. lia.
Qed.

Lemma reachable_excl (s : state) : reachable s -> excl s.
Proof.
  intros [n Hr].
  assert (H : inv s /\ excl s).
  { revert s Hr. apply (rtc_ind_r (fun s => inv s /\ excl s) (init n)); [split; [apply init_inv|apply init_excl]|].
    intros y z _ Hyz [Hi He]. split; [exact (inv_step y z Hi Hyz)|exact (excl_step y z Hi He Hyz)]. }
  exact (proj2 H).
Qed.

Lemma cs_count_two (s : state) (i j : nat) (l : nat) (ti tj : thread) :
  i <> j -> threads s !! i = Some ti -> threads s !! j = Some tj ->
  in_cs l ti = true -> in_cs l tj = true -> (2 <= cs_count s l)%nat.
Proof.
  intros Hne Hi Hj Pi Pj.
  pose proof (cs_count_set s i _ TFree (gt s) l Hi) as C. rewrite Pi in C. cbn [in_cs] in C.
  assert (Hj' : set_thread s i TFree !! j = Some tj)
    by (unfold set_thread; rewrite list_lookup_insert_ne by congruence; exact Hj).
  pose proof (count_pos (in_cs l) _ _ _ Hj' Pj) as P.
  unfold cs_count in C at 1. cbn [threads] in C. lia.
Qed.

End GateExclFacts.

Module GateExclExamples.
Import UploadGate GateExamples.

(** The second goroutine of [s_one_left] takes the lock and runs its upload. *)
Definition s_second_holding : state := lck s_one_left 1 k_demo 0.

Lemma s_second_holding_reachable : reachable s_second_holding.
Proof. exists 2%nat. unfold s_second_holding, s_one_left. run_gate. Qed.

End GateExclExamples.

Module GateExclExtras.
Import UploadGate GateFacts GateExclFacts GateExamples GateExclExamples.

(** X14: in every reachable state of the upload gate, no two goroutines are
    at once past lockArtifactUpload for the same key (holding its lock.mu
    and running the upload): two goroutines in [THolding key _] are the same
    goroutine. *)
Theorem upload_gate_exclusive (s : state) (Hs : reachable s) (key : string) (i j l1 l2 : nat) :
  threads s !! i = Some (THolding key l1) -> threads s !! j = Some (THolding key l2) -> i = j.
Proof.
  intros Hi Hj. destruct (reachable_inv s Hs) as (_ & I2 & _).
  pose proof (I2 _ _ _ _ Hi (or_intror (or_introl eq_refl))) as H1.
  pose proof (I2 _ _ _ _ Hj (or_intror (or_introl eq_refl))) as H2.
  rewrite H1 in H2. injection H2 as <-.
  destruct (decide (i = j)) as [|Hne]; [assumption|exfalso].
  pose proof (cs_count_two s i j l1 _ _ Hne Hi Hj ltac:(cbn; apply Nat.eqb_refl) ltac:(cbn; apply Nat.eqb_refl)) as C.
  pose proof (reachable_excl s Hs l1) as E. destruct (mu_of (gt s) l1); lia.
Qed.

Lemma upload_gate_exclusive_witness :
  threads s_second_holding !! 1%nat = Some (THolding k_demo 0) /\ 1%nat = 1%nat.
Proof.
  assert (H : threads s_second_holding !! 1%nat = Some (THolding k_demo 0)) by (vm_compute; reflexivity).
  split; [exact H|].
  exact (upload_gate_exclusive s_second_holding s_second_holding_reachable k_demo 1 1 0 0 H H).
Defined.

End GateExclExtras.

(** ** What an upload does to the artifact table *)

Module UploadExtFacts.
Import Storage Meta.

Lemma create_package_rows (name : string) (d : db) :
  artifacts (CreatePackage name d).2 = artifacts d /\
  forall id, (CreatePackage name d).1 = SOk id ->
    exists p, In p (packages (CreatePackage name d).2) /\ pkg_name p = name /\ pkg_id p = id.
Proof.
  unfold CreatePackage.
  set (d' := if existsb (fun p => String.eqb (pkg_name p) name) (packages d)
             then mkDb (packages d) (artifacts d) (pkg_seq d + 1) (art_seq d)
             else mkDb (packages d ++ [mkPackage (pkg_seq d + 1) name]) (artifacts d)
                       (pkg_seq d + 1) (art_seq d)).
  assert (Ha : artifacts d' = artifacts d)
    by (unfold d'; destruct (existsb _ _); reflexivity).
  destruct (find (fun p => String.eqb (pkg_name p) name) (packages d')) as [p|] eqn:Hf;
    cbn [fst snd]; split; try exact Ha; intros id Hid; [|discriminate].
  injection Hid as <-. apply find_some in Hf as [Hin Hn]. apply String.eqb_eq in Hn.
  exists p. auto.
Qed.

Lemma create_artifact_rows (pid : Z) (version hash : string) (size now : Z) (d d' : db) (res : sres artifact) :
  CreateArtifact pid version hash size now d = (res, d') ->
  (exists a, res = SOk a /\ artifacts d' = artifacts d ++ [a] /\ packages d' = packages d /\
             art_package_id a = pid /\ art_version a = version /\ art_hash a = hash /\
             art_uploaded_at a = now) \/
  (res = SErr ErrConflict /\ d' = d).
Proof.
  unfold CreateArtifact. destruct (existsb _ _); intros H; injection H as <- <-; [right; auto|left].
  eexists. repeat split; reflexivity.
Qed.

End UploadExtFacts.

Module UploadExtras.
Import Disk Storage Meta Handlers GCExamples UploadExtFacts.

(** X15: UploadArtifact changes the artifact table only when it answers 201
    Created, and then by appending exactly one row: one for the requested
    version, the blob's hash and the upload time, whose package_id is the id
    of a package row named [pkgName]. Every other answer (400, 409, 500)
    leaves the artifact rows as they were. *)
Theorem upload_artifact_rows (pkgName version : string) (r : bytes) (now : Z) (w w1 : world) (r1 : response) :
  UploadArtifact pkgName version r now w = (r1, w1) ->
  (status r1 = 201 /\
   exists a p, artifacts (meta w1) = artifacts (meta w) ++ [a] /\
     art_version a = version /\ art_uploaded_at a = now /\
     (exists s1, Store r (disk w) = (Ok (art_hash a, art_size a), s1)) /\
     In p (packages (meta w1)) /\ pkg_name p = pkgName /\ pkg_id p = art_package_id a) \/
  (status r1 <> 201 /\ artifacts (meta w1) = artifacts (meta w)).
Proof.
  unfold UploadArtifact. intros H.
  destruct (String.eqb pkgName "" || String.eqb version "");
    [injection H as <- <-; right; split; [discriminate|reflexivity]|].
  destruct (GetArtifact pkgName version (meta w));
    [injection H as <- <-; right; split; [discriminate|reflexivity]|].
  destruct (Store r (disk w)) as [[[hash size]|e] s1] eqn:Hs;
    [|injection H as <- <-; right; split; [discriminate|reflexivity]].
  destruct (create_package_rows pkgName (meta w)) as [Hpa Hpi].
  destruct (CreatePackage pkgName (meta w)) as [[pid|e] d1] eqn:Hc; cbn [fst snd] in Hpa, Hpi;
    [|injection H as <- <-; right; split; [discriminate|exact Hpa]].
  destruct (Hpi pid eq_refl) as (p & Hp & Hpn & Hpid).
  destruct (CreateArtifact pid version hash size now d1) as [res d2] eqn:Ha.
  destruct (create_artifact_rows _ _ _ _ _ _ _ _ Ha)
    as [(a & -> & Ha2 & Hp2 & Hpid2 & Hv & Hh & Ht)|[-> ->]].
  - injection H as <- <-. left. split; [reflexivity|].
    exists a, p. cbn [meta]. rewrite Ha2, Hpa, Hp2.
    unfold CreateArtifact in Ha. destruct (existsb _ _); [discriminate|].
    injection Ha as Ea _. subst a. cbn [art_version art_uploaded_at art_hash art_size art_package_id].
    repeat split; auto. exists s1. reflexivity.
  - injection H as <- <-. right. split; [discriminate|exact Hpa].
Qed.

Lemma upload_artifact_rows_witness :
  UploadArtifact "demo" "1.0.0" gc_body 0 GCExamples.w_empty = (run_upload.1, run_upload.2) /\
  status run_upload.1 = 201 /\ length (artifacts (meta run_upload.2)) = 1%nat.
Proof.
  assert (E : UploadArtifact "demo" "1.0.0" gc_body 0 GCExamples.w_empty = (run_upload.1, run_upload.2))
    by (unfold run_upload; destruct (UploadArtifact _ _ _ _ _); reflexivity).
  split; [exact E|].
  destruct (upload_artifact_rows _ _ _ _ _ _ _ E) as [[Hs (a & p & Ha & _)]|[Hs _]].
  - split; [exact Hs|]. rewrite Ha. reflexivity.
  - exfalso. apply Hs. vm_compute. reflexivity.
Defined.

End UploadExtras.
